(** * repair-pdf: the page operations, region merger and text fitting of
      [backend/app/pdf_ops.py]

    The development embeds the pure parts of [pdf_ops.py] and states the
    properties of the specification over them.

    Conventions of the embedding:
    - a Python [str] is a [string]; the character predicates and case
      mappings cover the ASCII range (larger code points count as caseless
      symbols);
    - a Python [int] is a [Z];
    - a Python [float] is an exact rational [Q]: rounding is not modelled,
      and the concrete inputs used below are dyadic and far from every
      threshold, so that binary64 arithmetic computes the same values;
    - a raised [PdfOpError] is the [Raise] case of [result];
    - a document is the list of its pages, and its serialisation
      ([tobytes]) is the document itself;
    - what PyMuPDF ([fitz]) provides is modelled from its documentation. *)

From Stdlib Require Import ZArith QArith Qminmax Qabs Lqa Lia List String Ascii Bool.
From Stdlib Require Import DecimalString DecimalNat.
From stdpp Require Import base gmap sets list strings list_numbers sorting.

(** ** Python string primitives *)

Module Py.

Definition code (c : ascii) : nat := nat_of_ascii c.

Definition between (lo hi : nat) (c : ascii) : bool :=
  (lo <=? code c) && (code c <=? hi).

(** [str.isspace] on one character: TAB..CR, FS..US and SPACE. *)
Definition isspace (c : ascii) : bool := between 9 13 c || between 28 32 c.
Definition isupper (c : ascii) : bool := between 65 90 c.
Definition islower (c : ascii) : bool := between 97 122 c.
Definition isalpha (c : ascii) : bool := isupper c || islower c.
Definition isdigit (c : ascii) : bool := between 48 57 c.

Definition to_lower (c : ascii) : ascii :=
  if isupper c then ascii_of_nat (code c + 32) else c.
Definition to_upper (c : ascii) : ascii :=
  if islower c then ascii_of_nat (code c - 32) else c.

Definition chars (s : string) : list ascii := list_ascii_of_string s.
Definition str (l : list ascii) : string := string_of_list_ascii l.

(** [bool(s)]: a string is truthy when it is not empty. *)
Definition truthy (s : string) : bool :=
  match s with EmptyString => false | String _ _ => true end.

Definition len (s : string) : Z := Z.of_nat (String.length s).

Fixpoint lower (s : string) : string :=
  match s with
  | EmptyString => EmptyString
  | String c s' => String (to_lower c) (lower s')
  end.

Fixpoint upper (s : string) : string :=
  match s with
  | EmptyString => EmptyString
  | String c s' => String (to_upper c) (upper s')
  end.

(** [str.title]: a cased character is upper-cased after an uncased one and
    lower-cased after a cased one. *)
Fixpoint title_from (previous_is_cased : bool) (s : string) : string :=
  match s with
  | EmptyString => EmptyString
  | String c s' =>
      String (if isalpha c
              then (if previous_is_cased then to_lower c else to_upper c)
              else c)
             (title_from (isalpha c) s')
  end.
Definition title (s : string) : string := title_from false s.

Fixpoint lstrip (s : string) : string :=
  match s with
  | String c s' => if isspace c then lstrip s' else s
  | EmptyString => EmptyString
  end.

(** [rstrip] keeps a character when it is not a space or when something
    is kept after it. *)
Fixpoint rstrip (s : string) : string :=
  match s with
  | EmptyString => EmptyString
  | String c s' =>
      match rstrip s' with
      | EmptyString => if isspace c then EmptyString else String c EmptyString
      | r => String c r
      end
  end.

Definition strip (s : string) : string := rstrip (lstrip s).

(** [any(ch.isspace() for ch in s)] *)
Definition any_space (s : string) : bool := existsb isspace (chars s).

(** [s.split(sep)] for a one-character separator: always at least one
    field. *)
Fixpoint split (sep : ascii) (s : string) : list string :=
  match s with
  | EmptyString => [EmptyString]
  | String c s' =>
      if Ascii.eqb c sep then EmptyString :: split sep s'
      else match split sep s' with
           | f :: fs => String c f :: fs
           | [] => [String c EmptyString]
           end
  end.

(** [s.split(sep, 1)] when [sep in s]: the text before and after the first
    separator; [None] when [sep not in s]. *)
Fixpoint split_first (sep : ascii) (s : string) : option (string * string) :=
  match s with
  | EmptyString => None
  | String c s' =>
      if Ascii.eqb c sep then Some (EmptyString, s')
      else match split_first sep s' with
           | Some (a, b) => Some (String c a, b)
           | None => None
           end
  end.

Fixpoint startswith (p s : string) : bool :=
  match p, s with
  | EmptyString, _ => true
  | String a p', String b s' => Ascii.eqb a b && startswith p' s'
  | String _ _, EmptyString => false
  end.

(** [sub in s] *)
Fixpoint contains (sub s : string) : bool :=
  startswith sub s ||
  match s with
  | EmptyString => false
  | String _ s' => contains sub s'
  end.

Definition endswith (p s : string) : bool :=
  startswith (str (rev (chars p))) (str (rev (chars s))).

(** [any(k in s for k in keys)] *)
Definition any_in (keys : list string) (s : string) : bool :=
  existsb (fun k => contains k s) keys.

(** Digits with single underscores between them, as [int] accepts them;
    [acc] is the value read so far and [after_digit] tells whether the
    previous character was a digit. *)
Fixpoint digits (acc : Z) (after_digit : bool) (s : string) : option Z :=
  match s with
  | EmptyString => if after_digit then Some acc else None
  | String c s' =>
      if isdigit c then digits (10 * acc + Z.of_nat (code c - 48)) true s'
      else if Ascii.eqb c "_" && after_digit
           then match s' with
                | String d _ => if isdigit d then digits acc false s' else None
                | EmptyString => None
                end
           else None
  end.

(** The white space that [int] skips around an ASCII numeral: TAB..CR and
    SPACE, without FS..US. *)
Definition isspace_c (c : ascii) : bool := between 9 13 c || between 32 32 c.

Fixpoint lstrip_c (s : string) : string :=
  match s with
  | String c s' => if isspace_c c then lstrip_c s' else s
  | EmptyString => EmptyString
  end.

Fixpoint rstrip_c (s : string) : string :=
  match s with
  | EmptyString => EmptyString
  | String c s' =>
      match rstrip_c s' with
      | EmptyString => if isspace_c c then EmptyString else String c EmptyString
      | r => String c r
      end
  end.

(** [int(s)] in base 10: surrounding white space, an optional sign, then
    digits; [None] stands for [ValueError].  The interpreter's limit on
    the number of digits is not modelled. *)
Definition int (s : string) : option Z :=
  match rstrip_c (lstrip_c s) with
  | String "+" d => digits 0 false d
  | String "-" d => option_map Z.opp (digits 0 false d)
  | d => digits 0 false d
  end.

End Py.

(** ** Errors *)

(** The messages of [PdfOpError] that the page operations raise. *)
Inductive PdfOpError : Type :=
  | NoPages                                   (* "PDF has no pages" *)
  | Required (field : string)                 (* "{field} is required" *)
  | NotAnInteger (name : string)              (* "{name} must be an integer" *)
  | NotPositive (name : string)               (* "{name} must be >= 1" *)
  | RangeEndBeforeStart                       (* "range end must be >= range start" *)
  | PageOutOfBounds (one_based page_count : Z)
  | OrderWrongLength (page_count : Z)         (* "order must specify exactly n pages" *)
  | OrderOutOfBounds (one_based page_count : Z)
  | OrderDuplicates.                          (* "order contains duplicates" *)

Inductive result (A : Type) : Type :=
  | Ok (a : A)
  | Raise (e : PdfOpError).
Arguments Ok {A} a.
Arguments Raise {A} e.

Definition bind {A B : Type} (r : result A) (k : A -> result B) : result B :=
  match r with
  | Ok a => k a
  | Raise e => Raise e
  end.

Notation "x <- r ;; k" := (bind r (fun x => k))
  (at level 100, r at next level, right associativity, only parsing).

Definition raises {A : Type} (r : result A) : Prop := exists e, r = Raise e.

(** What an operation gives that ends in [out.tobytes()]: the bytes of its
    output, a refusal of its own, or the [ValueError] with which PyMuPDF
    declines to save a document without pages ("cannot save with zero
    pages"). *)
Inductive saved (E A : Type) : Type :=
  | Bytes (a : A)
  | Invalid (e : E)
  | ZeroPages.
Arguments Bytes {E A} a.
Arguments Invalid {E A} e.
Arguments ZeroPages {E A}.

(** ** Page operations *)

Module Pages.

Definition _parse_positive_int (value name : string) : result Z :=
  match Py.int value with
  | None => Raise (NotAnInteger name)
  | Some parsed =>
      if (parsed <=? 0)%Z then Raise (NotPositive name) else Ok parsed
  end.

(** [[p.strip() for p in cleaned.split(",") if p.strip()]] *)
Definition comma_parts (cleaned : string) : list string :=
  List.filter Py.truthy (List.map Py.strip (Py.split "," cleaned)).

Definition out_of_bounds (idx page_count : Z) : bool :=
  (idx <? 0)%Z || (page_count <=? idx)%Z.

(** [for one_based in range(start, end + 1)], [count] pages from
    [one_based] on. *)
Fixpoint add_range (page_count one_based : Z) (count : nat) (indices : gset Z)
  : result (gset Z) :=
  match count with
  | O => Ok indices
  | S count' =>
      let idx := (one_based - 1)%Z in
      if out_of_bounds idx page_count
      then Raise (PageOutOfBounds one_based page_count)
      else add_range page_count (one_based + 1)%Z count' ({[ idx ]} ∪ indices)
  end.

(** The body of the loop over [parts] in [parse_page_ranges]. *)
Definition add_part (page_count : Z) (indices : gset Z) (part : string)
  : result (gset Z) :=
  match Py.split_first "-" part with
  | Some (start_s, end_s) =>
      start <- _parse_positive_int (Py.strip start_s) "range start" ;;
      end_ <- _parse_positive_int (Py.strip end_s) "range end" ;;
      if (end_ <? start)%Z then Raise RangeEndBeforeStart
      else add_range page_count start (Z.to_nat (end_ + 1 - start)) indices
  | None =>
      one_based <- _parse_positive_int part "page" ;;
      let idx := (one_based - 1)%Z in
      if out_of_bounds idx page_count
      then Raise (PageOutOfBounds one_based page_count)
      else Ok ({[ idx ]} ∪ indices)
  end.

Fixpoint add_parts (page_count : Z) (indices : gset Z) (parts : list string)
  : result (gset Z) :=
  match parts with
  | [] => Ok indices
  | part :: rest =>
      indices' <- add_part page_count indices part ;;
      add_parts page_count indices' rest
  end.

Definition parse_page_ranges (pages : string) (page_count : Z)
  : result (gset Z) :=
  if (page_count <=? 0)%Z then Raise NoPages
  else
    let cleaned := Py.strip pages in
    if negb (Py.truthy cleaned) then Raise (Required "pages")
    else add_parts page_count ∅ (comma_parts cleaned).

(** The loop of [parse_reorder]: [result] grows at its end, [seen] holds
    its members. *)
Fixpoint order_loop (page_count : Z) (result_ : list Z) (seen : gset Z)
    (parts : list string) : result (list Z) :=
  match parts with
  | [] => Ok result_
  | part :: rest =>
      one_based <- _parse_positive_int part "order item" ;;
      let idx := (one_based - 1)%Z in
      if out_of_bounds idx page_count
      then Raise (OrderOutOfBounds one_based page_count)
      else if bool_decide (idx ∈ seen) then Raise OrderDuplicates
      else order_loop page_count (result_ ++ [idx]) ({[ idx ]} ∪ seen) rest
  end.

Definition parse_reorder (order : string) (page_count : Z) : result (list Z) :=
  if (page_count <=? 0)%Z then Raise NoPages
  else
    let cleaned := Py.strip order in
    if negb (Py.truthy cleaned) then Raise (Required "order")
    else
      let parts := comma_parts cleaned in
      if negb (Z.of_nat (length parts) =? page_count)%Z
      then Raise (OrderWrongLength page_count)
      else order_loop page_count [] ∅ parts.

Section Documents.

Variable Page : Type.

(** A document is its pages in order. *)
Definition Document : Type := list Page.

Definition page_count (doc : Document) : Z := Z.of_nat (length doc).

(** [out.insert_pdf(src, from_page=a, to_page=b)] for
    [0 <= a <= b < src.page_count]: the pages [a..b] of [src] are
    appended to [out]. *)
Definition insert_pdf (out src : Document) (from_page to_page : Z) : Document :=
  out ++ take (Z.to_nat (to_page + 1 - from_page)) (drop (Z.to_nat from_page) src).

Definition reorder_pages (src : Document) (order : string) : result Document :=
  page_order <- parse_reorder order (page_count src) ;;
  Ok (fold_left (fun out idx => insert_pdf out src idx idx) page_order []).

(** [out.tobytes()]: a document without pages is not saved. *)
Definition tobytes {E : Type} (out : Document) : saved E Document :=
  match out with
  | [] => ZeroPages
  | _ => Bytes out
  end.

Definition remove_pages (src : Document) (pages : string)
  : saved PdfOpError Document :=
  match parse_page_ranges pages (page_count src) with
  | Raise e => Invalid e
  | Ok to_remove =>
      tobytes
        (fold_left
           (fun out idx =>
              if bool_decide (idx ∈ to_remove) then out
              else insert_pdf out src idx idx)
           (seqZ 0 (page_count src)) [])
  end.

End Documents.

Arguments insert_pdf {Page} out src from_page to_page.
Arguments reorder_pages {Page} src order.
Arguments tobytes {Page E} out.
Arguments remove_pages {Page} src pages.
Arguments page_count {Page} doc.

End Pages.

(** ** Floating-point values as rationals *)

Module Float.

Local Open Scope Q_scope.

Definition leb (a b : Q) : bool := Qle_bool a b.
Definition ltb (a b : Q) : bool := negb (Qle_bool b a).
Definition eqb (a b : Q) : bool := Qeq_bool a b.

(** Python's [max(a, b)] and [min(a, b)] keep the first argument on a
    tie. *)
Definition max (a b : Q) : Q := if ltb a b then b else a.
Definition min (a b : Q) : Q := if ltb b a then b else a.
Definition abs (a : Q) : Q := if ltb a 0 then - a else a.

Definition of_int (n : Z) : Q := inject_Z n.

End Float.

(** ** Rectangles *)

Module Geometry.

Local Open Scope Q_scope.

(** [fitz.Rect]: the corners [(x0, y0)] and [(x1, y1)].  Its properties
    and methods below follow the [Rect] class of PyMuPDF. *)
Record Rect : Type := mkRect { x0 : Q; y0 : Q; x1 : Q; y1 : Q }.

Record Point : Type := mkPoint { px : Q; py : Q }.

(** [Rect.width] and [Rect.height] are never negative. *)
Definition width (r : Rect) : Q := Float.max 0 (x1 r - x0 r).
Definition height (r : Rect) : Q := Float.max 0 (y1 r - y0 r).

(** [bool(r)]: false only for the rectangle whose four coordinates are
    zero. *)
Definition truthy (r : Rect) : bool :=
  negb (Float.eqb (x0 r) 0 && Float.eqb (y0 r) 0
        && Float.eqb (x1 r) 0 && Float.eqb (y1 r) 0).

Definition is_empty (r : Rect) : bool :=
  Float.leb (x1 r) (x0 r) || Float.leb (y1 r) (y0 r).

Definition FZ_MIN_INF_RECT : Q := inject_Z (-2147483648).
Definition FZ_MAX_INF_RECT : Q := inject_Z 2147483520.

Definition is_infinite (r : Rect) : bool :=
  Float.eqb (x0 r) FZ_MIN_INF_RECT && Float.eqb (y0 r) FZ_MIN_INF_RECT
  && Float.eqb (x1 r) FZ_MAX_INF_RECT && Float.eqb (y1 r) FZ_MAX_INF_RECT.

(** [a.intersects(b)]: both are proper rectangles and their interiors
    meet. *)
Definition intersects (a b : Rect) : bool :=
  negb (is_empty a) && negb (is_infinite a)
  && negb (is_empty b) && negb (is_infinite b)
  && Float.ltb (x0 a) (x1 b) && Float.ltb (x0 b) (x1 a)
  && Float.ltb (y0 a) (y1 b) && Float.ltb (y0 b) (y1 a).

(** [a] lies within [b]. *)
Definition contained (a b : Rect) : Prop :=
  x0 b <= x0 a /\ y0 b <= y0 a /\ x1 a <= x1 b /\ y1 a <= y1 b.

End Geometry.

(** ** Region merger *)

Module Merger.

Import Geometry.
Local Open Scope Q_scope.

(** The sort key [(float(r.y0), float(r.x0))], compared as tuples. *)
Definition key_le (a b : Rect) : bool :=
  Float.ltb (y0 a) (y0 b)
  || (Float.eqb (y0 a) (y0 b) && Float.leb (x0 a) (x0 b)).

(** [list.sort] is stable: a rectangle goes before the first one whose key
    is not smaller. *)
Fixpoint insert_by_key (r : Rect) (sorted : list Rect) : list Rect :=
  match sorted with
  | [] => [r]
  | h :: t => if key_le r h then r :: h :: t else h :: insert_by_key r t
  end.

Definition sort_by_key (rects : list Rect) : list Rect :=
  fold_right insert_by_key [] rects.

Definition v_overlap (last r : Rect) : Q :=
  Float.max 0 (Float.min (y1 last) (y1 r) - Float.max (y0 last) (y0 r)).

Definition min_h (last r : Rect) : Q :=
  Float.max 1 (Float.min (height last) (height r)).

Definition center (r : Rect) : Q := (y0 r + y1 r) / 2.

(** [same_line] after both assignments in the loop body. *)
Definition same_line (last r : Rect) : bool :=
  let same_line := Float.leb (3 # 10) (v_overlap last r / min_h last r) in
  if Float.ltb (Float.abs (center last - center r)) (min_h last r * (8 # 10))
  then true
  else same_line.

Definition union (last r : Rect) : Rect :=
  mkRect (Float.min (x0 last) (x0 r)) (Float.min (y0 last) (y0 r))
         (Float.max (x1 last) (x1 r)) (Float.max (y1 last) (y1 r)).

(** One turn of the loop over [cleaned]: [merged[-1]] is replaced by the
    union, or [r] is appended. *)
Definition merge_step (merged : list Rect) (r : Rect) : list Rect :=
  match List.rev merged with
  | [] => [r]
  | last :: front =>
      if intersects last r || same_line last r
      then List.rev front ++ [union last r]
      else merged ++ [r]
  end.

Definition merge_sorted (cleaned : list Rect) : list Rect :=
  fold_left merge_step cleaned [].

Definition pad (r : Rect) : Rect :=
  let h := height r in
  let pad_x := Float.max 2 (h * (15 # 100)) in
  let pad_y := Float.max 1 (h * (8 # 100)) in
  mkRect (x0 r - pad_x) (y0 r - pad_y) (x1 r + pad_x) (y1 r + pad_y).

Definition _merge_close_rects (rects : list Rect) : list Rect :=
  match rects with
  | [] => []
  | _ =>
      let cleaned := sort_by_key (List.filter truthy rects) in
      List.map pad (merge_sorted cleaned)
  end.

End Merger.

(** ** Tracking emulation *)

Module Tracking.

Import Geometry.
Local Open Scope Q_scope.

Definition _should_use_distributed_insertion
    (rect : Rect) (original_text replacement_text : string)
    (measured_replacement measured_original fontsize : Q) : bool :=
  if Float.ltb fontsize 12 then false
  else if negb (Py.truthy replacement_text)
          || (Py.len replacement_text <=? 2)%Z then false
  else if Float.leb measured_replacement 0 then false
  else
    let rect_w := Float.max 1 (width rect - 1) in
    let repl_fill := rect_w / measured_replacement in
    if Float.ltb repl_fill (120 # 100) then false
    else
      let orig := Py.strip original_text in
      let repl := Py.strip replacement_text in
      if negb (Py.truthy orig) then false
      else if negb (Bool.eqb (Py.any_space orig) (Py.any_space repl)) then false
      else if Float.leb measured_original 0 then false
      else
        let orig_fill := rect_w / measured_original in
        if Float.ltb orig_fill (110 # 100) then false
        else
          let lo := Z.max 1 (Py.len orig) in
          let ratio := Float.of_int (Py.len repl) / Float.of_int lo in
          if Float.ltb ratio (65 # 100) || Float.ltb (135 # 100) ratio
          then false
          else true.

End Tracking.

(** ** Fonts, baseline and glyph coverage *)

(** A call that may raise: [Raised] stands for any Python exception that a
    [try] block of the source catches. *)
Inductive attempt (A : Type) : Type :=
  | Returned (a : A)
  | Raised.
Arguments Returned {A} a.
Arguments Raised {A}.

Module Fonts.

Import Geometry.
Local Open Scope Q_scope.

(** What the source reads of a [fitz.Font]: the [descender] attribute
    (absent for [None]) and [has_glyph], which returns the glyph number,
    0 when the font has none, and may raise. *)
Record Font : Type := mkFont {
  descender : option Q;
  has_glyph : nat -> attempt Z
}.

(** [x or d] on an optional string. *)
Definition or_else (x : option string) (d : string) : string :=
  match x with
  | Some s => if Py.truthy s then s else d
  | None => d
  end.

Definition given (x : option string) : bool :=
  match x with
  | Some s => Py.truthy s
  | None => false
  end.

(** The dictionary of font objects, keyed by [(fontfile, fontname)]. *)
Abbreviation FontCache := (gmap (string * string) Font).

Section Fitz.

(** [fitz.Font(fontfile=...)] and [fitz.Font(fontname=...)]. *)
Variable Font_of_file : string -> attempt Font.
Variable Font_of_name : string -> attempt Font.

Definition _baseline_point (rect : Rect) (fontsize : Q) (fontname : string)
    (fontfile : option string) : Point :=
  match (if given fontfile then Font_of_file (or_else fontfile "")
         else Font_of_name fontname) with
  | Returned f =>
      let desc := default (- (2 # 10)) (descender f) in
      let y := y1 rect + desc * fontsize in
      let y := if Float.ltb y (y0 rect) then y0 rect + fontsize else y in
      let y := if Float.ltb (y1 rect) y then y1 rect - 1 else y in
      mkPoint (x0 rect) y
  | Raised =>
      let baseline_pad := Float.max 1 (fontsize * (18 # 100)) in
      mkPoint (x0 rect) (y1 rect - baseline_pad)
  end.

(** [_get_font_obj] returns the font and the cache as it leaves it. *)
Definition _get_font_obj (fontname : string) (fontfile : option string)
    (cache : FontCache) : attempt Font * FontCache :=
  let key := (or_else fontfile "",
              or_else (Some (Py.strip fontname)) "helv") in
  match cache !! key with
  | Some got => (Returned got, cache)
  | None =>
      match (if given fontfile then Font_of_file (or_else fontfile "")
             else Font_of_name (snd key)) with
      | Returned f => (Returned f, <[ key := f ]> cache)
      | Raised => (Raised, cache)
      end
  end.

(** [cache = font_cache if font_cache is not None else {}] *)
Definition cache_of (font_cache : option FontCache) : FontCache :=
  default ∅ font_cache.

(** The caller's dictionary after the call: a fresh [{}] is dropped. *)
Definition kept (font_cache : option FontCache) (cache : FontCache)
  : option FontCache :=
  match font_cache with
  | Some _ => Some cache
  | None => None
  end.

(** The loop over the characters of [text] in [_font_supports_text]. *)
Fixpoint supports_loop (text : list ascii) (fontname : string)
    (fontfile : option string) (font_cache : option FontCache)
  : attempt bool * option FontCache :=
  match text with
  | [] => (Returned true, font_cache)
  | ch :: rest =>
      if Py.isspace ch then supports_loop rest fontname fontfile font_cache
      else
        let cp := Py.code ch in
        match _get_font_obj (or_else (Some fontname) "helv") fontfile
                (cache_of font_cache) with
        | (Raised, cache) => (Returned false, kept font_cache cache)
        | (Returned f, cache) =>
            match has_glyph f cp with
            | Raised => (Returned false, kept font_cache cache)
            | Returned has =>
                if (has =? 0)%Z then (Returned false, kept font_cache cache)
                else supports_loop rest fontname fontfile
                       (kept font_cache cache)
            end
        end
  end.

Definition _font_supports_text (text : string) (fontsize : Q)
    (fontname : string) (fontfile : option string)
    (font_cache : option FontCache) : attempt bool * option FontCache :=
  if negb (Py.truthy text) then (Returned true, font_cache)
  else if negb (given fontfile) then (Returned true, font_cache)
  else supports_loop (Py.chars text) fontname fontfile font_cache.

End Fitz.

End Fonts.

(** ** Reference notions for glyph coverage *)

Module GlyphSpec.

Import Fonts.

(** [ch] maps to a glyph of the font program [program], the outcome of
    loading the font file with [fitz.Font(fontfile=...)]: the program
    loads, and it answers the query for the code point of [ch] with a glyph
    number other than 0. *)
Definition maps_to_glyph (program : attempt Font) (ch : ascii) : Prop :=
  exists f g,
    program = Returned f
    /\ has_glyph f (Py.code ch) = Returned g /\ g <> 0%Z.

(** Every character of [text] that is not white space maps to a glyph. *)
Definition covered (program : attempt Font) (text : string) : Prop :=
  forall ch, ch ∈ Py.chars text -> Py.isspace ch = false ->
             maps_to_glyph program ch.

(** A cache that holds, for a font file, nothing but the font program of
    that file: the caches of a pass are of this kind, since
    [_get_font_obj] alone fills them. *)
Definition faithful (Font_of_file : string -> attempt Font)
    (cache : FontCache) : Prop :=
  forall path name f,
    cache !! (path, name) = Some f -> path <> ""%string ->
    Font_of_file path = Returned f.

End GlyphSpec.

(** ** Case of the replacement *)

Module Case.

(** [next((ch for ch in w if ch.isalpha()), "")] *)
Fixpoint first_alpha (w : list ascii) : option ascii :=
  match w with
  | [] => None
  | ch :: rest => if Py.isalpha ch then Some ch else first_alpha rest
  end.

(** [w.index(first)] *)
Fixpoint index (first : ascii) (w : list ascii) : nat :=
  match w with
  | [] => 0
  | ch :: rest => if Ascii.eqb ch first then 0 else S (index first rest)
  end.

Definition is_title_word (w : string) : bool :=
  let w_letters := List.filter Py.isalpha (Py.chars w) in
  match w_letters with
  | [] => true
  | _ =>
      match first_alpha (Py.chars w) with
      | None => true
      | Some first =>
          Py.isupper first
          && forallb (fun ch => negb (Py.isalpha ch) || Py.islower ch)
               (drop (index first (Py.chars w) + 1) (Py.chars w))
      end
  end.

(** [[w for w in re.split(r"\s+", o) if w]]: the maximal runs of
    characters that are not white space; [word] is the run being read, in
    reverse. *)
Fixpoint words_from (word : list ascii) (o : list ascii) : list string :=
  match o with
  | [] => match word with [] => [] | _ => [Py.str (List.rev word)] end
  | ch :: rest =>
      if Py.isspace ch
      then match word with
           | [] => words_from [] rest
           | _ => Py.str (List.rev word) :: words_from [] rest
           end
      else words_from (ch :: word) rest
  end.

Definition words (o : string) : list string := words_from [] (Py.chars o).

Definition _match_replacement_case (original replacement : string) : string :=
  if negb (Py.truthy replacement) then replacement
  else
    let o := Py.strip original in
    if negb (Py.truthy o) then replacement
    else
      let letters := List.filter Py.isalpha (Py.chars o) in
      match letters with
      | [] => replacement
      | _ =>
          if forallb Py.isupper letters then Py.upper replacement
          else if forallb Py.islower letters then Py.lower replacement
          else
            let words := words o in
            match words with
            | [] => replacement
            | _ =>
                if forallb is_title_word words then Py.title replacement
                else replacement
            end
      end.

End Case.

(** ** Font resolution *)

Module Resolver.

Import Fonts.
Local Open Scope string_scope.

(** What the resolution reads of the process and the file system. *)
Record Env : Type := mkEnv {
  os_name_nt : bool;                        (* os.name == "nt" *)
  WINDIR : option string;                   (* os.environ.get("WINDIR") *)
  custom_dirs : list (string * string);     (* _custom_fonts_dirs_with_source() *)
  isfile : string -> bool;                  (* os.path.isfile *)
  listdir : string -> attempt (list string) (* os.listdir *)
}.

Definition sep (env : Env) : string := if os_name_nt env then "\" else "/".

(** [os.path.isabs] without drive letters. *)
Definition isabs (env : Env) (p : string) : bool :=
  Py.startswith "/" p || (os_name_nt env && Py.startswith "\" p).

(** [os.path.join] of two components, without drive letters. *)
Definition join (env : Env) (a b : string) : string :=
  if isabs env b then b
  else if negb (Py.truthy a) || Py.endswith (sep env) a
          || (os_name_nt env && Py.endswith "/" a)
       then a ++ b
       else a ++ sep env ++ b.

Definition _infer_bold_italic (fontname : string) : bool * bool :=
  let name := Py.lower fontname in
  let is_bold := Py.any_in ["bold"; "black"; "heavy"; "semibold"; "demibold"] name in
  let is_italic := Py.any_in ["italic"; "oblique"; "slanted"] name in
  let is_bold :=
    if negb is_bold && Py.any_in ["cmbx"; "cmssbx"; "cmssb"; "cmb"] name
    then true else is_bold in
  let is_italic :=
    if negb is_italic && Py.any_in ["cmti"; "cmsl"] name
    then true else is_italic in
  (is_bold, is_italic).

(** The inner [pick] of [_map_font_to_base14], with the two flags it reads
    from the enclosing call. *)
Definition pick (is_bold is_italic : bool) (family : string) : string :=
  if String.eqb family "times" then
    if is_bold && is_italic then "Times-BoldItalic"
    else if is_bold then "Times-Bold"
    else if is_italic then "Times-Italic"
    else "Times-Roman"
  else if String.eqb family "helv" then
    if is_bold && is_italic then "Helvetica-BoldOblique"
    else if is_bold then "Helvetica-Bold"
    else if is_italic then "Helvetica-Oblique"
    else "Helvetica"
  else if String.eqb family "cour" then
    if is_bold && is_italic then "Courier-BoldOblique"
    else if is_bold then "Courier-Bold"
    else if is_italic then "Courier-Oblique"
    else "Courier"
  else "Helvetica".

Definition _map_font_to_base14 (fontname : string) : option string :=
  if negb (Py.truthy fontname) then None
  else
    let name := Py.lower fontname in
    let '(is_bold, is_italic) := _infer_bold_italic name in
    if Py.any_in ["cmr"; "cmbx"; "cmti"; "cmsl"; "cmu"] name then
      let is_bold := if Py.contains "cmbx" name then true else is_bold in
      let is_italic :=
        if Py.any_in ["cmti"; "cmsl"] name then true else is_italic in
      Some (pick is_bold is_italic "times")
    else if Py.contains "cmss" name then
      let is_bold :=
        if Py.any_in ["cmssbx"; "cmssb"] name then true else is_bold in
      Some (pick is_bold is_italic "helv")
    else if Py.contains "cmtt" name then Some (pick is_bold is_italic "cour")
    else if Py.contains "times" name || Py.contains "timenewroman" name
            || Py.contains "timesnewroman" name
         then Some (pick is_bold is_italic "times")
    else if Py.contains "courier" name || Py.contains "consolas" name
            || Py.contains "monospace" name
         then Some (pick is_bold is_italic "cour")
    else if Py.any_in ["helvetica"; "arial"; "calibri"; "verdana"; "tahoma"; "sans"] name
         then Some (pick is_bold is_italic "helv")
    else None.

Definition _normalize_fontname (fontname : string) : string :=
  let name := Py.strip fontname in
  let name :=
    match name with
    | String "/" rest => rest
    | _ => name
    end in
  let name :=
    match Py.split_first "+" name with
    | Some (_, after) => after
    | None => name
    end in
  Py.lower (Py.strip name).

Definition _windows_font_path (env : Env) (filename : string) : option string :=
  let win_dir := or_else (WINDIR env) "C:\Windows" in
  let path := join env (join env win_dir "Fonts") filename in
  if isfile env path then Some path else None.

Fixpoint _first_existing (env : Env) (paths : list string) : option string :=
  match paths with
  | [] => None
  | p :: rest =>
      if Py.truthy p && isfile env p then Some p else _first_existing env rest
  end.

(** A table keyed by [(bold, italic)]. *)
Definition by_style {A : Type} (ff tf ft tt : A) (bold italic : bool) : A :=
  match bold, italic with
  | false, false => ff
  | true, false => tf
  | false, true => ft
  | true, true => tt
  end.

Definition _try_computer_modern_fontfile (env : Env) (bold italic : bool)
  : option string :=
  let candidates :=
    by_style
      ["cmunrm.ttf"; "cmunr.ttf"; "lmroman10-regular.otf"; "lmroman10-regular.ttf"]
      ["cmunbx.ttf"; "cmunb.ttf"; "lmroman10-bold.otf"; "lmroman10-bold.ttf"]
      ["cmunit.ttf"; "cmunri.ttf"; "lmroman10-italic.otf"; "lmroman10-italic.ttf"]
      ["cmunbi.ttf"; "cmunbxo.ttf"; "lmroman10-bolditalic.otf";
       "lmroman10-bolditalic.ttf"]
      bold italic in
  let search_dirs :=
    (List.map fst (custom_dirs env)
     ++ ["/usr/share/texmf/fonts/opentype/public/lm";
         "/usr/share/texmf/fonts/truetype/public/cm-unicode";
         "/usr/share/fonts/opentype/latin-modern";
         "/usr/share/fonts/truetype/cmu"])%list in
  let search_dirs :=
    if given (WINDIR env)
    then (search_dirs ++ [join env (or_else (WINDIR env) "") "Fonts"])%list
    else search_dirs in
  let paths :=
    List.concat
      (List.map (fun d => List.map (fun fname => join env d fname) candidates)
         search_dirs) in
  let paths := (paths ++ List.filter (isabs env) candidates)%list in
  _first_existing env paths.

(** [bool(x) if x is not None else inferred] *)
Definition flag (x : option bool) (inferred : bool) : bool := default inferred x.

Definition linux_table (family : string) (bold italic : bool) : list string :=
  let dejavu := "/usr/share/fonts/truetype/dejavu/" in
  let lib2 := "/usr/share/fonts/truetype/liberation2/" in
  let lib := "/usr/share/fonts/truetype/liberation/" in
  let rows (d l : string) : list string :=
    [dejavu ++ d; lib2 ++ l; lib ++ l] in
  if String.eqb family "serif" then
    by_style
      (rows "DejaVuSerif.ttf" "LiberationSerif-Regular.ttf")
      (rows "DejaVuSerif-Bold.ttf" "LiberationSerif-Bold.ttf")
      (rows "DejaVuSerif-Italic.ttf" "LiberationSerif-Italic.ttf")
      (rows "DejaVuSerif-BoldItalic.ttf" "LiberationSerif-BoldItalic.ttf")
      bold italic
  else if String.eqb family "mono" then
    by_style
      (rows "DejaVuSansMono.ttf" "LiberationMono-Regular.ttf")
      (rows "DejaVuSansMono-Bold.ttf" "LiberationMono-Bold.ttf")
      (rows "DejaVuSansMono-Oblique.ttf" "LiberationMono-Italic.ttf")
      (rows "DejaVuSansMono-BoldOblique.ttf" "LiberationMono-BoldItalic.ttf")
      bold italic
  else
    by_style
      (rows "DejaVuSans.ttf" "LiberationSans-Regular.ttf")
      (rows "DejaVuSans-Bold.ttf" "LiberationSans-Bold.ttf")
      (rows "DejaVuSans-Oblique.ttf" "LiberationSans-Italic.ttf")
      (rows "DejaVuSans-BoldOblique.ttf" "LiberationSans-BoldItalic.ttf")
      bold italic.

Definition windows_family (env : Env) (regular bold_ italic_ both : string)
    (is_bold is_italic : bool) : option string :=
  if is_bold && is_italic then _windows_font_path env both
  else if is_bold then _windows_font_path env bold_
  else if is_italic then _windows_font_path env italic_
  else _windows_font_path env regular.

Definition _try_system_fontfile_native (env : Env) (fontname : string)
    (bold italic : option bool) : option string :=
  let raw := Py.lower fontname in
  let norm := _normalize_fontname fontname in
  if negb (Py.truthy norm) then None
  else
    let '(inferred_bold, inferred_italic) := _infer_bold_italic raw in
    let is_bold := flag bold inferred_bold in
    let is_italic := flag italic inferred_italic in
    let cm :=
      if Py.any_in ["cmr"; "cmbx"; "cmti"; "cmsl"; "cmu"] norm
      then _try_computer_modern_fontfile env is_bold is_italic
      else None in
    if given cm then cm
    else if os_name_nt env then
      if Py.any_in ["times"; "newroman"; "timesnewroman"] norm then
        windows_family env "times.ttf" "timesbd.ttf" "timesi.ttf" "timesbi.ttf"
          is_bold is_italic
      else if Py.any_in ["arial"; "helvetica"] norm then
        windows_family env "arial.ttf" "arialbd.ttf" "ariali.ttf" "arialbi.ttf"
          is_bold is_italic
      else if Py.contains "calibri" norm then
        windows_family env "calibri.ttf" "calibrib.ttf" "calibrii.ttf"
          "calibriz.ttf" is_bold is_italic
      else None
    else
      let fam :=
        if Py.any_in ["courier"; "mono"; "monospace"; "cmtt"] norm then "mono"
        else if Py.any_in ["times"; "serif"; "roman"; "georgia"; "garamond";
                           "cambria"; "palatino"; "constantia"; "cmr"; "cmbx";
                           "cmti"; "cmsl"; "cmu"] norm
             then "serif"
             else "sans" in
      _first_existing env (linux_table fam is_bold is_italic).

Definition _score_font_filename (filename family_key : string)
    (bold italic : bool) : Z :=
  let f := Py.lower filename in
  let score := 0%Z in
  let score :=
    if Py.truthy family_key && Py.contains family_key f
    then (score + 10)%Z else score in
  let is_bold_name :=
    Py.any_in ["bold"; "bd"; "black"; "heavy"; "semibold"; "demibold"] f in
  let is_italic_name := Py.any_in ["italic"; "oblique"; "slanted"] f in
  let is_regular_name := Py.any_in ["regular"; "book"; "roman"; "medium"] f in
  let score :=
    if bold then (score + (if is_bold_name then 4 else -1))%Z
    else
      let score :=
        (score + (if is_regular_name && negb is_bold_name then 1 else 0))%Z in
      (score - (if is_bold_name then 2 else 0))%Z in
  let score :=
    if italic then (score + (if is_italic_name then 4 else -1))%Z
    else (score - (if is_italic_name then 2 else 0))%Z in
  if Py.endswith ".ttf" f || Py.endswith ".otf" f then (score + 1)%Z else score.

Definition _family_key_from_norm (norm : string) : option string :=
  let n := Py.lower norm in
  if negb (Py.truthy n) then None
  else if Py.any_in ["timesnewroman"; "timenewroman"; "times"] n then Some "times"
  else if Py.any_in ["arial"; "helvetica"] n then Some "arial"
  else if Py.contains "calibri" n then Some "calibri"
  else if Py.contains "cambria" n then Some "cambria"
  else if Py.contains "georgia" n then Some "georgia"
  else if Py.contains "garamond" n then Some "garamond"
  else if Py.contains "palatino" n then Some "palatino"
  else if Py.contains "constantia" n then Some "constantia"
  else if Py.any_in ["dejavu-serif"; "dejavuserif"] n then Some "dejavuserif"
  else if Py.any_in ["dejavu-sans"; "dejavusans"] n then Some "dejavusans"
  else if Py.contains "dejavu" n then Some "dejavu"
  else if Py.any_in ["liberation-serif"; "liberationserif"] n
       then Some "liberationserif"
  else if Py.any_in ["liberation-sans"; "liberationsans"] n
       then Some "liberationsans"
  else if Py.contains "liberation" n then Some "liberation"
  else if Py.contains "noto" n then Some "noto"
  else if Py.contains "courier" n then Some "courier"
  else if Py.any_in ["courier"; "consolas"; "monospace"; "mono"] n then Some "mono"
  else None.

(** [any(got.startswith(d + os.sep) for d, s in dirs if s == label)] *)
Definition under_dir_of (env : Env) (label got : string) : bool :=
  existsb
    (fun '(d, s) => String.eqb s label && Py.startswith (d ++ sep env) got)
    (custom_dirs env).

(** The best candidate so far: its score, path and source label. *)
Definition Best : Type := (Z * option string * string)%type.

(** The loop over [os.listdir(d)] for one directory. *)
Definition scan_names (env : Env) (family_key : string) (bold italic : bool)
    (d src : string) (names : list string) (best : Best) : Best :=
  fold_left
    (fun '(best_score, best_path, best_src) fname =>
       if negb (Py.endswith ".ttf" (Py.lower fname)
                || Py.endswith ".otf" (Py.lower fname))
       then (best_score, best_path, best_src)
       else
         let s := _score_font_filename fname family_key bold italic in
         if (s <=? best_score)%Z then (best_score, best_path, best_src)
         else
           let candidate := join env d fname in
           if isfile env candidate then (s, Some candidate, src)
           else (best_score, best_path, best_src))
    names best.

Definition scan_dirs (env : Env) (family_key : string) (bold italic : bool)
    (dirs : list (string * string)) (best : Best) : Best :=
  fold_left
    (fun best '(d, src) =>
       match listdir env d with
       | Returned names => scan_names env family_key bold italic d src names best
       | Raised => best
       end)
    dirs best.

Definition _try_custom_fontfile_with_source (env : Env) (fontname : string)
    (bold italic : bool) : option string * string :=
  let norm := _normalize_fontname fontname in
  if negb (Py.truthy norm) then (None, "")
  else if Py.any_in ["cmr"; "cmbx"; "cmti"; "cmsl"; "cmss"; "cmtt"; "cmu"] norm then
    let got := _try_computer_modern_fontfile env bold italic in
    (got,
     if given got && under_dir_of env "uploaded" (or_else got "") then "uploaded"
     else if given got && under_dir_of env "bundled" (or_else got "") then "bundled"
     else if given got && under_dir_of env "custom" (or_else got "") then "custom"
     else "")
  else
    let family_key := _family_key_from_norm norm in
    let too_short := negb (given family_key) && (Py.len norm <? 3)%Z in
    let family_key := or_else family_key norm in
    if too_short then (None, "")
    else
      let '(_, best_path, best_src) :=
        scan_dirs env family_key bold italic (custom_dirs env) (0%Z, None, "") in
      (best_path, best_src).

Definition _try_system_fontfile_with_source (env : Env) (fontname : string)
    (bold italic : option bool) : option string * string :=
  let raw := Py.lower fontname in
  let '(inferred_bold, inferred_italic) := _infer_bold_italic raw in
  let is_bold := flag bold inferred_bold in
  let is_italic := flag italic inferred_italic in
  let '(custom, custom_src) :=
    _try_custom_fontfile_with_source env fontname is_bold is_italic in
  if given custom then (custom, or_else (Some custom_src) "custom")
  else (_try_system_fontfile_native env fontname bold italic, "system").

Section BuiltinFallback.

(** [_insert_text_fit] for the match at hand, as far as the fallback
    reads it: whether the insertion with this font name and font file
    raises. *)
Variable _insert_text_fit : string -> option string -> attempt unit.





End BuiltinFallback.

End Resolver.

(** ** Reference notions for the page operations *)

Module PageSpec.


(** The entries of an order string: its comma-separated fields, stripped,
    without the empty ones. *)
Definition order_entries (order : string) : list string :=
  Pages.comma_parts (Py.strip order).

(** [idx] is the 0-based index that the entry [part] names. *)
Definition names_index (part : string) (idx : Z) : Prop :=
  exists v, Py.int part = Some v /\ idx = (v - 1)%Z.

(** The pages of [doc], numbered from [i] on, without those whose number
    is in [X]. *)
Fixpoint kept_pages {Page : Type} (X : gset Z) (i : Z) (doc : list Page)
  : list Page :=
  match doc with
  | [] => []
  | p :: rest =>
      if bool_decide (i ∈ X) then kept_pages X (i + 1)%Z rest
      else p :: kept_pages X (i + 1)%Z rest
  end.

End PageSpec.

(** ** Reference notions for the case of the replacement *)

Module CaseSpec.

(** The letters of a string, in order. *)
Definition letters (s : string) : list ascii :=
  List.filter Py.isalpha (Py.chars s).

(** A word is title-cased when its first letter is upper case and its other
    letters are lower case; a word without letters counts as title-cased. *)
Definition title_cased (w : string) : bool :=
  match letters w with
  | [] => true
  | first :: others => Py.isupper first && forallb Py.islower others
  end.

(** The words of the original: the runs between white space. *)
Definition words_of (original : string) : list string :=
  Case.words (Py.strip original).

(** The rule as the specification words it: upper case when every letter of
    the original is upper case, lower case when every letter is lower case,
    title case when every word is title-cased, unchanged otherwise. *)
Definition stated_rule (original replacement : string) : string :=
  if forallb Py.isupper (letters original) then Py.upper replacement
  else if forallb Py.islower (letters original) then Py.lower replacement
  else if forallb title_cased (words_of original) then Py.title replacement
  else replacement.

(** The same rule, applied only to an original that has a letter. *)
Definition guarded_rule (original replacement : string) : string :=
  match letters original with
  | [] => replacement
  | _ => stated_rule original replacement
  end.

End CaseSpec.

(** ** Sample fonts *)

Module Sample.

Import Fonts.

(** A font with the single glyph of the letter [a] and a descender of a
    quarter of the size. *)
Definition font_a : Font :=
  mkFont (Some (- (1 # 4))%Q)
         (fun cp => if (cp =? 97)%nat then Returned 5%Z else Returned 0%Z).

(** Every file holds [font_a]; no builtin name is known. *)
Definition Font_of_file (path : string) : attempt Font := Returned font_a.
Definition Font_of_name (name : string) : attempt Font := Raised.

End Sample.

(** ** Reference notions for the tracking decision *)

Module TrackingSpec.

Import Geometry.
Local Open Scope Q_scope.

(** The decision as the specification words it, on the rectangle width
    minus one and the texts as given. *)
Definition stated_rule (rect : Rect) (original_text replacement_text : string)
    (measured_replacement measured_original fontsize : Q) : Prop :=
  12 <= fontsize
  /\ (2 < Py.len replacement_text)%Z
  /\ 120 # 100 <= (width rect - 1) / measured_replacement
  /\ 110 # 100 <= (width rect - 1) / measured_original
  /\ Py.any_space original_text = Py.any_space replacement_text
  /\ 65 # 100 <= Float.of_int (Py.len replacement_text)
                 / Float.of_int (Py.len original_text)
  /\ Float.of_int (Py.len replacement_text)
     / Float.of_int (Py.len original_text) <= 135 # 100.

(** The width that is filled: the rectangle width minus one, but at least
    one. *)
Definition fill_width (rect : Rect) : Q := Float.max 1 (width rect - 1).

(** The decision on the floored width, positive measured widths and the
    stripped texts. *)
Definition floored_rule (rect : Rect) (original_text replacement_text : string)
    (measured_replacement measured_original fontsize : Q) : Prop :=
  let orig := Py.strip original_text in
  let repl := Py.strip replacement_text in
  let ratio := Float.of_int (Py.len repl) / Float.of_int (Z.max 1 (Py.len orig)) in
  12 <= fontsize
  /\ (2 < Py.len replacement_text)%Z
  /\ 0 < measured_replacement
  /\ 120 # 100 <= fill_width rect / measured_replacement
  /\ orig <> ""%string
  /\ Py.any_space orig = Py.any_space repl
  /\ 0 < measured_original
  /\ 110 # 100 <= fill_width rect / measured_original
  /\ 65 # 100 <= ratio /\ ratio <= 135 # 100.

End TrackingSpec.

(** ** Reference notions for the baseline *)

Module BaselineSpec.

Import Geometry Fonts.
Local Open Scope Q_scope.




End BaselineSpec.

(** ** Reference notions for the region merger *)

Module MergerSpec.

Import Geometry Merger.
Local Open Scope Q_scope.

(** The regions before padding: the source's [merged]. *)
Definition merged_regions (rects : list Rect) : list Rect :=
  merge_sorted (sort_by_key (List.filter truthy rects)).

(** [a] starts no lower than [b]. *)
Definition le_y0 (a b : Rect) : Prop := y0 a <= y0 b.

Definition smaller_height (a b : Rect) : Q := Float.min (height a) (height b).

(** Two rectangles on the same visual line, as the specification words it,
    on the smaller height itself. *)
Definition stated_same_line (a b : Rect) : Prop :=
  intersects a b = true
  \/ 3 # 10 <= v_overlap a b / smaller_height a b
  \/ Float.abs (center a - center b) < smaller_height a b * (8 # 10).

(** Two rectangles on different lines, as the specification words it. *)
Definition stated_other_line (a b : Rect) : Prop :=
  v_overlap a b == 0
  /\ smaller_height a b * (8 # 10) < Float.abs (center a - center b).

(** The same-line test on the smaller height floored at one. *)
Definition floored_same_line (a b : Rect) : Prop :=
  3 # 10 <= v_overlap a b / min_h a b
  \/ Float.abs (center a - center b) < min_h a b * (8 # 10).

(** The pair in the order of the sort key. *)
Definition first_of (r1 r2 : Rect) : Rect := if key_le r1 r2 then r1 else r2.
Definition second_of (r1 r2 : Rect) : Rect := if key_le r1 r2 then r2 else r1.

End MergerSpec.

(** ** A machine without font files *)

Module Bare.

Import Fonts Resolver.

(** A Linux host with an uploaded-fonts directory that cannot be listed and
    no file anywhere. *)
Definition env : Env :=
  mkEnv false None [("/tmp/pdf_editor_fonts_x/uploaded_fonts", "uploaded")]%string
        (fun _ => false) (fun _ => Raised).


End Bare.

(** ** Merging, and the pages a replacement pass visits *)

(** The [PdfOpError] messages of [merge_pdfs] and of the checks that open
    [_find_replace_core]. *)
Inductive Refusal : Type :=
  | AtLeastOnePdf                   (* "At least one PDF is required" *)
  | FindTextRequired                (* "findText is required" *)
  | BadScope                        (* "scope must be 'all' or 'range'" *)
  | RangeBoundsRequired             (* "fromPage and toPage are required when scope='range'" *)
  | FromPageOutOfRange (page_count : Z)
  | ToPageOutOfRange (page_count : Z)
  | ToPageBeforeFromPage.           (* "toPage must be >= fromPage" *)

Inductive checked (A : Type) : Type :=
  | Passed (a : A)
  | Refused (why : Refusal).
Arguments Passed {A} a.
Arguments Refused {A} why.

Module Passes.

Import Pages.

(** [out.insert_pdf(src)]: with the default range every page of [src] is
    appended. *)
Definition insert_pdf_all {Page : Type} (out src : list Page) : list Page :=
  insert_pdf out src 0 (page_count src - 1).

Definition merge_pdfs {Page : Type} (pdf_bytes_list : list (list Page))
  : saved Refusal (list Page) :=
  match pdf_bytes_list with
  | [] => Invalid AtLeastOnePdf
  | _ => tobytes (fold_left insert_pdf_all pdf_bytes_list [])
  end.

(** The checks at the head of [_find_replace_core] and the [page_indices]
    they lead to. *)
Definition page_indices (find_text scope : string) (from_page to_page : option Z)
    (page_count : Z) : checked (list Z) :=
  if negb (Py.truthy find_text) then Refused FindTextRequired
  else if negb (String.eqb scope "all" || String.eqb scope "range")
       then Refused BadScope
  else if String.eqb scope "range" then
    match from_page, to_page with
    | Some from_page, Some to_page =>
        if (from_page <? 1)%Z || (page_count <? from_page)%Z
        then Refused (FromPageOutOfRange page_count)
        else if (to_page <? 1)%Z || (page_count <? to_page)%Z
             then Refused (ToPageOutOfRange page_count)
        else if (to_page <? from_page)%Z then Refused ToPageBeforeFromPage
        else Passed (seqZ (from_page - 1) (to_page - (from_page - 1)))
    | _, _ => Refused RangeBoundsRequired
    end
  else Passed (seqZ 0 page_count).

End Passes.

(** ** Reference notions for page ranges *)

Module RangeSpec.

(** The entry [part] names the pages [first..last], counted from one. *)
Definition denotes (part : string) (first last : Z) : Prop :=
  match Py.split_first "-" part with
  | Some (start_s, end_s) =>
      Py.int (Py.strip start_s) = Some first
      /\ Py.int (Py.strip end_s) = Some last
  | None => Py.int part = Some first /\ last = first
  end.

(** The entries of a page-range string. *)
Definition entries (pages : string) : list string :=
  Pages.comma_parts (Py.strip pages).

(** Every entry names a range that lies within [1..page_count]. *)
Definition well_formed (pages : string) (page_count : Z) : Prop :=
  (0 < page_count)%Z
  /\ Py.strip pages <> ""%string
  /\ forall part, part ∈ entries pages ->
       exists first last,
         denotes part first last /\ (1 <= first <= last)%Z
         /\ (last <= page_count)%Z.

End RangeSpec.

(** ** Sizes, colours and the preview scale *)

Module Metrics.

Import Geometry.
Local Open Scope Q_scope.

Definition _estimate_font_size (rect : Rect) : Q :=
  let h := Float.max 1 (height rect) in
  Float.max 6 (Float.min 48 (h * (78 # 100))).

(** A span colour [0xRRGGBB] as three channels between 0 and 1. *)
Definition _int_to_rgb01 (color : Z) : Q * Q * Q :=
  let r := Z.land (Z.shiftr color 16) 255 in
  let g := Z.land (Z.shiftr color 8) 255 in
  let b := Z.land color 255 in
  (Float.of_int r / 255, Float.of_int g / 255, Float.of_int b / 255).

(** A binary64 value as a request can carry it: a number, an infinity or
    NaN. *)
Inductive float64 : Type :=
  | Num (q : Q)
  | Inf (positive : bool)
  | NaN.

(** [a < b] on such values: false as soon as one side is NaN. *)
Definition lt (a b : float64) : bool :=
  match a, b with
  | NaN, _ | _, NaN => false
  | Num x, Num y => Float.ltb x y
  | Num _, Inf positive => positive
  | Inf positive, Num _ => negb positive
  | Inf p, Inf q => negb p && q
  end.


End Metrics.

(** ** Measuring and inserting text *)

Module Insertion.

Import Geometry Fonts.
Local Open Scope Q_scope.

(** A colour as [(r, g, b)]. *)
Definition Color : Type := (Q * Q * Q)%type.

(** The distance added after each character when a text is spread over
    [max_width]: the free width shared among the gaps, never negative and
    capped at 2.5 times the font size. *)
Definition spacing (max_width total : Q) (n_chars : Z) (fontsize : Q) : Q :=
  let gaps := Z.max 1 (n_chars - 1) in
  let extra :=
    if Float.ltb total max_width
    then (max_width - total) / Float.of_int gaps
    else 0 in
  Float.max 0 (Float.min extra (fontsize * (25 # 10))).

(** [total += w] over the measured widths. *)
Definition total_width (widths : list Q) : Q := fold_left Qplus widths 0.

(** The points at which the characters are inserted: [x] advances by the
    width of the character and the spacing ([x += float(w) + extra]). *)
Fixpoint placements (x y : Q) (chars : list ascii) (widths : list Q)
    (extra : Q) : list (Point * ascii) :=
  match chars, widths with
  | ch :: chars', w :: widths' =>
      (mkPoint x y, ch) :: placements (x + (w + extra)) y chars' widths' extra
  | _, _ => []
  end.

Section Page.

Variable Font_of_file : string -> attempt Font.
Variable Font_of_name : string -> attempt Font.

(** [f.text_length(text, fontsize=...)] and
    [fitz.get_text_length(text, fontname=..., fontsize=...)]. *)
Variable text_length : Font -> string -> Q -> attempt Q.
Variable get_text_length : string -> string -> Q -> attempt Q.

(** A page, and [page.insert_text(point, text, fontname=..., fontfile=...,
    fontsize=..., color=..., overlay=True)] on it. *)
Variable Page : Type.
Variable insert_text :
  Page -> Point -> string -> string -> option string -> Q -> Color -> attempt Page.

Definition _measure_text_width (text : string) (fontsize : Q) (fontname : string)
    (fontfile : option string) (font_cache : option FontCache)
  : attempt Q * option FontCache :=
  if given fontfile then
    match _get_font_obj Font_of_file Font_of_name fontname fontfile
            (cache_of font_cache) with
    | (Returned f, cache) =>
        match text_length f text fontsize with
        | Returned w => (Returned w, kept font_cache cache)
        | Raised => (get_text_length text "helv" fontsize, kept font_cache cache)
        end
    | (Raised, cache) =>
        (get_text_length text "helv" fontsize, kept font_cache cache)
    end
  else (get_text_length text (or_else (Some fontname) "helv") fontsize, font_cache).

(** The loop [for _ in range(4)] of [_insert_text_fit]. *)
Fixpoint shrink (turns : nat) (text : string) (size max_width : Q)
    (fontname : string) (fontfile : option string)
    (font_cache : option FontCache) : attempt Q * option FontCache :=
  match turns with
  | O => (Returned size, font_cache)
  | S turns' =>
      match _measure_text_width text size fontname fontfile font_cache with
      | (Raised, font_cache) => (Raised, font_cache)
      | (Returned w, font_cache) =>
          if Float.leb w max_width then (Returned size, font_cache)
          else
            let next_size := size * (97 # 100) in
            if Float.ltb next_size 4 then (Returned 4, font_cache)
            else shrink turns' text next_size max_width fontname fontfile
                   font_cache
      end
  end.

(** The size at which [_insert_text_fit] inserts. *)
Definition fitted_size (rect : Rect) (text : string) (fontname : string)
    (fontfile : option string) (fontsize : Q)
    (font_cache : option FontCache) : attempt Q * option FontCache :=
  let size := fontsize in
  let min_size := 4 in
  let max_width := Float.max 1 (width rect - 1) in
  match _measure_text_width text size fontname fontfile font_cache with
  | (Raised, font_cache) => (Raised, font_cache)
  | (Returned w0, font_cache) =>
      if Float.ltb max_width w0 && Float.ltb 0 w0 then
        let size := Float.max min_size (size * (max_width / w0)) in
        shrink 4 text size max_width fontname fontfile font_cache
      else (Returned size, font_cache)
  end.

Definition _insert_text_fit (page : Page) (rect : Rect) (text : string)
    (fontname : string) (fontfile : option string) (fontsize : Q)
    (color : Color) (font_cache : option FontCache)
  : attempt Page * option FontCache :=
  match fitted_size rect text fontname fontfile fontsize font_cache with
  | (Raised, font_cache) => (Raised, font_cache)
  | (Returned size, font_cache) =>
      let point := _baseline_point Font_of_file Font_of_name rect size
                     fontname fontfile in
      (insert_text page point text fontname fontfile size color, font_cache)
  end.

(** The loop that measures each character of [_insert_text_distributed]. *)
Fixpoint measure_chars (chars : list ascii) (fontsize : Q) (fontname : string)
    (fontfile : option string) (font_cache : option FontCache)
  : attempt (list Q) * option FontCache :=
  match chars with
  | [] => (Returned [], font_cache)
  | ch :: rest =>
      match _measure_text_width (String ch EmptyString) fontsize fontname
              fontfile font_cache with
      | (Raised, font_cache) => (Raised, font_cache)
      | (Returned w, font_cache) =>
          match measure_chars rest fontsize fontname fontfile font_cache with
          | (Raised, font_cache) => (Raised, font_cache)
          | (Returned widths, font_cache) => (Returned (w :: widths), font_cache)
          end
      end
  end.

(** The loop that inserts the characters one by one. *)
Fixpoint insert_placed (page : Page) (placed : list (Point * ascii))
    (fontname : string) (fontfile : option string) (fontsize : Q)
    (color : Color) : attempt Page :=
  match placed with
  | [] => Returned page
  | (point, ch) :: rest =>
      match insert_text page point (String ch EmptyString) fontname fontfile
              fontsize color with
      | Raised => Raised
      | Returned page => insert_placed page rest fontname fontfile fontsize color
      end
  end.

Definition _insert_text_distributed (page : Page) (rect : Rect) (text : string)
    (fontname : string) (fontfile : option string) (fontsize : Q)
    (color : Color) (font_cache : option FontCache)
  : attempt Page * option FontCache :=
  if negb (Py.truthy text) then (Returned page, font_cache)
  else
    let chars := Py.chars text in
    if (Z.of_nat (length chars) <=? 1)%Z
    then _insert_text_fit page rect text fontname fontfile fontsize color
           font_cache
    else
      match measure_chars chars fontsize fontname fontfile font_cache with
      | (Raised, font_cache) => (Raised, font_cache)
      | (Returned widths, font_cache) =>
          let total := total_width widths in
          let max_width := Float.max 1 (width rect - 1) in
          let point := _baseline_point Font_of_file Font_of_name rect fontsize
                         fontname fontfile in
          let extra :=
            spacing max_width total (Z.of_nat (length chars)) fontsize in
          (insert_placed page (placements (px point) (py point) chars widths extra)
             fontname fontfile fontsize color,
           font_cache)
      end.

End Page.

End Insertion.

(** ** A sample page *)

Module Sheet.

Import Geometry Fonts Insertion.
Local Open Scope Q_scope.

(** A page that records what is inserted: point, text and size, the latest
    first. *)
Definition Page : Type := list (Point * string * Q).

Definition insert_text (page : Page) (point : Point) (text fontname : string)
    (fontfile : option string) (fontsize : Q) (color : Color) : attempt Page :=
  Returned ((point, text, fontsize) :: page).

(** Every character is half as wide as the font size. *)
Definition text_length (f : Font) (text : string) (fontsize : Q) : attempt Q :=
  Returned (fontsize * Float.of_int (Py.len text) * (1 # 2)).

Definition get_text_length (text fontname : string) (fontsize : Q) : attempt Q :=
  Returned (fontsize * Float.of_int (Py.len text) * (1 # 2)).

(** The point, the text and the size of a recorded insertion. *)
Definition at_point (e : Point * string * Q) : Point := fst (fst e).
Definition text_of (e : Point * string * Q) : string := snd (fst e).
Definition size_of (e : Point * string * Q) : Q := snd e.

End Sheet.

(** ** Font directories and new characters *)

Module Dirs.

Import Fonts.
Local Open Scope string_scope.

(** The loop that drops empty and repeated directories, keeping the first
    label of each. *)
Fixpoint dedup (pairs : list (string * string)) (seen : gset string)
  : list (string * string) :=
  match pairs with
  | [] => []
  | (d, src) :: rest =>
      if Py.truthy d && negb (bool_decide (d ∈ seen))
      then (d, src) :: dedup rest ({[ d ]} ∪ seen)
      else dedup rest seen
  end.

(** The pairs before the loop: the uploaded directories of the request, the
    directory of [PDF_EDITOR_FONTS_DIR], the bundled directory. *)
Definition labelled (extra_font_dirs : list string)
    (PDF_EDITOR_FONTS_DIR bundled : option string) : list (string * string) :=
  let pairs :=
    List.map (fun d => (d, "uploaded")) (List.filter Py.truthy extra_font_dirs) in
  let env_dir := Py.strip (or_else PDF_EDITOR_FONTS_DIR "") in
  let pairs :=
    if Py.truthy env_dir then (pairs ++ [(env_dir, "custom")])%list else pairs in
  if given bundled then (pairs ++ [(or_else bundled "", "bundled")])%list
  else pairs.

(** [extra_font_dirs] is [_EXTRA_FONT_DIRS.get()], [bundled] is
    [_bundled_fonts_dir()]. *)
Definition _custom_fonts_dirs_with_source (extra_font_dirs : list string)
    (PDF_EDITOR_FONTS_DIR bundled : option string) : list (string * string) :=
  dedup (labelled extra_font_dirs PDF_EDITOR_FONTS_DIR bundled) ∅.

Definition _custom_fonts_dirs (extra_font_dirs : list string)
    (PDF_EDITOR_FONTS_DIR bundled : option string) : list string :=
  List.map fst
    (_custom_fonts_dirs_with_source extra_font_dirs PDF_EDITOR_FONTS_DIR bundled).

Definition _replacement_introduces_new_chars
    (original_text replacement_text : string) : bool :=
  let orig_chars : gset ascii := list_to_set (Py.chars original_text) in
  existsb (fun ch => negb (bool_decide (ch ∈ orig_chars)))
    (Py.chars replacement_text).

(** The twelve builtin faces that [_map_font_to_base14] chooses from. *)
Definition base14_faces : list string :=
  ["Times-Roman"; "Times-Bold"; "Times-Italic"; "Times-BoldItalic";
   "Helvetica"; "Helvetica-Bold"; "Helvetica-Oblique"; "Helvetica-BoldOblique";
   "Courier"; "Courier-Bold"; "Courier-Oblique"; "Courier-BoldOblique"].

End Dirs.

(** ** Reference notions for the scan of the custom directories *)

Module ResolverSpec.

Import Fonts Resolver.
Local Open Scope string_scope.

(** [p] is a font file of one of the directories [dirs], listed there under
    a name with a font extension, and [src] is the label of that
    directory. *)
Definition listed_font (env : Env) (dirs : list (string * string))
    (p src : string) (score : Z) (family_key : string) (bold italic : bool)
  : Prop :=
  exists d fname names,
    (d, src) ∈ dirs
    /\ listdir env d = Returned names /\ fname ∈ names
    /\ p = join env d fname
    /\ score = _score_font_filename fname family_key bold italic
    /\ (Py.endswith ".ttf" (Py.lower fname)
        || Py.endswith ".otf" (Py.lower fname)) = true.

(** What the scan holds as its best candidate: nothing, or an existing,
    listed font file with a positive score. *)
Definition sound_best (env : Env) (family_key : string) (bold italic : bool)
    (dirs : list (string * string)) (best : Best) : Prop :=
  let '(best_score, best_path, best_src) := best in
  (0 <= best_score)%Z
  /\ forall p, best_path = Some p ->
       isfile env p = true /\ (0 < best_score)%Z
       /\ listed_font env dirs p best_src best_score family_key bold italic.

(** The Computer Modern codes that send a name to the dedicated locator. *)
Definition computer_modern_name (fontname : string) : bool :=
  Py.any_in ["cmr"; "cmbx"; "cmti"; "cmsl"; "cmss"; "cmtt"; "cmu"]
    (_normalize_fontname fontname).

(** The family key that the scan looks for in the file names. *)
Definition scan_key (fontname : string) : string :=
  or_else (_family_key_from_norm (_normalize_fontname fontname))
    (_normalize_fontname fontname).

(** The names that reach the scan of the directories: not empty once
    normalised, no Computer Modern code, and a known family or at least
    three characters. *)
Definition scanned (fontname : string) : bool :=
  let norm := _normalize_fontname fontname in
  Py.truthy norm && negb (computer_modern_name fontname)
  && (given (_family_key_from_norm norm) || (3 <=? Py.len norm)%Z).

(** A file name with one of the two font extensions. *)
Definition font_extension (fname : string) : bool :=
  Py.endswith ".ttf" (Py.lower fname) || Py.endswith ".otf" (Py.lower fname).

(** The score and the path of a candidate. *)
Definition score_of (best : Best) : Z := fst (fst best).
Definition path_of (best : Best) : option string := snd (fst best).

(** A positive best score comes with a path. *)
Definition found_best (best : Best) : Prop :=
  (0 <= score_of best)%Z /\ ((0 < score_of best)%Z -> is_Some (path_of best)).

End ResolverSpec.

(** ** A host with bundled fonts *)

Module Host.

Import Fonts Resolver.
Local Open Scope string_scope.

(** A Linux host whose bundled directory lists two Roboto faces and a text
    file, with DejaVu Sans among the system fonts. *)
Definition files : list string :=
  ["/app/fonts/Roboto-Regular.ttf"; "/app/fonts/Roboto-Bold.ttf";
   "/app/fonts/notes.txt"; "/usr/share/fonts/truetype/dejavu/DejaVuSans.ttf"].

Definition env : Env :=
  mkEnv false None [("/app/fonts", "bundled")]
        (fun p => bool_decide (p ∈ files))
        (fun d =>
           if String.eqb d "/app/fonts"
           then Returned ["notes.txt"; "Roboto-Bold.ttf"; "Roboto-Regular.ttf"]
           else Raised).

End Host.

(** ** Uploaded fonts and the preview store *)

Module Uploads.

Import Fonts.
Local Open Scope string_scope.

(** An uploaded file as [api_find_replace] reads it: its [filename] and
    what [await f.read()] gives. *)
Record UploadFile : Type := mkUpload {
  filename : option string;
  read : attempt (list Byte.byte)
}.

Definition max_files : nat := 20.
Definition max_each : Z := 5 * 1024 * 1024.

(** [name.lower().endswith((".ttf", ".otf"))] *)
Definition font_name (name : string) : bool :=
  Py.endswith ".ttf" (Py.lower name) || Py.endswith ".otf" (Py.lower name).

(** One round of the loop over the uploads: the pair appended, if any. *)
Definition accepted (f : UploadFile) : option (string * list Byte.byte) :=
  let name := Py.strip (or_else (filename f) "") in
  if negb (font_name name) then None
  else
    match read f with
    | Returned data =>
        match data with
        | [] => None
        | _ =>
            if (max_each <? Z.of_nat (List.length data))%Z then None
            else Some (name, data)
        end
    | Raised => None
    end.

(** The list [extra_font_files] that [api_find_replace] hands over. *)
Definition extra_font_files (extraFonts : list UploadFile)
  : list (string * list Byte.byte) :=
  omap accepted (take max_files extraFonts).

(** The bytes held by a list of uploads. *)
Definition total_size (files : list (string * list Byte.byte)) : Z :=
  fold_right (fun '(_, data) acc => (Z.of_nat (List.length data) + acc)%Z) 0%Z files.

(** The characters that the substitution of [_find_replace_core] keeps:
    [A-Za-z0-9._-]. *)
Definition safe (c : ascii) : bool :=
  Py.isalpha c || Py.isdigit c
  || Ascii.eqb c "." || Ascii.eqb c "_" || Ascii.eqb c "-".

(** [re.sub(r"[^A-Za-z0-9._-]+", "_", s)]: every run of other characters
    becomes one underscore; [in_run] tells whether the previous character
    was replaced. *)
Fixpoint sub_unsafe (in_run : bool) (s : string) : string :=
  match s with
  | EmptyString => EmptyString
  | String c s' =>
      if safe c then String c (sub_unsafe false s')
      else if in_run then sub_unsafe true s'
           else String "_" (sub_unsafe true s')
  end.

(** [f"{i:02d}"] for the index of [enumerate]. *)
Definition two_digits (i : nat) : string :=
  let d := NilEmpty.string_of_uint (Nat.to_uint i) in
  if (String.length d <? 2)%nat then "0" ++ d else d.

(** [posixpath.basename]: what follows the last slash. *)
Definition posix_basename (p : string) : string :=
  List.last (Py.split "/" p) "".

Section Names.

(** [os.path.basename] *)
Variable basename : string -> string.

(** The file name under which upload [i] is written, if it is written. *)
Definition out_name (i : nat) (fname : string) (data : list Byte.byte)
  : option string :=
  match data with
  | [] => None
  | _ =>
      let base := basename (or_else (Some fname) "font") in
      let base := sub_unsafe false base in
      if negb (font_name base) then None
      else Some (two_digits i ++ "_" ++ base)
  end.

(** The names written for [enumerate(extra_fonts)], counting from [i]. *)
Fixpoint out_names (i : nat) (extra_fonts : list (string * list Byte.byte))
  : list string :=
  match extra_fonts with
  | [] => []
  | (fname, data) :: rest =>
      match out_name i fname data with
      | Some name => name :: out_names (S i) rest
      | None => out_names (S i) rest
      end
  end.

End Names.

End Uploads.

Module Previews.

(** [_preview_store]: id -> (created_ts, pdf_bytes, page_count). *)
Definition Entry : Type := (Q * list Byte.byte * Z)%type.

Definition _PREVIEW_TTL_SECONDS : Q := inject_Z (10 * 60).

Definition created (e : Entry) : Q := fst (fst e).

(** [now - ts > _PREVIEW_TTL_SECONDS] *)
Definition is_expired (now : Q) (e : Entry) : bool :=
  Float.ltb _PREVIEW_TTL_SECONDS (now - created e).

(** [now] is [time.time()]. *)
Definition _preview_gc (now : Q) (_preview_store : gmap string Entry)
  : gmap string Entry :=
  let expired :=
    List.map fst
      (List.filter (fun '(k, e) => is_expired now e) (map_to_list _preview_store)) in
  fold_left (fun store k => delete k store) expired _preview_store.

End Previews.

(** ** The font tiers of a match *)

Module Chain.

Import Fonts Resolver.
Local Open Scope string_scope.

Section Windows.

Variable env : Env.

(** [os.path.isdir] *)
Variable isdir : string -> bool.









(** The outcome of the [try] block of a tier that measures the text and
    inserts it fitted or distributed, by font name and font file, and of
    [_insert_text_fit] by font name and optional font file: whether it
    raises. *)
Variable tracked : string -> string -> attempt unit.
Variable _insert_text_fit : string -> option string -> attempt unit.



End Windows.

End Chain.

(** * Properties *)

(** ** Results *)

Lemma bind_Ok {A B : Type} (r : result A) (k : A -> result B) (b : B) :
  bind r k = Ok b -> exists a, r = Ok a /\ k a = Ok b.
Proof. destruct r as [a|e]; simpl; [eauto | discriminate]. Qed.

Lemma not_Ok_raises {A : Type} (r : result A) :
  (forall a, r <> Ok a) -> raises r.
Proof.
  destruct r as [a|e]; intros H; [destruct (H a); reflexivity | exists e; reflexivity].
Qed.

(** ** Page operations *)

Section PageFacts.

Import Pages PageSpec.
Local Open Scope Z_scope.

Context {Page : Type}.
Implicit Types (doc src out : list Page) (X seen : gset Z).

Lemma out_of_bounds_false idx n :
  out_of_bounds idx n = false <-> 0 <= idx < n.
Proof. unfold out_of_bounds. rewrite orb_false_iff. lia. Qed.






Lemma insert_pdf_one out src idx p :
  0 <= idx -> src !! Z.to_nat idx = Some p ->
  insert_pdf out src idx idx = out ++ [p].
Proof.
  intros Hidx Hp. unfold insert_pdf. f_equal.
  replace (Z.to_nat (idx + 1 - idx)) with 1%nat by lia.
  apply take_drop_middle in Hp as Hsplit.
  assert (Hlen : length (take (Z.to_nat idx) src) = Z.to_nat idx).
  { apply length_take_le. apply lookup_lt_Some in Hp. lia. }
  rewrite <- Hsplit at 1. rewrite drop_app_length'; [reflexivity | by rewrite Hlen].
Qed.

Lemma remove_loop_kept X src suf : forall i out,
  0 <= i -> drop (Z.to_nat i) src = suf ->
  fold_left
    (fun out idx =>
       if bool_decide (idx ∈ X) then out else insert_pdf out src idx idx)
    (seqZ i (Z.of_nat (length suf))) out
  = out ++ kept_pages X i suf.
Proof.
  induction suf as [|p suf IH]; intros i out Hi Hd.
  - simpl. by rewrite app_nil_r.
  - cbn [length]. rewrite Nat2Z.inj_succ, seqZ_cons, Z.pred_succ by lia.
    cbn [fold_left kept_pages]. rewrite Z.add_1_r.
    assert (Hp : src !! Z.to_nat i = Some p).
    { rewrite <- (Nat.add_0_r (Z.to_nat i)), <- lookup_drop, Hd. done. }
    assert (Hd' : drop (Z.to_nat (Z.succ i)) src = suf).
    { rewrite Z2Nat.inj_succ by lia. rewrite (drop_S _ _ _ Hp) in Hd. congruence. }
    destruct (bool_decide (i ∈ X)).
    + by apply IH; [lia |].
    + rewrite (insert_pdf_one _ _ _ p) by done.
      rewrite IH by (done || lia). by rewrite <- app_assoc.
Qed.




(** *** Reordering *)

Lemma order_loop_Ok n parts : forall res seen l,
  order_loop n res seen parts = Ok l ->
  exists tail,
    l = res ++ tail
    /\ Forall2 names_index parts tail
    /\ (forall idx, idx ∈ tail -> 0 <= idx < n /\ idx ∉ seen)
    /\ NoDup tail.
Proof.
  induction parts as [|part rest IH]; simpl; intros res seen l H.
  - injection H as <-. exists []. rewrite app_nil_r.
    split; [reflexivity |]. split; [apply Forall2_nil_2; reflexivity |].
    split; [| apply NoDup_nil_2].
    intros idx Hin. by apply elem_of_nil in Hin.
  - apply bind_Ok in H as (one_based & Hint & H). cbv zeta in H.
    destruct (out_of_bounds (one_based - 1) n) eqn:Hb; [discriminate |].
    destruct (bool_decide (one_based - 1 ∈ seen)) eqn:Hseen; [discriminate |].
    apply bool_decide_eq_false in Hseen. apply out_of_bounds_false in Hb.
    apply IH in H as (tail & -> & Hnames & Htail & Hnodup).
    exists ((one_based - 1) :: tail). rewrite <- app_assoc. simpl.
    split; [reflexivity |]. split; [| split].
    + constructor; [| exact Hnames]. exists one_based. split; [| reflexivity].
      unfold _parse_positive_int in Hint.
      destruct (Py.int part) as [parsed|]; [| discriminate].
      destruct (parsed <=? 0); [discriminate | congruence].
    + intros idx Hin. apply elem_of_cons in Hin as [-> | Hin]; [done |].
      apply Htail in Hin as [? Hnot]. split; [done |].
      intros Hs. apply Hnot. apply elem_of_union. by right.
    + constructor; [| exact Hnodup]. intros Hin. apply Htail in Hin as [_ Hnot].
      apply Hnot. apply elem_of_union. left. by apply elem_of_singleton.
Qed.

Lemma parse_reorder_Ok order n l :
  parse_reorder order n = Ok l ->
  Forall2 names_index (order_entries order) l
  /\ Z.of_nat (length (order_entries order)) = n
  /\ (forall idx, idx ∈ l -> 0 <= idx < n)
  /\ NoDup l.
Proof.
  unfold parse_reorder, order_entries. destruct (n <=? 0); [discriminate |].
  destruct (negb (Py.truthy (Py.strip order))); [discriminate |]. cbv zeta.
  destruct (Z.of_nat (length (comma_parts (Py.strip order))) =? n) eqn:Hlen;
    [| discriminate].
  simpl. intros H. apply order_loop_Ok in H as (tail & -> & Hnames & Htail & Hnodup).
  cbn [app]. split; [exact Hnames |]. split; [lia |]. split; [| exact Hnodup].
  intros idx Hin. by apply Htail.
Qed.

Lemma order_loop_complete n parts : forall vs res seen,
  Forall2 (fun part v => Py.int part = Some v) parts vs ->
  (forall v, v ∈ vs -> 1 <= v <= n) ->
  NoDup vs ->
  (forall v, v ∈ vs -> v - 1 ∉ seen) ->
  order_loop n res seen parts = Ok (res ++ List.map (fun v => v - 1) vs).
Proof.
  induction parts as [|part rest IH]; intros vs res seen Hparse Hrange Hnodup Hseen.
  - apply Forall2_nil_inv_l in Hparse as ->. simpl. by rewrite app_nil_r.
  - apply Forall2_cons_inv_l in Hparse as (v & vs' & Hv & Hrest & ->).
    apply NoDup_cons in Hnodup as [Hnotin Hnodup].
    assert (Hv1 : 1 <= v <= n) by (apply Hrange; by left).
    cbn [order_loop]. unfold _parse_positive_int. rewrite Hv.
    destruct (v <=? 0) eqn:Hpos; [apply Z.leb_le in Hpos; lia |].
    cbn [bind]. cbv zeta.
    replace (out_of_bounds (v - 1) n) with false
      by (symmetry; apply out_of_bounds_false; lia).
    rewrite bool_decide_eq_false_2 by (apply Hseen; by left).
    rewrite (IH vs').
    + cbn [List.map]. by rewrite <- app_assoc.
    + exact Hrest.
    + intros w Hw. apply Hrange. by right.
    + exact Hnodup.
    + intros w Hw Hin. apply elem_of_union in Hin as [Hin | Hin].
      * apply elem_of_singleton in Hin. assert (w = v) as -> by lia. done.
      * revert Hin. apply Hseen. by right.
Qed.

Lemma parse_reorder_complete order n vs :
  Forall2 (fun part v => Py.int part = Some v) (order_entries order) vs ->
  Z.of_nat (length vs) = n -> 0 < n ->
  (forall v, v ∈ vs -> 1 <= v <= n) ->
  NoDup vs ->
  parse_reorder order n = Ok (List.map (fun v => v - 1) vs).
Proof.
  intros Hparse Hlen Hn Hrange Hnodup. unfold parse_reorder.
  destruct (n <=? 0) eqn:Hn'; [apply Z.leb_le in Hn'; lia |].
  apply Forall2_length in Hparse as Hlen'. unfold order_entries in *.
  destruct (Py.truthy (Py.strip order)) eqn:Hc; cbn [negb].
  - cbv zeta.
    replace (Z.of_nat (length (comma_parts (Py.strip order))) =? n) with true
      by (symmetry; apply Z.eqb_eq; lia).
    cbn [negb]. rewrite (order_loop_complete n _ vs [] ∅); try done.
  - destruct (Py.strip order); [| discriminate].
    simpl in Hlen'. lia.
Qed.

Lemma reorder_loop src l : forall out,
  (forall idx, idx ∈ l -> 0 <= idx < page_count src) ->
  exists added,
    fold_left (fun out idx => insert_pdf out src idx idx) l out = out ++ added
    /\ Forall2 (fun idx p => src !! Z.to_nat idx = Some p) l added.
Proof.
  induction l as [|idx l IH]; intros out Hl.
  - exists []. simpl. rewrite app_nil_r. split; [reflexivity | constructor].
  - assert (Hidx : 0 <= idx < page_count src) by (apply Hl; left).
    destruct (lookup_lt_is_Some_2 src (Z.to_nat idx)) as [p Hp].
    { unfold page_count in Hidx. lia. }
    destruct (IH (out ++ [p])) as (added & Hfold & Hadded).
    { intros i Hi. apply Hl. by right. }
    exists (p :: added). simpl.
    rewrite (insert_pdf_one _ _ _ p) by (done || lia).
    rewrite Hfold, <- app_assoc. split; [reflexivity | by constructor].
Qed.

(** C2. For every document and every order string: an order whose entries
    are a permutation of the page numbers parses to the list of their
    0-based indices; when the order parses to a permutation of the page
    indices, page [i] of the output of [reorder_pages] is page [order[i]]
    of the input; when the order has the wrong length, an out-of-range
    entry or a duplicate, [reorder_pages] raises and no output is
    produced. *)
Theorem reorder_pages_permutation doc order :
  (forall vs,
     Forall2 (fun part v => Py.int part = Some v) (order_entries order) vs ->
     doc <> [] ->
     length vs = length doc ->
     (forall v, v ∈ vs -> 1 <= v <= page_count doc) ->
     NoDup vs ->
     parse_reorder order (page_count doc) = Ok (List.map (fun v => v - 1) vs))
  /\ (forall page_order,
     parse_reorder order (page_count doc) = Ok page_order ->
     length page_order = length doc
     /\ NoDup page_order
     /\ (forall idx, idx ∈ page_order -> 0 <= idx < page_count doc)
     /\ exists out,
          reorder_pages doc order = Ok out
          /\ length out = length doc
          /\ forall i idx,
               page_order !! i = Some idx ->
               is_Some (out !! i) /\ out !! i = doc !! Z.to_nat idx)
  /\ (length (order_entries order) <> length doc
      \/ (exists a v,
            a ∈ order_entries order /\ Py.int a = Some v
            /\ (v < 1 \/ page_count doc < v))
      \/ (exists i j a b v,
            i <> j
            /\ order_entries order !! i = Some a
            /\ order_entries order !! j = Some b
            /\ Py.int a = Some v /\ Py.int b = Some v)
      -> raises (reorder_pages doc order)).
Proof.
  split; [| split].
  - intros vs Hparse Hdoc Hlen Hrange Hnodup.
    apply parse_reorder_complete; try done; unfold page_count.
    + lia.
    + destruct doc; [done | simpl; lia].
  - intros page_order Hparse.
    pose proof (parse_reorder_Ok _ _ _ Hparse) as (Hnames & Hlen & Hrange & Hnodup).
    apply Forall2_length in Hnames as Hlen'. unfold page_count in Hlen.
    split; [lia |]. split; [done |]. split; [done |].
    destruct (reorder_loop doc page_order [] Hrange) as (added & Hfold & Hadded).
    exists added. unfold reorder_pages. rewrite Hparse. cbn [bind].
    split; [f_equal; exact Hfold |].
    apply Forall2_length in Hadded as Hlen''. split; [lia |].
    intros i idx Hi.
    destruct (Forall2_lookup_l _ _ _ _ _ Hadded Hi) as (p & Hp & Hdoc).
    rewrite Hp, Hdoc. split; [by eexists | reflexivity].
  - intros Hbad. apply not_Ok_raises. intros out Hout.
    unfold reorder_pages in Hout. apply bind_Ok in Hout as (l & Hparse & _).
    apply parse_reorder_Ok in Hparse as (Hnames & Hlen & Hrange & Hnodup).
    unfold page_count in *.
    destruct Hbad as [Hbad | [(a & v & Ha & Hv & Hbad) | Hbad]].
    + lia.
    + apply list_elem_of_lookup in Ha as [i Ha].
      destruct (Forall2_lookup_l _ _ _ _ _ Hnames Ha) as (idx & Hidx & v' & Hv' & ->).
      assert (v' = v) as -> by congruence.
      apply list_elem_of_lookup_2 in Hidx. apply Hrange in Hidx. lia.
    + destruct Hbad as (i & j & a & b & v & Hij & Ha & Hb & Hva & Hvb).
      destruct (Forall2_lookup_l _ _ _ _ _ Hnames Ha) as (x & Hx & v1 & Hv1 & ->).
      destruct (Forall2_lookup_l _ _ _ _ _ Hnames Hb) as (y & Hy & v2 & Hv2 & ->).
      assert (v1 = v) as -> by congruence. assert (v2 = v) as -> by congruence.
      apply Hij. eapply NoDup_lookup; eauto.
Qed.

End PageFacts.

Example int_forms :
  Py.int " 12 " = Some 12%Z /\ Py.int "1_0" = Some 10%Z /\ Py.int "+7" = Some 7%Z
  /\ Py.int "-5" = Some (-5)%Z /\ Py.int "007" = Some 7%Z
  /\ Py.int "1__0" = None /\ Py.int "_1" = None /\ Py.int "1_" = None
  /\ Py.int "" = None /\ Py.int "3x" = None /\ Py.int "+ 1" = None.
Proof. repeat split; reflexivity. Qed.

Example split_commas : Py.split "," "3, 1,,2" = ["3"; " 1"; ""; "2"]%string.
Proof. reflexivity. Qed.

Example parse_page_ranges_example :
  Pages.parse_page_ranges "1, 3-4" 4 = Ok ({[ 0%Z ]} ∪ {[ 2%Z ]} ∪ {[ 3%Z ]})
  /\ Pages.parse_page_ranges "5" 4 = Raise (PageOutOfBounds 5 4)
  /\ Pages.parse_page_ranges "3-2" 4 = Raise RangeEndBeforeStart
  /\ Pages.parse_page_ranges "-2" 4 = Raise (NotAnInteger "range start").
Proof. repeat split; vm_compute; reflexivity. Qed.

Example reorder_pages_example :
  Pages.reorder_pages [10; 20; 30] "3, 1, 2" = Ok [30; 10; 20]
  /\ Pages.reorder_pages [10; 20; 30] "3,1,1" = Raise OrderDuplicates
  /\ Pages.reorder_pages [10; 20; 30] "3,1,4" = Raise (OrderOutOfBounds 4 3)
  /\ Pages.reorder_pages [10; 20; 30] "3,1" = Raise (OrderWrongLength 3).
Proof. repeat split; vm_compute; reflexivity. Qed.

(** C8, as stated, fails on the range that names every page: the string
    ["1-3"] is valid for a document of three pages, and [remove_pages]
    returns no document for it. *)
Lemma remove_pages_every_page :
  Pages.parse_page_ranges "1-3" (Pages.page_count [10; 20; 30])
  = Ok ({[ 0%Z ]} ∪ {[ 1%Z ]} ∪ {[ 2%Z ]})
  /\ Pages.remove_pages [10; 20; 30] "1-3" = ZeroPages
  /\ ~ exists out, Pages.remove_pages [10; 20; 30] "1-3" = Bytes out.
Proof.
  split; [vm_compute; reflexivity |]. split; [vm_compute; reflexivity |].
  intros [out H]. vm_compute in H. discriminate.
Qed.


Lemma reorder_pages_permutation_witness :
  exists out,
    Pages.reorder_pages [10; 20; 30] "3, 1, 2" = Ok out
    /\ length out = 3
    /\ forall i idx,
         [2; 0; 1]%Z !! i = Some idx ->
         is_Some (out !! i) /\ out !! i = [10; 20; 30] !! Z.to_nat idx.
Proof.
  destruct (reorder_pages_permutation [10; 20; 30] "3, 1, 2")
    as (Hvalid & Hout & _).
  apply (Hout [2; 0; 1]%Z). apply (Hvalid [3; 1; 2]%Z).
  - change (PageSpec.order_entries "3, 1, 2") with ["3"; "1"; "2"]%string.
    repeat constructor.
  - discriminate.
  - reflexivity.
  - intros v Hv. unfold Pages.page_count. simpl.
    repeat (apply elem_of_cons in Hv as [-> | Hv]; [lia |]).
    by apply elem_of_nil in Hv.
  - apply (bool_decide_unpack _). vm_compute. reflexivity.
Defined.

(** ** Glyph coverage *)

Section GlyphFacts.

Import Fonts GlyphSpec.

Variable Font_of_file : string -> attempt Font.
Variable Font_of_name : string -> attempt Font.

Local Abbreviation get_font := (_get_font_obj Font_of_file Font_of_name).
Local Abbreviation loop := (supports_loop Font_of_file Font_of_name).

Lemma get_font_raised fontname fontfile cache cache' :
  get_font fontname fontfile cache = (Raised, cache') -> cache' = cache.
Proof.
  unfold _get_font_obj. cbv zeta.
  destruct (cache !! _); [discriminate |].
  destruct (if given fontfile then _ else _); intros H; congruence.
Qed.

(** Once a font object is in the cache, the same object is returned. *)
Lemma get_font_again fontname fontfile cache f cache' :
  get_font fontname fontfile cache = (Returned f, cache') ->
  get_font fontname fontfile cache' = (Returned f, cache').
Proof.
  unfold _get_font_obj. cbv zeta.
  set (key := (or_else fontfile "", or_else (Some (Py.strip fontname)) "helv")).
  destruct (cache !! key) as [got|] eqn:Hhit.
  - intros H. injection H as <- <-. by rewrite Hhit.
  - destruct (if given fontfile then _ else _) as [f'|]; [| discriminate].
    intros H. injection H as <- <-. by rewrite lookup_insert_eq.
Qed.

(** What [_get_font_obj] returns for a font file is the font program of the
    file, and it keeps a faithful cache faithful. *)
Lemma get_font_program fontname path cache r cache' :
  path <> ""%string -> faithful Font_of_file cache ->
  get_font fontname (Some path) cache = (r, cache') ->
  r = Font_of_file path /\ faithful Font_of_file cache'.
Proof.
  intros Hpath Hcache. unfold _get_font_obj. cbv zeta.
  assert (Hfile : or_else (Some path) "" = path) by (by destruct path).
  assert (Hgiven : given (Some path) = true) by (by destruct path).
  rewrite Hfile, Hgiven.
  set (key := (path, or_else (Some (Py.strip fontname)) "helv")).
  destruct (cache !! key) as [got|] eqn:Hhit.
  - intros [= <- <-]. split; [| exact Hcache].
    symmetry. by apply (Hcache path _ got Hhit).
  - destruct (Font_of_file path) as [f|] eqn:Hload.
    + intros [= <- <-]. split; [reflexivity |].
      intros path' name f' Hlook Hpath'.
      destruct (decide ((path', name) = key)) as [Heq | Hne].
      * rewrite Heq, lookup_insert_eq in Hlook. injection Hlook as <-.
        injection Heq as -> _. exact Hload.
      * rewrite lookup_insert_ne in Hlook by done. by apply (Hcache path' name).
    + intros [= <- <-]. by split.
Qed.

Lemma faithful_kept font_cache cache :
  faithful Font_of_file cache ->
  faithful Font_of_file (cache_of (kept font_cache cache)).
Proof.
  intros Hcache. destruct font_cache; [exact Hcache |].
  intros path name f Hlook.
  change ((∅ : gmap (string * string) Font) !! (path, name) = Some f) in Hlook.
  by rewrite lookup_empty in Hlook.
Qed.

Lemma supports_loop_spec fontname path text : forall font_cache,
  path <> ""%string -> faithful Font_of_file (cache_of font_cache) ->
  exists b cache',
    loop text fontname (Some path) font_cache = (Returned b, cache')
    /\ (b = true <->
        forall ch, ch ∈ text -> Py.isspace ch = false ->
                   maps_to_glyph (Font_of_file path) ch)
    /\ faithful Font_of_file (cache_of cache').
Proof.
  induction text as [|ch rest IH]; intros font_cache Hpath Hcache;
    cbn [supports_loop].
  - exists true, font_cache. split; [reflexivity |]. split; [| exact Hcache].
    split; [| reflexivity]. intros _ ch Hin. by apply elem_of_nil in Hin.
  - destruct (Py.isspace ch) eqn:Hspace.
    { destruct (IH font_cache Hpath Hcache) as (b & cache' & Hloop & Hb & Hkept).
      exists b, cache'. split; [exact Hloop |]. split; [| exact Hkept].
      rewrite Hb. split.
      - intros H c Hin Hc.
        apply elem_of_cons in Hin as [-> | Hin]; [congruence | auto].
      - intros H c Hin. apply H. by right. }
    cbv zeta.
    destruct (get_font _ (Some path) (cache_of font_cache)) as [r cache] eqn:Hget.
    destruct (get_font_program _ _ _ _ _ Hpath Hcache Hget) as [-> Hcache'].
    pose proof (faithful_kept font_cache cache Hcache') as Hkept.
    destruct (Font_of_file path) as [f|] eqn:Hload.
    2: { exists false, (kept font_cache cache). split; [reflexivity |].
         split; [| exact Hkept]. split; [discriminate |]. intros H.
         destruct (H ch) as (f & g & Hprog & _); [by left | done | discriminate]. }
    destruct (has_glyph f (Py.code ch)) as [has|] eqn:Hhas.
    2: { exists false, (kept font_cache cache). split; [reflexivity |].
         split; [| exact Hkept]. split; [discriminate |]. intros H.
         destruct (H ch) as (f' & g & [= <-] & Hg & _); [by left | done |].
         congruence. }
    destruct (has =? 0)%Z eqn:Hzero.
    { exists false, (kept font_cache cache). split; [reflexivity |].
      split; [| exact Hkept]. split; [discriminate |]. intros H.
      destruct (H ch) as (f' & g & [= <-] & Hg & Hne); [by left | done |].
      apply Z.eqb_eq in Hzero. congruence. }
    destruct (IH (kept font_cache cache) Hpath Hkept)
      as (b & cache' & Hloop & Hb & Hkept').
    exists b, cache'. split; [exact Hloop |]. split; [| exact Hkept'].
    rewrite Hb. split.
    + intros H c Hin Hc. apply elem_of_cons in Hin as [-> | Hin]; [| by apply H].
      exists f, has. split; [reflexivity |]. split; [exact Hhas |].
      by apply Z.eqb_neq in Hzero.
    + intros H c Hin Hc. apply H; [by right | done].
Qed.

(** Whatever the font file and the cache, the loop ends with an answer. *)
Lemma supports_loop_answers fontname fontfile text : forall font_cache,
  exists b cache',
    loop text fontname fontfile font_cache = (Returned b, cache').
Proof.
  induction text as [|ch rest IH]; intros font_cache; cbn [supports_loop].
  - by exists true, font_cache.
  - destruct (Py.isspace ch); [apply IH |]. cbv zeta.
    destruct (get_font _ fontfile (cache_of font_cache)) as [[f|] cache];
      [| by eexists _, _].
    destruct (has_glyph f (Py.code ch)) as [has|]; [| by eexists _, _].
    destruct (has =? 0)%Z; [by eexists _, _ | apply IH].
Qed.

Lemma supports_loop_spaces fontname fontfile text : forall font_cache,
  forallb Py.isspace text = true ->
  loop text fontname fontfile font_cache = (Returned true, font_cache).
Proof.
  induction text as [|ch rest IH]; intros font_cache H; [reflexivity |].
  simpl in H. apply andb_true_iff in H as [Hch Hrest].
  cbn [supports_loop]. rewrite Hch. by apply IH.
Qed.

(** C6. For every text and font file, the glyph-coverage check returns a
    boolean (it never raises), and for the font program of a font file
    that boolean is true exactly when every character of the text that is
    not white space maps to a glyph of the program; when the program does
    not load, or the query for a character fails, the answer is false. *)
Theorem font_supports_text_total text fontsize fontname fontfile font_cache :
  exists b cache',
    _font_supports_text Font_of_file Font_of_name text fontsize fontname
      fontfile font_cache = (Returned b, cache')
    /\ forall path,
         fontfile = Some path -> path <> ""%string ->
         faithful Font_of_file (cache_of font_cache) ->
         (b = true <-> covered (Font_of_file path) text)
         /\ (forall ch,
               ch ∈ Py.chars text -> Py.isspace ch = false ->
               Font_of_file path = Raised
               \/ (exists f, Font_of_file path = Returned f
                             /\ has_glyph f (Py.code ch) = Raised) ->
               b = false)
         /\ faithful Font_of_file (cache_of cache').
Proof.
  assert (Hfails : forall path b,
             (b = true <-> covered (Font_of_file path) text) ->
             forall ch,
               ch ∈ Py.chars text -> Py.isspace ch = false ->
               Font_of_file path = Raised
               \/ (exists f, Font_of_file path = Returned f
                             /\ has_glyph f (Py.code ch) = Raised) ->
               b = false).
  { intros path b Hb ch Hin Hch Hfail. destruct b; [| reflexivity].
    destruct (proj1 Hb eq_refl ch Hin Hch) as (f & g & Hload & Hg & _).
    destruct Hfail as [Hfail | (f' & Hload' & Hg')]; congruence. }
  unfold _font_supports_text.
  destruct text as [|c text']; cbn [Py.truthy negb].
  - exists true, font_cache. split; [reflexivity |].
    intros path _ _ Hcache. split; [| split; [| exact Hcache]].
    + split; [| reflexivity]. intros _ ch Hin. by apply elem_of_nil in Hin.
    + intros ch Hin. by apply elem_of_nil in Hin.
  - destruct (given fontfile) eqn:Hfile; cbn [negb].
    + destruct fontfile as [path|]; [| discriminate].
      assert (Hpath : path <> ""%string) by (by destruct path).
      destruct (supports_loop_answers fontname (Some path)
                  (Py.chars (String c text')) font_cache) as (b & cache' & Hloop).
      exists b, cache'. split; [exact Hloop |].
      intros path' [= <-] _ Hcache.
      destruct (supports_loop_spec fontname path (Py.chars (String c text'))
                  font_cache Hpath Hcache) as (b' & cache'' & Hloop' & Hb & Hkept).
      rewrite Hloop in Hloop'. injection Hloop' as <- <-.
      split; [exact Hb |]. split; [by apply Hfails | exact Hkept].
    + exists true, font_cache. split; [reflexivity |].
      intros path -> Hpath. by destruct path.
Qed.

(** C10. The glyph-coverage check answers true, whatever the font, when
    no font file is supplied, and when the text is empty or made of white
    space only: only file-backed font programs are ever rejected. *)
Theorem font_supports_text_unconditional text fontsize fontname fontfile
    font_cache :
  given fontfile = false \/ forallb Py.isspace (Py.chars text) = true ->
  _font_supports_text Font_of_file Font_of_name text fontsize fontname
    fontfile font_cache = (Returned true, font_cache).
Proof.
  unfold _font_supports_text. intros H.
  destruct (negb (Py.truthy text)); [reflexivity |].
  destruct (given fontfile) eqn:Hfile; cbn [negb]; [| reflexivity].
  destruct H as [H | H]; [discriminate |]. by apply supports_loop_spaces.
Qed.

End GlyphFacts.

(** ** Case of the replacement *)

Section CaseFacts.

Import Case CaseSpec.

Lemma alpha_not_space c : Py.isalpha c = true -> Py.isspace c = false.
Proof.
  destruct c as [[] [] [] [] [] [] [] []]; vm_compute; intros H;
    first [reflexivity | discriminate H].
Qed.

Lemma space_not_alpha c : Py.isspace c = true -> Py.isalpha c = false.
Proof.
  intros H. destruct (Py.isalpha c) eqn:Ha; [| reflexivity].
  apply alpha_not_space in Ha. congruence.
Qed.

Lemma letters_cons c s :
  letters (String c s) = if Py.isalpha c then c :: letters s else letters s.
Proof. reflexivity. Qed.

Lemma letters_lstrip s : letters (Py.lstrip s) = letters s.
Proof.
  induction s as [|c s IH]; [reflexivity |]. cbn [Py.lstrip].
  destruct (Py.isspace c) eqn:Hc; [| reflexivity].
  rewrite letters_cons, (space_not_alpha _ Hc). exact IH.
Qed.

Lemma letters_rstrip s : letters (Py.rstrip s) = letters s.
Proof.
  induction s as [|c s IH]; [reflexivity |]. cbn [Py.rstrip].
  rewrite (letters_cons c s), <- IH.
  destruct (Py.rstrip s) as [|d r] eqn:Hr.
  - destruct (Py.isspace c) eqn:Hc.
    + by rewrite (space_not_alpha _ Hc).
    + apply letters_cons.
  - apply letters_cons.
Qed.

Lemma letters_strip s : letters (Py.strip s) = letters s.
Proof. unfold Py.strip. by rewrite letters_rstrip, letters_lstrip. Qed.

(** A word in progress or a character that is not white space yields a
    word. *)
Lemma words_from_nonempty o : forall word,
  word <> [] \/ existsb (fun ch => negb (Py.isspace ch)) o = true ->
  words_from word o <> [].
Proof.
  induction o as [|ch rest IH]; intros word H; cbn [words_from].
  - destruct H as [H | H]; [| discriminate]. by destruct word.
  - destruct (Py.isspace ch) eqn:Hc.
    + destruct word; [| discriminate]. apply IH.
      destruct H as [H | H]; [done |]. right. simpl in H. by rewrite Hc in H.
    + apply IH. by left.
Qed.

Lemma letters_words s : letters s <> [] -> words s <> [].
Proof.
  intros H. apply words_from_nonempty. right.
  unfold letters in H. induction (Py.chars s) as [|c l IH]; [done |].
  simpl in *. destruct (Py.isalpha c) eqn:Hc.
  - by rewrite (alpha_not_space _ Hc).
  - rewrite (IH H). apply orb_true_r.
Qed.

(** In front of the first letter there are no letters, and [index] finds
    that very position. *)
Lemma first_alpha_split w first :
  first_alpha w = Some first ->
  exists pre post,
    w = pre ++ first :: post
    /\ List.filter Py.isalpha pre = []
    /\ Py.isalpha first = true
    /\ index first w = length pre.
Proof.
  induction w as [|ch rest IH]; [discriminate |]. cbn [first_alpha index].
  destruct (Py.isalpha ch) eqn:Hch.
  - intros H. injection H as ->. exists [], rest.
    rewrite Ascii.eqb_refl. by rewrite Hch.
  - intros H. destruct (IH H) as (pre & post & -> & Hpre & Hfirst & Hidx).
    exists (ch :: pre), post. simpl. rewrite Hch.
    destruct (Ascii.eqb ch first) eqn:Heq.
    + apply Ascii.eqb_eq in Heq. congruence.
    + by rewrite Hidx.
Qed.

Lemma lower_letters post :
  forallb (fun ch => negb (Py.isalpha ch) || Py.islower ch) post
  = forallb Py.islower (List.filter Py.isalpha post).
Proof.
  induction post as [|ch rest IH]; [reflexivity |]. simpl.
  destruct (Py.isalpha ch); simpl; by rewrite IH.
Qed.

(** The test of the source on positions agrees with the reading by
    letters. *)
Lemma is_title_word_letters w : is_title_word w = title_cased w.
Proof.
  unfold is_title_word, title_cased, letters. cbv zeta.
  destruct (first_alpha (Py.chars w)) as [first|] eqn:Hfirst.
  - destruct (first_alpha_split _ _ Hfirst) as (pre & post & Hw & Hpre & Ha & Hidx).
    assert (Hdrop : drop (length pre + 1) (Py.chars w) = post).
    { rewrite Hw. replace (pre ++ first :: post) with ((pre ++ [first]) ++ post)
        by (by rewrite <- app_assoc).
      apply drop_app_length'. rewrite length_app. simpl. lia. }
    rewrite Hidx, Hdrop, Hw, List.filter_app, Hpre. cbn [app List.filter].
    rewrite Ha. by rewrite lower_letters.
  - assert (Hnone : List.filter Py.isalpha (Py.chars w) = []).
    { induction (Py.chars w) as [|ch rest IH]; [reflexivity |]. simpl in *.
      destruct (Py.isalpha ch); [discriminate | auto]. }
    by rewrite Hnone.
Qed.

Lemma forallb_title ws : forallb is_title_word ws = forallb title_cased ws.
Proof.
  induction ws as [|w ws IH]; [reflexivity |]. simpl.
  by rewrite is_title_word_letters, IH.
Qed.

Lemma case_of_empty original : guarded_rule original "" = ""%string.
Proof.
  unfold guarded_rule, stated_rule. destruct (letters original); [reflexivity |].
  repeat match goal with |- context [if ?b then _ else _] => destruct b end;
    reflexivity.
Qed.

(** C3, as amended.  When the original has no letter the replacement is
    returned unchanged; otherwise it is upper-cased when every letter of the
    original is upper case, lower-cased when every letter is lower case,
    title-cased when the letters of every word are one upper-case letter
    followed by lower-case letters, and unchanged otherwise.  The three
    examples of the specification hold. *)
Theorem match_replacement_case_rule original replacement :
  _match_replacement_case original replacement
  = guarded_rule original replacement
  /\ _match_replacement_case "RESUME" "summary" = "SUMMARY"%string
  /\ _match_replacement_case "Jane Doe" "john smith" = "John Smith"%string
  /\ _match_replacement_case "hello" "WORLD" = "world"%string.
Proof.
  split; [| repeat split; reflexivity].
  unfold _match_replacement_case.
  destruct replacement as [|r rs]; [by rewrite case_of_empty |].
  cbn [Py.truthy negb]. cbv zeta.
  unfold guarded_rule, stated_rule, words_of. fold (letters (Py.strip original)).
  rewrite letters_strip.
  destruct (Py.strip original) as [|c o] eqn:Ho.
  { cbn [Py.truthy negb]. rewrite <- (letters_strip original), Ho. reflexivity. }
  cbn [Py.truthy negb]. rewrite <- Ho.
  destruct (letters original) as [|l ls] eqn:Hl; [reflexivity |].
  destruct (forallb Py.isupper (l :: ls)); [reflexivity |].
  destruct (forallb Py.islower (l :: ls)); [reflexivity |].
  rewrite <- forallb_title.
  destruct (words (Py.strip original)) eqn:Hw; [| reflexivity].
  exfalso. apply (letters_words (Py.strip original)); [| exact Hw].
  rewrite letters_strip, Hl. discriminate.
Qed.

End CaseFacts.

(** C3, as stated, fails on an original without letters: every letter of
    ["123"] is upper case, yet the replacement is returned unchanged. *)
Lemma match_replacement_case_no_letters :
  forallb Py.isupper (CaseSpec.letters "123") = true
  /\ CaseSpec.stated_rule "123" "abc" = "ABC"%string
  /\ Case._match_replacement_case "123" "abc" = "abc"%string
  /\ Case._match_replacement_case "123" "abc" <> CaseSpec.stated_rule "123" "abc".
Proof. repeat split; try reflexivity. discriminate. Qed.

(** ** Comparisons of floating-point values *)

Section FloatFacts.

Local Open Scope Q_scope.

Lemma leb_le a b : Float.leb a b = true <-> a <= b.
Proof. apply Qle_bool_iff. Qed.

Lemma leb_gt a b : Float.leb a b = false <-> b < a.
Proof.
  unfold Float.leb. rewrite <- not_true_iff_false, Qle_bool_iff. split.
  - apply Qnot_le_lt.
  - apply Qlt_not_le.
Qed.

Lemma ltb_lt a b : Float.ltb a b = true <-> a < b.
Proof. unfold Float.ltb. rewrite negb_true_iff. apply leb_gt. Qed.

Lemma ltb_ge a b : Float.ltb a b = false <-> b <= a.
Proof. unfold Float.ltb. rewrite negb_false_iff. apply leb_le. Qed.

Lemma eqb_eq a b : Float.eqb a b = true <-> a == b.
Proof. apply Qeq_bool_iff. Qed.

Lemma max_cases a b :
  (a < b /\ Float.max a b = b) \/ (b <= a /\ Float.max a b = a).
Proof.
  unfold Float.max. destruct (Float.ltb a b) eqn:H.
  - left. by apply ltb_lt in H.
  - right. by apply ltb_ge in H.
Qed.

Lemma min_cases a b :
  (b < a /\ Float.min a b = b) \/ (a <= b /\ Float.min a b = a).
Proof.
  unfold Float.min. destruct (Float.ltb b a) eqn:H.
  - left. by apply ltb_lt in H.
  - right. by apply ltb_ge in H.
Qed.

Lemma abs_cases a :
  (a < 0 /\ Float.abs a = - a) \/ (0 <= a /\ Float.abs a = a).
Proof.
  unfold Float.abs. destruct (Float.ltb a 0) eqn:H.
  - left. by apply ltb_lt in H.
  - right. by apply ltb_ge in H.
Qed.

End FloatFacts.

(** Case analysis on every [max], [min] and [abs] of the goal. *)
Ltac float_cases :=
  repeat match goal with
    | |- context [Float.max ?a ?b] =>
        let H := fresh "Hmax" in
        destruct (max_cases a b) as [[? H] | [? H]]; rewrite !H in *
    | |- context [Float.min ?a ?b] =>
        let H := fresh "Hmin" in
        destruct (min_cases a b) as [[? H] | [? H]]; rewrite !H in *
    | |- context [Float.abs ?a] =>
        let H := fresh "Habs" in
        destruct (abs_cases a) as [[? H] | [? H]]; rewrite !H in *
    end.

(** ** Tracking emulation *)

Section TrackingFacts.

Import Geometry Tracking TrackingSpec.
Local Open Scope Q_scope.

Lemma truthy_nonempty s : Py.truthy s = true <-> s <> ""%string.
Proof. destruct s; simpl; split; congruence. Qed.

(** C5, as amended.  The tracking decision is true exactly when the font
    size is at least 12, the replacement is longer than 2, both measured
    widths are positive, the rectangle width minus one, floored at one,
    divided by the measured width of the replacement is at least 1.20 and
    divided by that of the original at least 1.10, the stripped original is
    not empty, the stripped texts agree on containing white space, and the
    length of the stripped replacement over that of the stripped original
    lies within [0.65, 1.35]. *)
Theorem should_use_distributed_insertion_rule rect original_text
    replacement_text measured_replacement measured_original fontsize :
  _should_use_distributed_insertion rect original_text replacement_text
    measured_replacement measured_original fontsize = true
  <-> floored_rule rect original_text replacement_text
        measured_replacement measured_original fontsize.
Proof.
  unfold _should_use_distributed_insertion, floored_rule, fill_width. cbv zeta.
  set (rect_w := Float.max 1 (width rect - 1)).
  set (ratio := Float.of_int (Py.len (Py.strip replacement_text))
                / Float.of_int (Z.max 1 (Py.len (Py.strip original_text)))).
  destruct (Float.ltb fontsize 12) eqn:H1.
  { apply ltb_lt in H1. split; [discriminate |]. intros (H & _). lra. }
  apply ltb_ge in H1.
  destruct (Py.truthy replacement_text) eqn:H2a; cbn [negb orb].
  2: { split; [discriminate |]. intros (_ & H & _).
       destruct replacement_text; [unfold Py.len in H; simpl in H; lia | discriminate]. }
  destruct (Py.len replacement_text <=? 2)%Z eqn:H2.
  { apply Z.leb_le in H2. split; [discriminate |]. intros (_ & H & _). lia. }
  apply Z.leb_gt in H2.
  destruct (Float.leb measured_replacement 0) eqn:H3.
  { apply leb_le in H3. split; [discriminate |]. intros (_ & _ & H & _). lra. }
  apply leb_gt in H3.
  destruct (Float.ltb (rect_w / measured_replacement) (120 # 100)) eqn:H4.
  { apply ltb_lt in H4. split; [discriminate |]. intros (_ & _ & _ & H & _). lra. }
  apply ltb_ge in H4.
  destruct (Py.truthy (Py.strip original_text)) eqn:H5; cbn [negb].
  2: { split; [discriminate |]. intros (_ & _ & _ & _ & H & _).
       apply truthy_nonempty in H. congruence. }
  apply truthy_nonempty in H5.
  destruct (Bool.eqb (Py.any_space (Py.strip original_text))
              (Py.any_space (Py.strip replacement_text))) eqn:H6; cbn [negb].
  2: { apply eqb_false_iff in H6. split; [discriminate |].
       by intros (_ & _ & _ & _ & _ & H & _). }
  apply eqb_prop in H6.
  destruct (Float.leb measured_original 0) eqn:H7.
  { apply leb_le in H7. split; [discriminate |].
    intros (_ & _ & _ & _ & _ & _ & H & _). lra. }
  apply leb_gt in H7.
  destruct (Float.ltb (rect_w / measured_original) (110 # 100)) eqn:H8.
  { apply ltb_lt in H8. split; [discriminate |].
    intros (_ & _ & _ & _ & _ & _ & _ & H & _). lra. }
  apply ltb_ge in H8.
  destruct (Float.ltb ratio (65 # 100)) eqn:H9; cbn [orb].
  { apply ltb_lt in H9. split; [discriminate |].
    intros (_ & _ & _ & _ & _ & _ & _ & _ & H & _). lra. }
  apply ltb_ge in H9.
  destruct (Float.ltb (135 # 100) ratio) eqn:H10.
  { apply ltb_lt in H10. split; [discriminate |].
    intros (_ & _ & _ & _ & _ & _ & _ & _ & _ & H). lra. }
  apply ltb_ge in H10.
  split; [intros _ | reflexivity]. repeat split; assumption.
Qed.

End TrackingFacts.

(** C5, as stated, fails on a narrow rectangle: the width minus one is 1/2,
    half of it does not reach the measured width, yet the decision is true
    because the filled width is floored at one. *)
Lemma should_use_distributed_insertion_floor :
  Tracking._should_use_distributed_insertion
    (Geometry.mkRect 0 0 (3 # 2) 10) "abc" "abd" (1 # 2) (1 # 2) 12 = true
  /\ ~ TrackingSpec.stated_rule
         (Geometry.mkRect 0 0 (3 # 2) 10) "abc" "abd" (1 # 2) (1 # 2) 12.
Proof.
  split; [reflexivity |].
  intros (_ & _ & H & _). vm_compute in H. by apply H.
Qed.

Lemma should_use_distributed_insertion_rule_witness :
  Tracking._should_use_distributed_insertion
    (Geometry.mkRect 0 0 101 20) "N A M E" "J O H N" 60 70 14 = true.
Proof.
  apply should_use_distributed_insertion_rule.
  unfold TrackingSpec.floored_rule. cbv zeta.
  repeat split; try (vm_compute; congruence).
Defined.

Example font_supports_text_example :
  fst (Fonts._font_supports_text Sample.Font_of_file Sample.Font_of_name
         "a a" 12 "emb" (Some "font_7.ttf"%string) (Some ∅)) = Returned true
  /\ fst (Fonts._font_supports_text Sample.Font_of_file Sample.Font_of_name
            "ab" 12 "emb" (Some "font_7.ttf"%string) (Some ∅)) = Returned false
  /\ fst (Fonts._font_supports_text Sample.Font_of_file Sample.Font_of_name
            "ab" 12 "helv" None (Some ∅)) = Returned true
  /\ fst (Fonts._font_supports_text (fun _ => Raised) Sample.Font_of_name
            "a" 12 "emb" (Some "font_7.ttf"%string) None) = Returned false.
Proof. repeat split; vm_compute; reflexivity. Qed.

(** The sample font covers ["a a"] and not ["ab"], and the check answers
    accordingly. *)
Lemma font_supports_text_total_witness :
  (GlyphSpec.covered (Sample.Font_of_file "font_7.ttf") "a a"
   /\ fst (Fonts._font_supports_text Sample.Font_of_file Sample.Font_of_name
             "a a" 12 "emb" (Some "font_7.ttf"%string) None) = Returned true)
  /\ (~ GlyphSpec.covered (Sample.Font_of_file "font_7.ttf") "ab"
      /\ fst (Fonts._font_supports_text Sample.Font_of_file Sample.Font_of_name
                "ab" 12 "emb" (Some "font_7.ttf"%string) None) = Returned false).
Proof.
  assert (Hempty : GlyphSpec.faithful Sample.Font_of_file (Fonts.cache_of None)).
  { intros path name f Hlook.
    change ((∅ : gmap (string * string) Fonts.Font) !! (path, name) = Some f)
      in Hlook.
    by rewrite lookup_empty in Hlook. }
  split.
  - assert (Hcovered : GlyphSpec.covered (Sample.Font_of_file "font_7.ttf") "a a").
    { intros ch Hin Hch. exists Sample.font_a, 5%Z.
      split; [reflexivity |]. split; [| discriminate].
      cbn in Hin. repeat (apply elem_of_cons in Hin as [-> | Hin]);
        first [reflexivity | discriminate | by apply elem_of_nil in Hin]. }
    split; [exact Hcovered |].
    destruct (font_supports_text_total Sample.Font_of_file Sample.Font_of_name
                "a a" 12 "emb" (Some "font_7.ttf"%string) None)
      as (b & cache' & -> & Hb).
    destruct (Hb "font_7.ttf"%string eq_refl ltac:(discriminate) Hempty)
      as (Hiff & _ & _).
    cbn [fst]. f_equal. by apply Hiff.
  - assert (Hnot : ~ GlyphSpec.covered (Sample.Font_of_file "font_7.ttf") "ab").
    { intros H. destruct (H "b"%char) as (f & g & [= <-] & [= <-] & Hg);
        [right; by left | reflexivity | done]. }
    split; [exact Hnot |].
    destruct (font_supports_text_total Sample.Font_of_file Sample.Font_of_name
                "ab" 12 "emb" (Some "font_7.ttf"%string) None)
      as (b & cache' & -> & Hb).
    destruct (Hb "font_7.ttf"%string eq_refl ltac:(discriminate) Hempty)
      as (Hiff & _ & _).
    cbn [fst]. f_equal. destruct b; [| reflexivity]. exfalso. by apply Hnot, Hiff.
Defined.

Lemma font_supports_text_unconditional_witness :
  Fonts._font_supports_text Sample.Font_of_file Sample.Font_of_name
    "zzz" 12 "helv" None None = (Returned true, None)
  /\ Fonts._font_supports_text Sample.Font_of_file Sample.Font_of_name
       "  " 12 "emb" (Some "font_7.ttf"%string) None = (Returned true, None).
Proof.
  split; apply font_supports_text_unconditional;
    [left | right]; reflexivity.
Defined.

(** ** Baseline *)

Section BaselineFacts.

Import Geometry Fonts BaselineSpec.
Local Open Scope Q_scope.

Variable Font_of_file : string -> attempt Font.
Variable Font_of_name : string -> attempt Font.


End BaselineFacts.



Example baseline_point_example :
  Geometry.py (Fonts._baseline_point Sample.Font_of_file Sample.Font_of_name
                 (Geometry.mkRect 0 0 10 20) 8 "emb" (Some "font_7.ttf"%string))
  = (20 + - (1 # 4) * 8)%Q
  /\ (Geometry.py (Fonts._baseline_point Sample.Font_of_file Sample.Font_of_name
                     (Geometry.mkRect 0 0 10 20) 8 "helv" None)
      == 20 - (144 # 100))%Q.
Proof. split; [reflexivity | vm_compute; reflexivity]. Qed.

(** ** Region merger *)

Section MergerFacts.

Import Geometry Merger MergerSpec.
Local Open Scope Q_scope.

Lemma contained_refl r : contained r r.
Proof. unfold contained. repeat split; apply Qle_refl. Qed.

Lemma contained_trans a b c : contained a b -> contained b c -> contained a c.
Proof. unfold contained. intros (?&?&?&?) (?&?&?&?). repeat split; lra. Qed.

Lemma contained_union_l a b : contained a (union a b).
Proof. unfold contained, union. cbn [x0 y0 x1 y1]. float_cases; repeat split; lra. Qed.

Lemma contained_union_r a b : contained b (union a b).
Proof. unfold contained, union. cbn [x0 y0 x1 y1]. float_cases; repeat split; lra. Qed.

Lemma contained_pad r : contained r (pad r).
Proof.
  unfold contained, pad. cbv zeta. cbn [x0 y0 x1 y1].
  destruct (max_cases 2 (height r * (15 # 100))) as [[? ->] | [? ->]];
    destruct (max_cases 1 (height r * (8 # 100))) as [[? ->] | [? ->]];
    repeat split; lra.
Qed.

Lemma same_line_floored a b : same_line a b = true <-> floored_same_line a b.
Proof.
  unfold same_line, floored_same_line. cbv zeta.
  destruct (Float.ltb _ (min_h a b * (8 # 10))) eqn:Hc.
  - apply ltb_lt in Hc. split; [by right | reflexivity].
  - apply ltb_ge in Hc. rewrite leb_le. split; [by left |].
    intros [H | H]; [exact H | lra].
Qed.

(** *** Sorting *)

Lemma insert_by_key_perm r l : insert_by_key r l ≡ₚ r :: l.
Proof.
  induction l as [|h t IH]; [reflexivity |]. cbn [insert_by_key].
  destruct (key_le r h); [reflexivity |]. rewrite IH. apply Permutation_swap.
Qed.

Lemma sort_by_key_perm l : sort_by_key l ≡ₚ l.
Proof.
  induction l as [|r l IH]; [reflexivity |]. cbn [sort_by_key fold_right].
  rewrite insert_by_key_perm. by constructor.
Qed.

Lemma key_le_y0 a b : key_le a b = true -> le_y0 a b.
Proof.
  unfold key_le, le_y0. intros H. apply orb_true_iff in H as [H | H].
  - apply ltb_lt in H. lra.
  - apply andb_true_iff in H as [H _]. apply eqb_eq in H. lra.
Qed.

Lemma key_gt_y0 a b : key_le a b = false -> le_y0 b a.
Proof.
  unfold key_le, le_y0. intros H. apply orb_false_iff in H as [H _].
  by apply ltb_ge in H.
Qed.

Lemma insert_by_key_sorted r l :
  StronglySorted le_y0 l -> StronglySorted le_y0 (insert_by_key r l).
Proof.
  induction l as [|h t IH]; intros Hs; cbn [insert_by_key].
  - repeat constructor.
  - apply StronglySorted_cons in Hs as [Hh Ht].
    destruct (key_le r h) eqn:Hk.
    + apply key_le_y0 in Hk. apply StronglySorted_cons. split.
      * constructor; [exact Hk |]. eapply Forall_impl; [exact Hh |].
        intros x Hx. unfold le_y0 in *. lra.
      * apply StronglySorted_cons. by split.
    + apply key_gt_y0 in Hk. apply StronglySorted_cons. split; [| by apply IH].
      apply Forall_forall. intros x Hx. rewrite insert_by_key_perm in Hx.
      apply elem_of_cons in Hx as [-> | Hx]; [exact Hk |].
      by apply (proj1 (Forall_forall _ _) Hh).
Qed.

Lemma sort_by_key_sorted l : StronglySorted le_y0 (sort_by_key l).
Proof.
  induction l as [|r l IH]; [constructor |]. by apply insert_by_key_sorted.
Qed.

(** *** The merging loop *)

Lemma merge_step_cases merged r :
  (merged = [] /\ merge_step merged r = [r])
  \/ exists front last,
       merged = front ++ [last]
       /\ merge_step merged r
          = if intersects last r || same_line last r
            then front ++ [union last r]
            else merged ++ [r].
Proof.
  unfold merge_step. destruct (List.rev merged) as [|last front] eqn:Hrev.
  - left. split; [| reflexivity].
    apply (f_equal (@List.rev Rect)) in Hrev. by rewrite rev_involutive in Hrev.
  - right. exists (List.rev front), last. split; [| reflexivity].
    apply (f_equal (@List.rev Rect)) in Hrev. by rewrite rev_involutive in Hrev.
Qed.

(** One turn keeps every region covered, covers the new rectangle, and adds
    at most one region. *)
Lemma merge_step_covers merged r :
  (forall x, x ∈ merged -> exists o, o ∈ merge_step merged r /\ contained x o)
  /\ (exists o, o ∈ merge_step merged r /\ contained r o)
  /\ (length (merge_step merged r) <= S (length merged))%nat
  /\ merge_step merged r <> [].
Proof.
  destruct (merge_step_cases merged r) as [[-> ->] | (front & last & -> & ->)].
  - split; [intros x Hx; by apply elem_of_nil in Hx |].
    split; [exists r; split; [by left | apply contained_refl] |].
    split; [simpl; lia | discriminate].
  - destruct (intersects last r || same_line last r).
    + split; [| split; [| split]].
      * intros x Hx. apply elem_of_app in Hx as [Hx | Hx].
        -- exists x. split; [apply elem_of_app; by left | apply contained_refl].
        -- apply list_elem_of_singleton in Hx as ->. exists (union last r).
           split; [apply elem_of_app; right; by left | apply contained_union_l].
      * exists (union last r).
        split; [apply elem_of_app; right; by left | apply contained_union_r].
      * rewrite !length_app. simpl. lia.
      * by destruct front.
    + split; [| split; [| split]].
      * intros x Hx. exists x.
        split; [apply elem_of_app; by left | apply contained_refl].
      * exists r. split; [apply elem_of_app; right; by left | apply contained_refl].
      * rewrite !length_app. simpl. lia.
      * by destruct front.
Qed.

Lemma merge_loop_covers cleaned : forall merged,
  let out := fold_left merge_step cleaned merged in
  (forall x, x ∈ merged \/ x ∈ cleaned -> exists o, o ∈ out /\ contained x o)
  /\ (length out <= length merged + length cleaned)%nat
  /\ (merged <> [] \/ cleaned <> [] -> out <> []).
Proof.
  induction cleaned as [|r rest IH]; intros merged; cbn [fold_left].
  - split; [| split].
    + intros x [Hx | Hx]; [| by apply elem_of_nil in Hx].
      exists x. split; [exact Hx | apply contained_refl].
    + simpl. lia.
    + intros [H | H]; done.
  - destruct (merge_step_covers merged r) as (Hold & Hnew & Hlen & Hne).
    destruct (IH (merge_step merged r)) as (Hcov & Hlen' & Hne').
    cbv zeta in *. split; [| split].
    + intros x [Hx | Hx].
      * destruct (Hold x Hx) as (o & Ho & Hxo).
        destruct (Hcov o (or_introl Ho)) as (o' & Ho' & Hoo').
        exists o'. split; [exact Ho' | by eapply contained_trans].
      * apply elem_of_cons in Hx as [-> | Hx].
        -- destruct Hnew as (o & Ho & Hro).
           destruct (Hcov o (or_introl Ho)) as (o' & Ho' & Hoo').
           exists o'. split; [exact Ho' | by eapply contained_trans].
        -- by apply Hcov; right.
    + simpl. lia.
    + intros _. apply Hne'. by left.
Qed.

(** The regions stay in the order of their top edges. *)
Lemma merge_loop_sorted cleaned : forall merged,
  StronglySorted le_y0 merged ->
  StronglySorted le_y0 cleaned ->
  (forall a r, a ∈ merged -> r ∈ cleaned -> le_y0 a r) ->
  StronglySorted le_y0 (fold_left merge_step cleaned merged).
Proof.
  induction cleaned as [|r rest IH]; intros merged Hm Hc Hmc; [exact Hm |].
  cbn [fold_left]. apply StronglySorted_cons in Hc as [Hr Hrest].
  rewrite Forall_forall in Hr.
  assert (Hmr : forall a, a ∈ merged -> le_y0 a r) by (intros a Ha; apply Hmc; [done | by left]).
  destruct (merge_step_cases merged r) as [[-> ->] | (front & last & -> & ->)].
  - apply IH; [repeat constructor | exact Hrest |].
    intros a x Ha Hx. apply list_elem_of_singleton in Ha as ->. by apply Hr.
  - apply StronglySorted_app in Hm as (Hfl & Hfront & _).
    destruct (intersects last r || same_line last r).
    + assert (Hu : forall x, le_y0 last x -> le_y0 r x -> le_y0 (union last r) x).
      { intros x H1 H2. unfold le_y0, union in *. cbn [y0]. float_cases; lra. }
      assert (Hf : forall f, f ∈ front -> le_y0 f (union last r)).
      { intros f Hf. specialize (Hfl f last Hf ltac:(by left)).
        specialize (Hmr f ltac:(apply elem_of_app; by left)).
        unfold le_y0, union in *. cbn [y0]. float_cases; lra. }
      apply IH; [| exact Hrest |].
      * apply StronglySorted_app_2; [| exact Hfront | repeat constructor].
        intros f u Hf' Hu'. apply list_elem_of_singleton in Hu' as ->. by apply Hf.
      * intros a x Ha Hx. apply elem_of_app in Ha as [Ha | Ha].
        -- apply Hmc; [apply elem_of_app; by left | by right].
        -- apply list_elem_of_singleton in Ha as ->. apply Hu.
           ++ apply Hmc; [apply elem_of_app; right; by left | by right].
           ++ by apply Hr.
    + apply IH; [| exact Hrest |].
      * apply StronglySorted_app_2; [| | repeat constructor].
        -- intros a x Ha Hx. apply list_elem_of_singleton in Hx as ->. by apply Hmr.
        -- apply StronglySorted_app_2; [exact Hfl | exact Hfront | repeat constructor].
      * intros a x Ha Hx. apply elem_of_app in Ha as [Ha | Ha].
        -- apply Hmc; [exact Ha | by right].
        -- apply list_elem_of_singleton in Ha as ->. by apply Hr.
Qed.

Lemma merge_close_rects_padded rects :
  _merge_close_rects rects = List.map pad (merged_regions rects).
Proof. destruct rects; reflexivity. Qed.

Lemma merged_regions_sorted rects : StronglySorted le_y0 (merged_regions rects).
Proof.
  apply merge_loop_sorted; [constructor | apply sort_by_key_sorted |].
  intros a r Ha. by apply elem_of_nil in Ha.
Qed.

(** C4, as amended.  Two non-zero rectangles, taken in the order of the sort
    key, become one padded region when they intersect or pass the same-line
    test on the smaller height floored at one (overlap ratio at least 0.3,
    or centres closer than 0.8 times that height), and two padded regions
    otherwise; for every input the output is the padded list of merged
    regions, and the merged regions come in the order of their top edges
    [y0] before padding. *)
Theorem merge_close_rects_pair r1 r2 :
  truthy r1 = true -> truthy r2 = true ->
  let a := first_of r1 r2 in
  let b := second_of r1 r2 in
  (same_line a b = true <-> floored_same_line a b)
  /\ (intersects a b = true \/ floored_same_line a b ->
      _merge_close_rects [r1; r2] = [pad (union a b)])
  /\ (intersects a b = false -> ~ floored_same_line a b ->
      _merge_close_rects [r1; r2] = [pad a; pad b])
  /\ forall rects,
       _merge_close_rects rects = List.map pad (merged_regions rects)
       /\ StronglySorted le_y0 (merged_regions rects).
Proof.
  intros H1 H2 a b.
  assert (Hout : _merge_close_rects [r1; r2]
                 = if intersects a b || same_line a b
                   then [pad (union a b)] else [pad a; pad b]).
  { unfold _merge_close_rects, a, b, first_of, second_of.
    cbn [List.filter]. rewrite H1, H2.
    cbn [sort_by_key fold_right insert_by_key].
    destruct (key_le r1 r2); unfold merge_sorted; cbn [fold_left];
      unfold merge_step; cbn [List.rev app];
      match goal with |- context [intersects ?x ?y || same_line ?x ?y] =>
        destruct (intersects x y || same_line x y) end; reflexivity. }
  split; [apply same_line_floored |]. split; [| split].
  - intros H. rewrite Hout.
    replace (intersects a b || same_line a b) with true; [reflexivity |].
    symmetry. apply orb_true_iff.
    destruct H as [H | H]; [by left | right; by apply same_line_floored].
  - intros Hi Hs. rewrite Hout, Hi. cbn [orb].
    destruct (same_line a b) eqn:Hsl; [| reflexivity].
    by apply same_line_floored in Hsl.
  - intros rects.
    split; [apply merge_close_rects_padded | apply merged_regions_sorted].
Qed.

(** C9, as amended.  The merger covers every input rectangle that is not
    the zero rectangle by one of its output regions, returns at least one
    region when there is such an input, and never returns more regions than
    there are such inputs. *)
Theorem merge_close_rects_cover rects :
  let out := _merge_close_rects rects in
  ((exists r, r ∈ rects /\ truthy r = true) -> out <> [])
  /\ (forall r, r ∈ rects -> truthy r = true ->
                exists o, o ∈ out /\ contained r o)
  /\ (length out <= length (List.filter truthy rects))%nat
  /\ (length (List.filter truthy rects) <= length rects)%nat.
Proof.
  intros out. unfold out. rewrite merge_close_rects_padded.
  unfold merged_regions, merge_sorted.
  destruct (merge_loop_covers (sort_by_key (List.filter truthy rects)) [])
    as (Hcov & Hlen & Hne). cbv zeta in *.
  assert (Hin : forall r, r ∈ rects -> truthy r = true ->
                          r ∈ sort_by_key (List.filter truthy rects)).
  { intros r Hr Ht. rewrite sort_by_key_perm. apply list_elem_of_In.
    apply filter_In. split; [by apply list_elem_of_In | exact Ht]. }
  split; [| split; [| split]].
  - intros (r & Hr & Ht) Hnil. apply map_eq_nil in Hnil. revert Hnil. apply Hne.
    right. intros Hs. specialize (Hin r Hr Ht). rewrite Hs in Hin.
    by apply elem_of_nil in Hin.
  - intros r Hr Ht. destruct (Hcov r (or_intror (Hin r Hr Ht))) as (o & Ho & Hro).
    exists (pad o). split.
    + apply list_elem_of_In, in_map, list_elem_of_In, Ho.
    + eapply contained_trans; [exact Hro | apply contained_pad].
  - rewrite length_map. rewrite (Permutation_length (sort_by_key_perm _)) in Hlen.
    simpl in Hlen. exact Hlen.
  - apply filter_length_le.
Qed.

End MergerFacts.

(** C4, as stated, fails in each of its three parts.  A tall rectangle and
    one half a unit high that overlap by half of the smaller height stay
    apart; two rectangles half a unit high on different lines are merged;
    and after padding a tall region that starts lower comes out with a
    smaller [y0] than the region before it. *)
Lemma merge_close_rects_small_heights :
  let a1 := Geometry.mkRect 0 0 10 100 in
  let b1 := Geometry.mkRect 20 (399 # 4) 30 (401 # 4) in
  let a2 := Geometry.mkRect 0 0 10 (1 # 2) in
  let b2 := Geometry.mkRect 20 (5 # 8) 30 (9 # 8) in
  let a3 := Geometry.mkRect 0 0 10 1 in
  let b3 := Geometry.mkRect 20 (7 # 8) 30 (1607 # 8) in
  (MergerSpec.stated_same_line a1 b1
   /\ length (Merger._merge_close_rects [a1; b1]) = 2)
  /\ (MergerSpec.stated_other_line a2 b2
      /\ length (Merger._merge_close_rects [a2; b2]) = 1)
  /\ (exists p q, Merger._merge_close_rects [a3; b3] = [p; q]
                  /\ (Geometry.y0 q < Geometry.y0 p)%Q
                  /\ Merger.key_le p q = false).
Proof.
  cbv zeta. split; [| split].
  - split; [| reflexivity]. right. left. vm_compute. congruence.
  - split; [| reflexivity]. split; vm_compute; congruence.
  - eexists _, _. split; [reflexivity |]. split; vm_compute; congruence.
Qed.

(** C9, as stated, fails on the zero rectangle, which the merger drops: a
    list holding only that rectangle gives no region at all. *)
Lemma merge_close_rects_zero_rect :
  [Geometry.mkRect 0 0 0 0] <> []
  /\ Merger._merge_close_rects [Geometry.mkRect 0 0 0 0] = [].
Proof. split; [discriminate | reflexivity]. Qed.

Lemma merge_close_rects_pair_witness :
  Merger._merge_close_rects
    [Geometry.mkRect 30 1 40 13; Geometry.mkRect 0 0 10 12]
  = [Merger.pad (Merger.union (Geometry.mkRect 0 0 10 12)
                   (Geometry.mkRect 30 1 40 13))].
Proof.
  pose proof (merge_close_rects_pair (Geometry.mkRect 30 1 40 13)
                (Geometry.mkRect 0 0 10 12) eq_refl eq_refl) as (_ & H & _).
  apply H. right. left. vm_compute. congruence.
Defined.

Lemma merge_close_rects_cover_witness :
  Merger._merge_close_rects
    [Geometry.mkRect 0 0 10 12; Geometry.mkRect 0 0 0 0] <> [].
Proof.
  apply (merge_close_rects_cover
           [Geometry.mkRect 0 0 10 12; Geometry.mkRect 0 0 0 0]).
  exists (Geometry.mkRect 0 0 10 12). split; [by left | reflexivity].
Defined.

(** ** Font resolution *)

Section ResolverFacts.

Import Fonts Resolver.
Local Open Scope string_scope.

Variable env : Env.
Hypothesis no_file : forall p, isfile env p = false.










Variable _insert_text_fit : string -> option string -> attempt unit.


End ResolverFacts.


Section ChainFacts.

Import Fonts Resolver Chain.
Local Open Scope string_scope.

Variable env : Env.
Hypothesis no_file : forall p, isfile env p = false.

Variable isdir : string -> bool.
Variable tracked : string -> string -> attempt unit.
Variable _insert_text_fit : string -> option string -> attempt unit.






End ChainFacts.


Example map_font_to_base14_example :
  Resolver._map_font_to_base14 "ABCDEE+TimesNewRomanPS-BoldMT" = Some "Times-Bold"%string
  /\ Resolver._map_font_to_base14 "CMTI10" = Some "Times-Italic"%string
  /\ Resolver._map_font_to_base14 "Garamond" = None
  /\ Resolver._normalize_fontname "/ABCDEE+TimesNewRomanPS-BoldMT "
     = "timesnewromanps-boldmt"%string.
Proof. repeat split; reflexivity. Qed.

(** ** Merging and page ranges *)

Section MorePageFacts.

Import Pages PageSpec Passes RangeSpec.
Local Open Scope Z_scope.

Context {Page : Type}.
Implicit Types (doc src out : list Page) (X : gset Z).




(** *** What a page-range string selects *)

Lemma parse_positive_int_Ok value name v :
  _parse_positive_int value name = Ok v <-> Py.int value = Some v /\ 1 <= v.
Proof.
  unfold _parse_positive_int. destruct (Py.int value) as [parsed|].
  - destruct (parsed <=? 0) eqn:H.
    + apply Z.leb_le in H. split; [discriminate |]. intros [[= ->] ?]. lia.
    + apply Z.leb_gt in H. split.
      * intros [= ->]. split; [reflexivity | lia].
      * by intros [[= ->] _].
  - split; [discriminate | by intros [? _]].
Qed.

Lemma add_range_Ok n count : forall one_based X X',
  add_range n one_based count X = Ok X' ->
  (count <> 0%nat -> 1 <= one_based /\ one_based + Z.of_nat count - 1 <= n)
  /\ forall i, i ∈ X' <-> i ∈ X \/ one_based <= i + 1 < one_based + Z.of_nat count.
Proof.
  induction count as [|count IH]; intros one_based X X' H; cbn [add_range] in H.
  - injection H as <-. split; [done |]. intros i. split; [by left |].
    intros [? | ?]; [done | lia].
  - cbv zeta in H.
    destruct (out_of_bounds (one_based - 1) n) eqn:Hb; [discriminate |].
    apply out_of_bounds_false in Hb. apply IH in H as [Hrest Hmem].
    split.
    + intros _. destruct count; [lia |]. specialize (Hrest ltac:(done)). lia.
    + intros i. rewrite Hmem, elem_of_union, elem_of_singleton. split.
      * intros [[-> | ?] | ?]; [right; lia | by left | right; lia].
      * intros [? | ?]; [by left; right |].
        destruct (decide (i = one_based - 1)) as [-> | ?];
          [left; by left | right; lia].
Qed.

Lemma add_range_total n count : forall one_based X,
  (count <> 0%nat -> 1 <= one_based /\ one_based + Z.of_nat count - 1 <= n) ->
  exists X', add_range n one_based count X = Ok X'.
Proof.
  induction count as [|count IH]; intros one_based X H; cbn [add_range].
  - by eexists.
  - specialize (H ltac:(done)). cbv zeta.
    replace (out_of_bounds (one_based - 1) n) with false
      by (symmetry; apply out_of_bounds_false; lia).
    apply IH. intros _. lia.
Qed.

Lemma add_part_Ok n X part X' :
  add_part n X part = Ok X' ->
  exists first last,
    denotes part first last /\ 1 <= first <= last /\ last <= n
    /\ forall i, i ∈ X' <-> i ∈ X \/ first <= i + 1 <= last.
Proof.
  unfold add_part, denotes. intros H.
  destruct (Py.split_first "-" part) as [[start_s end_s]|].
  - apply bind_Ok in H as (first & Hfirst & H).
    apply bind_Ok in H as (last & Hlast & H).
    apply parse_positive_int_Ok in Hfirst as [Hfirst ?].
    apply parse_positive_int_Ok in Hlast as [Hlast ?].
    destruct (last <? first) eqn:Hord; [discriminate |]. apply Z.ltb_ge in Hord.
    apply add_range_Ok in H as [Hb Hmem]. exists first, last.
    split; [done |]. specialize (Hb ltac:(lia)).
    split; [lia |]. split; [lia |]. intros i. rewrite Hmem.
    split; intros [? | ?]; [by left | right; lia | by left | right; lia].
  - apply bind_Ok in H as (first & Hfirst & H). cbv zeta in H.
    apply parse_positive_int_Ok in Hfirst as [Hfirst ?].
    destruct (out_of_bounds (first - 1) n) eqn:Hb; [discriminate |].
    apply out_of_bounds_false in Hb. injection H as <-. exists first, first.
    split; [done |]. split; [lia |]. split; [lia |].
    intros i. rewrite elem_of_union, elem_of_singleton.
    split; [intros [-> | ?]; [right; lia | by left]
           | intros [? | ?]; [by right | left; lia]].
Qed.

Lemma add_part_total n X part first last :
  denotes part first last -> 1 <= first <= last -> last <= n ->
  exists X', add_part n X part = Ok X'.
Proof.
  unfold add_part, denotes. intros Hd Hord Hn.
  destruct (Py.split_first "-" part) as [[start_s end_s]|].
  - destruct Hd as [Hfirst Hlast].
    rewrite (proj2 (parse_positive_int_Ok _ _ first)) by (split; [done | lia]).
    cbn [bind].
    rewrite (proj2 (parse_positive_int_Ok _ _ last)) by (split; [done | lia]).
    cbn [bind]. replace (last <? first) with false by (symmetry; apply Z.ltb_ge; lia).
    apply add_range_total. intros _. lia.
  - destruct Hd as [Hfirst ->].
    rewrite (proj2 (parse_positive_int_Ok _ _ first)) by (split; [done | lia]).
    cbn [bind]. cbv zeta.
    replace (out_of_bounds (first - 1) n) with false
      by (symmetry; apply out_of_bounds_false; lia).
    by eexists.
Qed.

Lemma add_parts_Ok n parts : forall X X',
  add_parts n X parts = Ok X' ->
  (forall part, part ∈ parts ->
     exists first last,
       denotes part first last /\ 1 <= first <= last /\ last <= n)
  /\ forall i,
       i ∈ X' <->
       i ∈ X \/ exists part first last,
                  part ∈ parts /\ denotes part first last
                  /\ first <= i + 1 <= last.
Proof.
  induction parts as [|part rest IH]; intros X X' H; cbn [add_parts] in H.
  - injection H as <-. split.
    + intros part Hin. by apply elem_of_nil in Hin.
    + intros i. split; [by left |].
      intros [? | (part & ? & ? & Hin & _)]; [done | by apply elem_of_nil in Hin].
  - apply bind_Ok in H as (X1 & Hpart & H).
    apply add_part_Ok in Hpart as (first & last & Hd & Hord & Hn & Hmem1).
    apply IH in H as [Hwf Hmem]. split.
    + intros p Hin. apply elem_of_cons in Hin as [-> | Hin]; [| by apply Hwf].
      by exists first, last.
    + intros i. rewrite Hmem, Hmem1. split.
      * intros [[? | ?] | (p & a & b & Hin & ? & ?)].
        -- by left.
        -- right. exists part, first, last. split; [by left | done].
        -- right. exists p, a, b. split; [by right | done].
      * intros [? | (p & a & b & Hin & Hd' & ?)]; [by left; left |].
        apply elem_of_cons in Hin as [-> | Hin].
        -- left. right. unfold denotes in Hd, Hd'.
           destruct (Py.split_first "-" part) as [[? ?]|].
           ++ destruct Hd as [? ?], Hd' as [? ?].
              assert (a = first) by congruence. assert (b = last) by congruence. lia.
           ++ destruct Hd as [? ->], Hd' as [? ->].
              assert (a = first) by congruence. lia.
        -- right. by exists p, a, b.
Qed.

Lemma add_parts_total n parts : forall X,
  (forall part, part ∈ parts ->
     exists first last,
       denotes part first last /\ 1 <= first <= last /\ last <= n) ->
  exists X', add_parts n X parts = Ok X'.
Proof.
  induction parts as [|part rest IH]; intros X H; cbn [add_parts].
  - by eexists.
  - destruct (H part ltac:(by left)) as (first & last & Hd & Hord & Hn).
    destruct (add_part_total n X part first last Hd Hord Hn) as [X1 ->].
    cbn [bind]. apply IH. intros p Hp. apply H. by right.
Qed.

(** X2. A page-range string is accepted exactly when the document has a
    page, the string is not blank, and every entry is a page number or a
    range [first-last] with [1 <= first <= last <= page count]. *)
Theorem parse_page_ranges_accepts pages n :
  (exists X, parse_page_ranges pages n = Ok X) <-> well_formed pages n.
Proof.
  unfold parse_page_ranges, well_formed, entries. split.
  - intros [X H]. destruct (n <=? 0) eqn:Hn; [discriminate |].
    apply Z.leb_gt in Hn.
    destruct (Py.truthy (Py.strip pages)) eqn:Ht; [| discriminate].
    cbn [negb] in H. apply add_parts_Ok in H as [Hwf _].
    split; [exact Hn |]. split; [| exact Hwf].
    intros Hs. rewrite Hs in Ht. discriminate.
  - intros (Hn & Hs & Hwf).
    replace (n <=? 0) with false by (symmetry; apply Z.leb_gt; lia).
    destruct (Py.strip pages) eqn:Hc; [done |]. cbn [Py.truthy negb].
    by apply add_parts_total.
Qed.

(** X3. The set that an accepted page-range string yields holds exactly the
    0-based indices of the pages that some entry names. *)
Theorem parse_page_ranges_selects pages n X :
  parse_page_ranges pages n = Ok X ->
  forall i,
    i ∈ X <->
    exists part first last,
      part ∈ entries pages /\ denotes part first last
      /\ first <= i + 1 <= last.
Proof.
  unfold parse_page_ranges, entries. intros H i.
  destruct (n <=? 0); [discriminate |].
  destruct (negb (Py.truthy (Py.strip pages))); [discriminate |].
  apply add_parts_Ok in H as [_ Hmem]. rewrite Hmem. split.
  - intros [Hin | ?]; [by apply not_elem_of_empty in Hin | done].
  - intros ?. by right.
Qed.

Lemma kept_pages_none doc : forall i, kept_pages (∅ : gset Z) i doc = doc.
Proof.
  induction doc as [|p rest IH]; intros i; [reflexivity |]. cbn [kept_pages].
  rewrite bool_decide_eq_false_2 by apply not_elem_of_empty. by rewrite IH.
Qed.

(** X4. A page-range string that is not blank but holds no entry, such as a
    lone comma, is accepted and removes nothing: [remove_pages] returns the
    document as it is. *)
Theorem remove_pages_no_entry doc pages :
  doc <> [] -> Py.strip pages <> ""%string -> entries pages = [] ->
  remove_pages doc pages = Bytes doc.
Proof.
  intros Hdoc Hs He.
  assert (Hparse : parse_page_ranges pages (page_count doc) = Ok ∅).
  { unfold parse_page_ranges, entries in *.
    replace (page_count doc <=? 0) with false
      by (symmetry; apply Z.leb_gt; unfold page_count; destruct doc; [done | simpl; lia]).
    destruct (Py.strip pages) eqn:Hc; [done |]. cbn [Py.truthy negb].
    by rewrite He. }
  unfold remove_pages. rewrite Hparse. unfold page_count.
  rewrite (remove_loop_kept ∅ doc doc 0 []) by done.
  cbn [app]. rewrite kept_pages_none. by destruct doc.
Qed.

(** X5. The pages a replacement pass visits: when the checks pass, the
    indices ascend one by one and lie within the document; with scope
    ["range"] they are exactly the pages [fromPage..toPage], which requires
    [1 <= fromPage <= toPage <= page count], and with scope ["all"] they are
    all the pages. *)
Theorem page_indices_checked find_text scope from_page to_page n l :
  page_indices find_text scope from_page to_page n = Passed l ->
  find_text <> ""%string
  /\ (forall i, i ∈ l -> 0 <= i < n)
  /\ StronglySorted Z.lt l
  /\ (scope = "all"%string /\ l = seqZ 0 n
      \/ scope = "range"%string
         /\ exists f t,
              from_page = Some f /\ to_page = Some t
              /\ 1 <= f <= t /\ t <= n
              /\ forall i, i ∈ l <-> f <= i + 1 <= t).
Proof.
  unfold page_indices. intros H.
  destruct find_text as [|c ft]; [discriminate |]. cbn [Py.truthy negb] in H.
  split; [discriminate |].
  assert (Hsorted : forall a b, StronglySorted Z.lt (seqZ a b)).
  { intros a b. destruct (decide (0 <= b)) as [Hb | Hb].
    - rewrite <- (Z2Nat.id b Hb). generalize (Z.to_nat b). intros k. revert a.
      induction k as [|k IH]; intros a; [rewrite seqZ_nil by lia; constructor |].
      rewrite seqZ_cons by lia. constructor.
      + replace (Z.pred (Z.of_nat (S k))) with (Z.of_nat k) by lia. apply IH.
      + apply Forall_forall. intros x Hx. apply elem_of_seqZ in Hx. lia.
    - rewrite seqZ_nil by lia. constructor. }
  destruct (String.eqb scope "all") eqn:Hall; cbn [orb negb] in H.
  - apply String.eqb_eq in Hall as ->. cbn [String.eqb Ascii.eqb] in H.
    simpl in H. injection H as <-.
    split; [intros i Hi; apply elem_of_seqZ in Hi; lia |].
    split; [apply Hsorted | by left].
  - destruct (String.eqb scope "range") eqn:Hrange; [| discriminate].
    cbn [negb] in H. apply String.eqb_eq in Hrange as ->.
    destruct from_page as [f|]; [| discriminate].
    destruct to_page as [t|]; [| discriminate].
    destruct ((f <? 1) || (n <? f)) eqn:Hf; [discriminate |].
    destruct ((t <? 1) || (n <? t)) eqn:Ht; [discriminate |].
    destruct (t <? f) eqn:Hord; [discriminate |].
    apply orb_false_iff in Hf as [Hf1 Hf2]. apply orb_false_iff in Ht as [Ht1 Ht2].
    apply Z.ltb_ge in Hf1, Hf2, Ht1, Ht2, Hord. injection H as <-.
    split; [intros i Hi; apply elem_of_seqZ in Hi; lia |].
    split; [apply Hsorted |]. right. split; [reflexivity |].
    exists f, t. split; [reflexivity |]. split; [reflexivity |].
    split; [lia |]. split; [lia |]. intros i. rewrite elem_of_seqZ. lia.
Qed.

End MorePageFacts.


(** Documents without pages merge into nothing that can be saved. *)
Example merge_pdfs_no_pages :
  Passes.merge_pdfs [[]; ([] : list Z)] = ZeroPages.
Proof. reflexivity. Qed.

Lemma parse_page_ranges_selects_witness :
  (2%Z ∈ ({[ 0%Z ]} ∪ {[ 2%Z ]} ∪ {[ 3%Z ]} : gset Z)) <->
  exists part first last,
    part ∈ RangeSpec.entries "1, 3-4" /\ RangeSpec.denotes part first last
    /\ (first <= 2 + 1 <= last)%Z.
Proof.
  apply (parse_page_ranges_selects "1, 3-4" 4). vm_compute. reflexivity.
Defined.

Lemma remove_pages_no_entry_witness :
  Pages.remove_pages [10; 20; 30] " , " = Bytes [10; 20; 30].
Proof.
  apply remove_pages_no_entry; [discriminate | discriminate | reflexivity].
Defined.

Lemma page_indices_checked_witness :
  exists f t,
    Some 2%Z = Some f /\ Some 3%Z = Some t
    /\ (1 <= f <= t)%Z /\ (t <= 5)%Z
    /\ forall i, i ∈ [1; 2]%Z <-> (f <= i + 1 <= t)%Z.
Proof.
  destruct (page_indices_checked "name" "range" (Some 2%Z) (Some 3%Z) 5 [1; 2]%Z
              eq_refl) as (_ & _ & _ & [[H _] | [_ H]]).
  - discriminate H.
  - exact H.
Defined.

Example page_indices_example :
  Passes.page_indices "name" "all" None None 3 = Passed [0; 1; 2]%Z
  /\ Passes.page_indices "" "all" None None 3 = Refused FindTextRequired
  /\ Passes.page_indices "name" "pages" None None 3 = Refused BadScope
  /\ Passes.page_indices "name" "range" (Some 1%Z) None 3 = Refused RangeBoundsRequired
  /\ Passes.page_indices "name" "range" (Some 0%Z) (Some 2%Z) 3
     = Refused (FromPageOutOfRange 3)
  /\ Passes.page_indices "name" "range" (Some 2%Z) (Some 4%Z) 3
     = Refused (ToPageOutOfRange 3)
  /\ Passes.page_indices "name" "range" (Some 3%Z) (Some 2%Z) 3
     = Refused ToPageBeforeFromPage.
Proof. repeat split; reflexivity. Qed.

(** Case analysis on every [max] and [min], in the hypotheses as well. *)
Ltac float_cases_everywhere :=
  repeat match goal with
    | |- context [Float.max ?a ?b] =>
        let H := fresh "Hmax" in
        destruct (max_cases a b) as [[? H] | [? H]]; rewrite !H in *
    | |- context [Float.min ?a ?b] =>
        let H := fresh "Hmin" in
        destruct (min_cases a b) as [[? H] | [? H]]; rewrite !H in *
    | H0 : context [Float.max ?a ?b] |- _ =>
        let H := fresh "Hmax" in
        destruct (max_cases a b) as [[? H] | [? H]]; rewrite !H in *; clear H
    | H0 : context [Float.min ?a ?b] |- _ =>
        let H := fresh "Hmin" in
        destruct (min_cases a b) as [[? H] | [? H]]; rewrite !H in *; clear H
    end.

(** ** Sizes, colours and the preview scale *)

Section MetricsFacts.

Import Geometry Metrics.
Local Open Scope Q_scope.

(** X6. The estimated font size always lies between 6 and 48, grows with
    the height of the rectangle, and is 0.78 times the height whenever that
    value lies between 6 and 48. *)
Theorem estimate_font_size_bounds r1 r2 :
  (6 <= _estimate_font_size r1 /\ _estimate_font_size r1 <= 48)
  /\ (height r1 <= height r2 -> _estimate_font_size r1 <= _estimate_font_size r2)
  /\ (6 <= height r1 * (78 # 100) -> height r1 * (78 # 100) <= 48 ->
      _estimate_font_size r1 == height r1 * (78 # 100)).
Proof.
  unfold _estimate_font_size. cbv zeta.
  generalize (height r1) (height r2). intros h1 h2.
  split; [| split].
  - float_cases; lra.
  - intros Hh. float_cases_everywhere; lra.
  - intros Hlo Hhi. float_cases_everywhere; lra.
Qed.

Lemma channel_range c : (0 <= Z.land c 255 <= 255)%Z.
Proof.
  change 255%Z with (Z.ones 8). rewrite Z.land_ones by lia.
  pose proof (Z.mod_pos_bound c (2 ^ 8) ltac:(lia)). change (Z.ones 8) with 255%Z.
  change (2 ^ 8)%Z with 256%Z in *. lia.
Qed.

Lemma channel_unit c :
  0 <= Float.of_int (Z.land c 255) / 255 /\ Float.of_int (Z.land c 255) / 255 <= 1.
Proof.
  pose proof (channel_range c) as [Hlo Hhi]. unfold Float.of_int.
  rewrite Zle_Qle in Hlo, Hhi. change (inject_Z 0) with 0 in Hlo.
  change (inject_Z 255) with 255 in Hhi.
  generalize dependent (inject_Z (Z.land c 255)). intros q Hlo Hhi.
  split; [apply Qle_shift_div_l | apply Qle_shift_div_r]; lra.
Qed.

(** X7. Every channel of a decoded colour lies between 0 and 1, whatever
    the integer, and a colour packed as [r * 65536 + g * 256 + b] with
    channels in [0..255] decodes to [(r/255, g/255, b/255)]. *)
Theorem int_to_rgb01_channels color r g b :
  (let '(cr, cg, cb) := _int_to_rgb01 color in
   (0 <= cr /\ cr <= 1) /\ (0 <= cg /\ cg <= 1) /\ (0 <= cb /\ cb <= 1))
  /\ ((0 <= r <= 255)%Z -> (0 <= g <= 255)%Z -> (0 <= b <= 255)%Z ->
      _int_to_rgb01 (r * 65536 + g * 256 + b)
      = (Float.of_int r / 255, Float.of_int g / 255, Float.of_int b / 255)).
Proof.
  unfold _int_to_rgb01. cbv zeta. split.
  - repeat split; apply channel_unit.
  - intros Hr Hg Hb.
    assert (Hland : forall c, (0 <= c <= 255)%Z -> Z.land c 255 = c).
    { intros c Hc. change 255%Z with (Z.ones 8). rewrite Z.land_ones by lia.
      apply Z.mod_small. change (2 ^ 8)%Z with 256%Z. lia. }
    assert (H16 : Z.land (Z.shiftr (r * 65536 + g * 256 + b) 16) 255 = r).
    { rewrite Z.shiftr_div_pow2 by lia. change (2 ^ 16)%Z with 65536%Z.
      replace ((r * 65536 + g * 256 + b) / 65536)%Z with r
        by (apply Z.div_unique with (g * 256 + b)%Z; lia).
      by apply Hland. }
    assert (H8 : Z.land (Z.shiftr (r * 65536 + g * 256 + b) 8) 255 = g).
    { rewrite Z.shiftr_div_pow2 by lia. change (2 ^ 8)%Z with 256%Z.
      replace ((r * 65536 + g * 256 + b) / 256)%Z with (r * 256 + g)%Z
        by (apply Z.div_unique with b; lia).
      change 255%Z with (Z.ones 8). rewrite Z.land_ones by lia.
      change (2 ^ 8)%Z with 256%Z.
      symmetry. apply Z.mod_unique with r; lia. }
    assert (H0 : Z.land (r * 65536 + g * 256 + b) 255 = b).
    { change 255%Z with (Z.ones 8). rewrite Z.land_ones by lia.
      change (2 ^ 8)%Z with 256%Z.
      symmetry. apply Z.mod_unique with (r * 256 + g)%Z; lia. }
    by rewrite H16, H8, H0.
Qed.


End MetricsFacts.

(** ** Fitting and spreading text *)

Section InsertionFacts.

Import Geometry Fonts Insertion.
Local Open Scope Q_scope.

Variable Font_of_file : string -> attempt Font.
Variable Font_of_name : string -> attempt Font.
Variable text_length : Font -> string -> Q -> attempt Q.
Variable get_text_length : string -> string -> Q -> attempt Q.
Variable Page : Type.
Variable insert_text :
  Page -> Point -> string -> string -> option string -> Q -> Color -> attempt Page.

Local Abbreviation measure :=
  (_measure_text_width Font_of_file Font_of_name text_length get_text_length).

Lemma shrink_bounds turns text max_width fontname fontfile :
  forall size font_cache s font_cache',
    shrink Font_of_file Font_of_name text_length get_text_length turns text
      size max_width fontname fontfile font_cache = (Returned s, font_cache') ->
    4 <= size -> 4 <= s /\ s <= size.
Proof.
  induction turns as [|turns IH]; intros size font_cache s font_cache' H Hsize;
    cbn [shrink] in H.
  - injection H as <- _. split; lra.
  - destruct (measure text size fontname fontfile font_cache) as [[w|] fc];
      [| discriminate].
    destruct (Float.leb w max_width); [injection H as <- _; split; lra |].
    cbv zeta in H. destruct (Float.ltb (size * (97 # 100)) 4) eqn:Hnext.
    + injection H as <- _. split; lra.
    + apply ltb_ge in Hnext. apply IH in H; lra.
Qed.

Lemma scaled_down size max_width w0 :
  0 <= size -> 0 < w0 -> max_width <= w0 -> 0 <= max_width ->
  size * (max_width / w0) <= size.
Proof.
  intros Hsize Hw Hmw Hpos.
  assert (Hq : max_width / w0 <= 1) by (apply Qle_shift_div_r; lra).
  assert (Hq0 : 0 <= max_width / w0) by (apply Qle_shift_div_l; lra).
  generalize dependent (max_width / w0). intros q Hq Hq0. nra.
Qed.

(** X9. When [_insert_text_fit] inserts, it does so at the baseline of the
    size it fitted: the requested size when the measured width fits the
    rectangle width minus one (at least one), and otherwise a size of at
    least 4 that does not exceed the larger of 4 and the requested size. *)
Theorem insert_text_fit_size page rect text fontname fontfile fontsize color
    font_cache page' font_cache' :
  _insert_text_fit Font_of_file Font_of_name text_length get_text_length Page
    insert_text page rect text fontname fontfile fontsize color font_cache
  = (Returned page', font_cache') ->
  exists w0 font_cache0 size,
    measure text fontsize fontname fontfile font_cache = (Returned w0, font_cache0)
    /\ insert_text page
         (_baseline_point Font_of_file Font_of_name rect size fontname fontfile)
         text fontname fontfile size color = Returned page'
    /\ (w0 <= Float.max 1 (width rect - 1) -> size = fontsize)
    /\ (Float.max 1 (width rect - 1) < w0 ->
        4 <= size /\ (0 <= fontsize -> size <= Float.max 4 fontsize)).
Proof.
  unfold _insert_text_fit, fitted_size. cbv zeta. intros H.
  set (max_width := Float.max 1 (width rect - 1)) in *.
  assert (Hmw : 1 <= max_width) by (unfold max_width; float_cases; lra).
  destruct (measure text fontsize fontname fontfile font_cache) as [[w0|] fc0];
    [| discriminate].
  exists w0, fc0.
  destruct (Float.ltb max_width w0 && Float.ltb 0 w0) eqn:Hbig.
  - apply andb_true_iff in Hbig as [Hw Hpos]. apply ltb_lt in Hw, Hpos.
    destruct (shrink _ _ _ _ 4 text _ max_width fontname fontfile fc0)
      as [[size|] fc1] eqn:Hshrink; [| discriminate].
    injection H as H _. exists size. split; [reflexivity |]. split; [exact H |].
    split; [intros; lra |]. intros _.
    apply shrink_bounds in Hshrink; [| float_cases; lra].
    destruct Hshrink as [Hlo Hhi]. split; [exact Hlo |]. intros Hsize.
    pose proof (scaled_down fontsize max_width w0 Hsize Hpos) as Hdown.
    specialize (Hdown ltac:(lra) ltac:(lra)).
    revert Hhi. float_cases; lra.
  - injection H as H _. exists fontsize. split; [reflexivity |]. split; [exact H |].
    split; [reflexivity |]. intros Hw. exfalso.
    apply andb_false_iff in Hbig as [Hbig | Hbig]; apply ltb_ge in Hbig; lra.
Qed.

(** X10. The spacing added between distributed characters is never
    negative, is at most 2.5 times a non-negative font size, and is zero
    when the characters already fill the width. *)
Theorem spacing_bounds max_width total n_chars fontsize :
  0 <= spacing max_width total n_chars fontsize
  /\ (0 <= fontsize -> spacing max_width total n_chars fontsize
                       <= fontsize * (25 # 10))
  /\ (max_width <= total -> spacing max_width total n_chars fontsize == 0).
Proof.
  unfold spacing. cbv zeta.
  destruct (Float.ltb total max_width) eqn:Hfree.
  - apply ltb_lt in Hfree.
    generalize ((max_width - total) / Float.of_int (Z.max 1 (n_chars - 1))).
    intros extra. split; [| split].
    + float_cases; lra.
    + intros Hsize. float_cases; lra.
    + intros Hfull. lra.
  - split; [| split]; [float_cases; lra | intros Hsize; float_cases; lra
                      | intros _; float_cases; lra].
Qed.

End InsertionFacts.

Section DistributedFacts.

Import Geometry Fonts Insertion.
Local Open Scope Q_scope.

Variable Font_of_file : string -> attempt Font.
Variable Font_of_name : string -> attempt Font.
Variable text_length : Font -> string -> Q -> attempt Q.
Variable get_text_length : string -> string -> Q -> attempt Q.

Local Abbreviation measure :=
  (_measure_text_width Font_of_file Font_of_name text_length get_text_length).

Lemma measure_not_negative text fontsize fontname fontfile font_cache w font_cache' :
  (forall f t w, text_length f t fontsize = Returned w -> 0 <= w) ->
  (forall t n w, get_text_length t n fontsize = Returned w -> 0 <= w) ->
  measure text fontsize fontname fontfile font_cache = (Returned w, font_cache') ->
  0 <= w.
Proof.
  intros Hfont Hname. unfold _measure_text_width.
  destruct (given fontfile).
  - destruct (_get_font_obj _ _ _ _ _) as [[f|] cache].
    + destruct (text_length f text fontsize) as [w'|] eqn:Hw.
      * intros [= <- _]. by apply (Hfont f text).
      * intros [= H _]. by apply (Hname text "helv"%string).
    + intros [= H _]. by apply (Hname text "helv"%string).
  - intros [= H _]. by apply (Hname text (or_else (Some fontname) "helv")).
Qed.

Lemma measure_chars_widths fontsize fontname fontfile chars :
  forall font_cache widths font_cache',
    measure_chars Font_of_file Font_of_name text_length get_text_length chars
      fontsize fontname fontfile font_cache = (Returned widths, font_cache') ->
    length widths = length chars
    /\ ((forall f t w, text_length f t fontsize = Returned w -> 0 <= w) ->
        (forall t n w, get_text_length t n fontsize = Returned w -> 0 <= w) ->
        Forall (Qle 0) widths).
Proof.
  induction chars as [|ch rest IH]; intros font_cache widths font_cache';
    cbn [measure_chars].
  - intros [= <- _]. split; [reflexivity | constructor].
  - destruct (measure _ fontsize fontname fontfile font_cache)
      as [[w|] font_cache1] eqn:Hw; [| discriminate].
    destruct (measure_chars _ _ _ _ rest fontsize fontname fontfile font_cache1)
      as [[widths'|] font_cache2] eqn:Hrest; [| discriminate].
    intros [= <- _]. destruct (IH _ _ _ Hrest) as [Hlen Hpos].
    split; [cbn [length]; by rewrite Hlen |].
    intros Hfont Hname. constructor; [| by apply Hpos].
    by apply (measure_not_negative _ _ _ _ _ _ _ Hfont Hname Hw).
Qed.

Lemma placements_chars y extra chars : forall widths x,
  length widths = length chars ->
  List.map snd (placements x y chars widths extra) = chars
  /\ Forall (fun pc => py (fst pc) = y) (placements x y chars widths extra).
Proof.
  induction chars as [|ch rest IH]; intros [|w widths] x Hlen;
    try discriminate; cbn [placements List.map].
  - split; [reflexivity | constructor].
  - destruct (IH widths (x + (w + extra))) as [Hchars Hy];
      [by injection Hlen |].
    split; [by rewrite Hchars | by constructor].
Qed.

Lemma placements_advance y extra chars : forall widths x,
  0 <= extra -> Forall (Qle 0) widths ->
  Forall (fun pc => x <= px (fst pc)) (placements x y chars widths extra)
  /\ StronglySorted (fun a b => px (fst a) <= px (fst b))
       (placements x y chars widths extra).
Proof.
  induction chars as [|ch rest IH]; intros [|w widths] x Hextra Hpos;
    cbn [placements]; try solve [split; constructor].
  apply Forall_cons in Hpos as [Hw Hpos].
  destruct (IH widths (x + (w + extra)) Hextra Hpos) as [Hfrom Hsorted].
  assert (Hall : Forall (fun pc => x <= px (fst pc))
                   (placements (x + (w + extra)) y rest widths extra)).
  { eapply Forall_impl; [exact Hfrom |]. cbn beta. intros pc Hpc. lra. }
  split; [constructor; [cbn; lra | exact Hall] |].
  constructor; [exact Hsorted | exact Hall].
Qed.

Lemma insert_placed_sheet fontname fontfile fontsize color placed :
  forall page : Sheet.Page,
    insert_placed Sheet.Page Sheet.insert_text page placed fontname fontfile
      fontsize color
    = Returned
        (rev (List.map (fun pc => (fst pc, String (snd pc) EmptyString, fontsize))
                placed) ++ page)%list.
Proof.
  induction placed as [|[point ch] rest IH]; intros page; [reflexivity |].
  cbn [insert_placed Sheet.insert_text List.map rev fst snd].
  by rewrite IH, <- app_assoc.
Qed.

(** X11. What [_insert_text_distributed] puts on the page for a text of two
    characters or more: one insertion for each character of the text, in
    the order of the text and at the size asked for, all on the baseline
    of the rectangle, the first at its left edge; and when the measured
    widths are not negative, no character starts to the left of the one
    before it. *)
Theorem insert_text_distributed_characters
    (page page' : Sheet.Page) rect text fontname fontfile fontsize color
    font_cache font_cache' :
  (2 <= length (Py.chars text))%nat ->
  _insert_text_distributed Font_of_file Font_of_name text_length get_text_length
    Sheet.Page Sheet.insert_text page rect text fontname fontfile fontsize color
    font_cache = (Returned page', font_cache') ->
  exists placed,
    page' = (rev placed ++ page)%list
    /\ List.map Sheet.text_of placed
       = List.map (fun ch => String ch EmptyString) (Py.chars text)
    /\ Forall
         (fun e =>
            py (Sheet.at_point e)
            = py (_baseline_point Font_of_file Font_of_name rect fontsize
                    fontname fontfile)
            /\ Sheet.size_of e = fontsize)
         placed
    /\ (exists e rest, placed = e :: rest /\ px (Sheet.at_point e) = x0 rect)
    /\ ((forall f t w, text_length f t fontsize = Returned w -> 0 <= w) ->
        (forall t n w, get_text_length t n fontsize = Returned w -> 0 <= w) ->
        StronglySorted
          (fun a b => px (Sheet.at_point a) <= px (Sheet.at_point b)) placed).
Proof.
  intros Hlong. unfold _insert_text_distributed.
  destruct text as [|c0 text']; [cbn in Hlong; lia |]. cbn [Py.truthy negb].
  cbv zeta.
  replace (Z.of_nat (length (Py.chars (String c0 text'))) <=? 1)%Z with false
    by (symmetry; apply Z.leb_gt; lia).
  set (chars := Py.chars (String c0 text')) in *.
  destruct (measure_chars _ _ _ _ chars fontsize fontname fontfile font_cache)
    as [[widths|] font_cache1] eqn:Hwidths; [| discriminate].
  destruct (measure_chars_widths _ _ _ _ _ _ _ Hwidths) as [Hlen Hpos].
  set (base := _baseline_point Font_of_file Font_of_name rect fontsize fontname
                 fontfile).
  set (extra := spacing _ _ _ fontsize).
  rewrite insert_placed_sheet. intros [= Hpage _]. subst page'.
  destruct (placements_chars (py base) extra chars widths (px base) Hlen)
    as [Hchars Hy].
  set (placed := placements (px base) (py base) chars widths extra) in *.
  exists (List.map (fun pc => (fst pc, String (snd pc) EmptyString, fontsize)) placed).
  split; [reflexivity |]. split; [| split; [| split]].
  - rewrite <- Hchars, !List.map_map. reflexivity.
  - apply Forall_forall. intros e He.
    apply list_elem_of_In, in_map_iff in He as (pc & <- & Hpc).
    split; [| reflexivity]. cbn.
    eapply Forall_forall in Hy; [exact Hy | by apply list_elem_of_In].
  - assert (Hbase : px base = x0 rect).
    { unfold base, _baseline_point. by destruct (if given fontfile then _ else _). }
    unfold placed, chars. destruct widths as [|w widths]; [discriminate |].
    cbn [Py.chars list_ascii_of_string placements List.map].
    eexists. eexists. split; [reflexivity |]. exact Hbase.
  - intros Hfont Hname.
    assert (Hextra : 0 <= extra).
    { unfold extra, spacing. cbv zeta. float_cases; lra. }
    destruct (placements_advance (py base) extra chars widths (px base) Hextra
                (Hpos Hfont Hname)) as [_ Hsorted].
    fold placed in Hsorted. clearbody placed. clear Hchars Hy.
    induction Hsorted as [|pc rest Hrest IH Hall]; [constructor |].
    cbn [List.map]. constructor; [exact IH |].
    apply Forall_forall. intros e He.
    apply list_elem_of_In, in_map_iff in He as (pc' & <- & Hpc'). cbn.
    eapply Forall_forall in Hall; [exact Hall | by apply list_elem_of_In].
Qed.

End DistributedFacts.

Lemma insert_text_fit_size_witness :
  exists page' font_cache',
    Insertion._insert_text_fit Sample.Font_of_file Sample.Font_of_name
      Sheet.text_length Sheet.get_text_length Sheet.Page Sheet.insert_text
      [] (Geometry.mkRect 0 0 21 20) "abcdefgh" "emb" (Some "font_7.ttf"%string)
      10 (0, 0, 0)%Q None = (Returned page', font_cache')
    /\ exists w0 font_cache0 size,
         Insertion._measure_text_width Sample.Font_of_file Sample.Font_of_name
           Sheet.text_length Sheet.get_text_length "abcdefgh" 10 "emb"
           (Some "font_7.ttf"%string) None = (Returned w0, font_cache0)
         /\ Sheet.insert_text []
              (Fonts._baseline_point Sample.Font_of_file Sample.Font_of_name
                 (Geometry.mkRect 0 0 21 20) size "emb" (Some "font_7.ttf"%string))
              "abcdefgh" "emb" (Some "font_7.ttf"%string) size (0, 0, 0)%Q
            = Returned page'
         /\ ((w0 <= Float.max 1 (Geometry.width (Geometry.mkRect 0 0 21 20) - 1))%Q
             -> size = 10%Q)
         /\ ((Float.max 1 (Geometry.width (Geometry.mkRect 0 0 21 20) - 1) < w0)%Q ->
             (4 <= size)%Q /\ ((0 <= 10)%Q -> (size <= Float.max 4 10)%Q)).
Proof.
  eexists. eexists. split.
  - vm_compute. reflexivity.
  - eapply (insert_text_fit_size Sample.Font_of_file Sample.Font_of_name
             Sheet.text_length Sheet.get_text_length Sheet.Page Sheet.insert_text
             [] (Geometry.mkRect 0 0 21 20) "abcdefgh" "emb"
             (Some "font_7.ttf"%string) 10 (0, 0, 0)%Q None).
    vm_compute. reflexivity.
Defined.

Lemma insert_text_distributed_characters_witness :
  exists page' font_cache',
    Insertion._insert_text_distributed Sample.Font_of_file Sample.Font_of_name
      Sheet.text_length Sheet.get_text_length Sheet.Page Sheet.insert_text
      [] (Geometry.mkRect 0 0 41 20) "abc" "emb" (Some "font_7.ttf"%string)
      10 (0, 0, 0)%Q None = (Returned page', font_cache')
    /\ exists placed,
         page' = (rev placed ++ [])%list
         /\ List.map Sheet.text_of placed
            = List.map (fun ch => String ch EmptyString) (Py.chars "abc")
         /\ Forall
              (fun e =>
                 Geometry.py (Sheet.at_point e)
                 = Geometry.py
                     (Fonts._baseline_point Sample.Font_of_file
                        Sample.Font_of_name (Geometry.mkRect 0 0 41 20) 10 "emb"
                        (Some "font_7.ttf"%string))
                 /\ Sheet.size_of e = 10%Q)
              placed
         /\ (exists e rest,
               placed = e :: rest
               /\ Geometry.px (Sheet.at_point e)
                  = Geometry.x0 (Geometry.mkRect 0 0 41 20))
         /\ ((forall f t w, Sheet.text_length f t 10 = Returned w -> (0 <= w)%Q) ->
             (forall t n w, Sheet.get_text_length t n 10 = Returned w -> (0 <= w)%Q) ->
             StronglySorted
               (fun a b =>
                  (Geometry.px (Sheet.at_point a) <= Geometry.px (Sheet.at_point b))%Q)
               placed).
Proof.
  eexists. eexists. split.
  - vm_compute. reflexivity.
  - eapply (insert_text_distributed_characters Sample.Font_of_file
              Sample.Font_of_name Sheet.text_length Sheet.get_text_length
              [] _ (Geometry.mkRect 0 0 41 20) "abc" "emb"
              (Some "font_7.ttf"%string) 10 (0, 0, 0)%Q None).
    + cbn. lia.
    + vm_compute. reflexivity.
Defined.

(** Three characters, five units wide each, spread over a width of forty:
    they start at 0, 17.5 and 35. *)
Example insert_text_distributed_example :
  List.map (fun e => Qred (Geometry.px (Sheet.at_point e)))
    (match fst (Insertion._insert_text_distributed Sample.Font_of_file
                  Sample.Font_of_name Sheet.text_length Sheet.get_text_length
                  Sheet.Page Sheet.insert_text
                  [] (Geometry.mkRect 0 0 41 20) "abc" "emb"
                  (Some "font_7.ttf"%string) 10 (0, 0, 0)%Q None) with
     | Returned page' => rev page'
     | Raised => []
     end)
  = [0; 35 # 2; 35]%Q.
Proof. vm_compute. reflexivity. Qed.

Example fitted_size_example :
  fst (Insertion.fitted_size Sample.Font_of_file Sample.Font_of_name
         Sheet.text_length Sheet.get_text_length (Geometry.mkRect 0 0 21 20)
         "abcdefgh" "emb" (Some "font_7.ttf"%string) 10 None)
  = Returned (Float.max 4 (10 * (Float.max 1 (21 - 0 - 1) / (10 * 8 * (1 # 2)))))%Q
  /\ fst (Insertion.fitted_size Sample.Font_of_file Sample.Font_of_name
            Sheet.text_length Sheet.get_text_length (Geometry.mkRect 0 0 21 20)
            "ab" "emb" (Some "font_7.ttf"%string) 10 None)
     = Returned 10%Q.
Proof. split; vm_compute; reflexivity. Qed.

(** ** The font cache, the resolved paths and the font directories *)

Section CacheFacts.

Import Fonts.

(** X12. Once [_get_font_obj] has returned a font object, the cache holds it
    under the key of the call: a second call returns the same object and
    leaves the cache as it is, whatever opening the font would now do; a
    call that fails to open the font leaves the cache unchanged. *)
Theorem get_font_obj_cached
    (Font_of_file Font_of_name Font_of_file' Font_of_name' : string -> attempt Font)
    (fontname : string) (fontfile : option string)
    (cache cache' : gmap (string * string) Font) :
  (forall f,
     _get_font_obj Font_of_file Font_of_name fontname fontfile cache
     = (Returned f, cache') ->
     cache' !! (or_else fontfile "", or_else (Some (Py.strip fontname)) "helv")
     = Some f
     /\ _get_font_obj Font_of_file' Font_of_name' fontname fontfile cache'
        = (Returned f, cache'))
  /\ (_get_font_obj Font_of_file Font_of_name fontname fontfile cache
      = (Raised, cache') -> cache' = cache).
Proof.
  unfold _get_font_obj. cbv zeta.
  set (key := (or_else fontfile "", or_else (Some (Py.strip fontname)) "helv")).
  split.
  - intros f H. destruct (cache !! key) as [got|] eqn:Hhit.
    + injection H as <- <-. by rewrite Hhit.
    + destruct (if given fontfile then _ else _) as [f'|]; [| discriminate].
      injection H as <- <-. by rewrite lookup_insert_eq.
  - destruct (cache !! key); [discriminate |].
    destruct (if given fontfile then _ else _); intros H; congruence.
Qed.

End CacheFacts.

Section PathFacts.

Import Fonts Resolver.
Local Open Scope string_scope.

Variable env : Env.

Lemma first_existing_isfile paths p :
  _first_existing env paths = Some p -> isfile env p = true /\ p ∈ paths.
Proof.
  induction paths as [|q rest IH]; [discriminate |]. cbn [_first_existing].
  destruct (Py.truthy q && isfile env q) eqn:Hq.
  - intros [= ->]. apply andb_true_iff in Hq as [_ Hq]. split; [exact Hq | by left].
  - intros H. destruct (IH H) as [? ?]. split; [done | by right].
Qed.

Lemma windows_font_path_isfile filename p :
  _windows_font_path env filename = Some p -> isfile env p = true.
Proof.
  unfold _windows_font_path. cbv zeta.
  destruct (isfile env _) eqn:H; [| discriminate]. by intros [= <-].
Qed.

Lemma windows_family_isfile regular bold_ italic_ both is_bold is_italic p :
  windows_family env regular bold_ italic_ both is_bold is_italic = Some p ->
  isfile env p = true.
Proof.
  unfold windows_family.
  destruct (is_bold && is_italic), is_bold, is_italic;
    apply windows_font_path_isfile.
Qed.

Lemma computer_modern_isfile bold italic p :
  _try_computer_modern_fontfile env bold italic = Some p -> isfile env p = true.
Proof.
  unfold _try_computer_modern_fontfile. cbv zeta. intros H.
  by apply first_existing_isfile in H as [? _].
Qed.

Lemma native_isfile fontname bold italic p :
  _try_system_fontfile_native env fontname bold italic = Some p ->
  isfile env p = true.
Proof.
  unfold _try_system_fontfile_native. cbv zeta.
  destruct (negb (Py.truthy (_normalize_fontname fontname))); [discriminate |].
  destruct (_infer_bold_italic (Py.lower fontname)) as [inferred_bold inferred_italic].
  destruct (Py.any_in _ (_normalize_fontname fontname)) eqn:Hcm.
  - destruct (_try_computer_modern_fontfile env _ _) as [cm|] eqn:Hfound.
    + apply computer_modern_isfile in Hfound.
      destruct (given (Some cm)); [by intros [= <-] |].
      destruct (os_name_nt env).
      * repeat match goal with
               | |- (if ?c then _ else _) = Some _ -> _ => destruct c
               end; first [apply windows_family_isfile | discriminate].
      * intros H. by apply first_existing_isfile in H as [? _].
    + cbn [given]. destruct (os_name_nt env).
      * repeat match goal with
               | |- (if ?c then _ else _) = Some _ -> _ => destruct c
               end; first [apply windows_family_isfile | discriminate].
      * intros H. by apply first_existing_isfile in H as [? _].
  - cbn [given]. destruct (os_name_nt env).
    + repeat match goal with
             | |- (if ?c then _ else _) = Some _ -> _ => destruct c
             end; first [apply windows_family_isfile | discriminate].
    + intros H. by apply first_existing_isfile in H as [? _].
Qed.

(** X13. Whatever the font name, weight and slant, a path returned by
    [_try_system_fontfile_native] is the path of an existing file, and an
    empty normalised name gives no path. *)
Theorem native_path_exists fontname bold italic :
  (forall p, _try_system_fontfile_native env fontname bold italic = Some p ->
             isfile env p = true)
  /\ (_normalize_fontname fontname = "" ->
      _try_system_fontfile_native env fontname bold italic = None).
Proof.
  split.
  - intros p. apply native_isfile.
  - unfold _try_system_fontfile_native. cbv zeta. intros ->. reflexivity.
Qed.

End PathFacts.

Section ScanFacts.

Import Fonts Resolver ResolverSpec.
Local Open Scope string_scope.

Variable env : Env.

Lemma scan_names_sound family_key bold italic dirs d src all_names names :
  (d, src) ∈ dirs -> listdir env d = Returned all_names ->
  (forall fname, fname ∈ names -> fname ∈ all_names) ->
  forall best,
    sound_best env family_key bold italic dirs best ->
    sound_best env family_key bold italic dirs
      (scan_names env family_key bold italic d src names best).
Proof.
  intros Hd Hlist. unfold scan_names.
  induction names as [|fname rest IH]; intros Hsub best Hbest; [exact Hbest |].
  cbn [fold_left]. apply IH; [intros f Hf; apply Hsub; by right |].
  destruct best as [[best_score best_path] best_src].
  destruct (Py.endswith ".ttf" (Py.lower fname)
            || Py.endswith ".otf" (Py.lower fname)) eqn:Hext;
    cbn [negb]; [| exact Hbest].
  destruct (_score_font_filename fname family_key bold italic <=? best_score)%Z
    eqn:Hscore; [exact Hbest |].
  destruct (isfile env (join env d fname)) eqn:Hfile; [| exact Hbest].
  apply Z.leb_gt in Hscore. destruct Hbest as [Hpos _].
  split; [lia |]. intros p [= <-]. split; [exact Hfile |]. split; [lia |].
  exists d, fname, all_names. repeat split; try done. apply Hsub. by left.
Qed.

Lemma scan_dirs_sound family_key bold italic dirs rest :
  (forall pair, pair ∈ rest -> pair ∈ dirs) ->
  forall best,
    sound_best env family_key bold italic dirs best ->
    sound_best env family_key bold italic dirs
      (scan_dirs env family_key bold italic rest best).
Proof.
  unfold scan_dirs.
  induction rest as [|[d src] rest IH]; intros Hsub best Hbest; [exact Hbest |].
  cbn [fold_left]. apply IH; [intros pair Hp; apply Hsub; by right |].
  destruct (listdir env d) as [names|] eqn:Hlist; [| exact Hbest].
  apply (scan_names_sound _ _ _ _ d src names names); try done.
  apply Hsub. by left.
Qed.

Lemma custom_isfile fontname bold italic p src :
  _try_custom_fontfile_with_source env fontname bold italic = (Some p, src) ->
  isfile env p = true.
Proof.
  unfold _try_custom_fontfile_with_source. cbv zeta.
  destruct (negb (Py.truthy (_normalize_fontname fontname))); [discriminate |].
  destruct (Py.any_in _ (_normalize_fontname fontname)).
  - intros [= Hp _]. by apply first_existing_isfile in Hp as [? _].
  - destruct (negb _ && _); [discriminate |].
    pose proof (scan_dirs_sound
                  (or_else (_family_key_from_norm (_normalize_fontname fontname))
                     (_normalize_fontname fontname))
                  bold italic (custom_dirs env) (custom_dirs env)
                  (fun _ H => H) (0%Z, None, "")) as Hsound.
    destruct (scan_dirs env _ bold italic (custom_dirs env) (0%Z, None, ""))
      as [[best_score best_path] best_src].
    intros [= -> ->].
    destruct Hsound as [_ Hsound]; [split; [lia | discriminate] |].
    by destruct (Hsound p eq_refl) as (Hfile & _).
Qed.

(** X14. A path that [_try_custom_fontfile_with_source] returns is the path
    of an existing file; for a name without a Computer Modern code it is a
    file with a [.ttf] or [.otf] extension listed in one of the custom
    directories, its score for the requested family, weight and slant is
    positive, and the label returned is the label of that directory. *)
Theorem custom_fontfile_listed fontname bold italic p src :
  _try_custom_fontfile_with_source env fontname bold italic = (Some p, src) ->
  isfile env p = true
  /\ (computer_modern_name fontname = false ->
      exists score,
        (0 < score)%Z
        /\ listed_font env (custom_dirs env) p src score (scan_key fontname)
             bold italic).
Proof.
  intros Hgot. split; [by apply custom_isfile in Hgot |].
  revert Hgot.
  unfold _try_custom_fontfile_with_source, computer_modern_name, scan_key.
  cbv zeta.
  destruct (negb (Py.truthy (_normalize_fontname fontname))); [discriminate |].
  destruct (Py.any_in _ (_normalize_fontname fontname)); [discriminate |].
  destruct (negb (given (_family_key_from_norm (_normalize_fontname fontname)))
            && (Py.len (_normalize_fontname fontname) <? 3)%Z); [discriminate |].
  pose proof (scan_dirs_sound
                (or_else (_family_key_from_norm (_normalize_fontname fontname))
                   (_normalize_fontname fontname))
                bold italic (custom_dirs env) (custom_dirs env)
                (fun _ H => H) (0%Z, None, "")) as Hsound.
  destruct (scan_dirs env _ bold italic (custom_dirs env) (0%Z, None, ""))
    as [[best_score best_path] best_src].
  intros [= -> ->] _.
  destruct Hsound as [_ Hsound]; [split; [lia | discriminate] |].
  destruct (Hsound p eq_refl) as (_ & Hpos & Hlisted).
  by exists best_score.
Qed.

(** X15. A path that [_try_system_fontfile_with_source] returns is the path
    of an existing file and comes with a label that is not empty; the label
    is ["system"] whenever no path is returned. *)
Theorem system_fontfile_with_source_sound fontname bold italic :
  (forall p label,
     _try_system_fontfile_with_source env fontname bold italic = (Some p, label) ->
     isfile env p = true /\ label <> "")
  /\ (forall label,
        _try_system_fontfile_with_source env fontname bold italic = (None, label) ->
        label = "system").
Proof.
  unfold _try_system_fontfile_with_source. cbv zeta.
  destruct (_infer_bold_italic (Py.lower fontname)) as [inferred_bold inferred_italic].
  pose proof (custom_isfile fontname (flag bold inferred_bold)
                (flag italic inferred_italic)) as Hcustom.
  pose proof (native_isfile env fontname bold italic) as Hnative.
  destruct (_try_custom_fontfile_with_source env fontname _ _) as [custom custom_src].
  split.
  - intros p label. destruct custom as [c|]; cbn [given].
    + destruct (Py.truthy c) eqn:Hc.
      * intros [= <- <-]. split; [by apply (Hcustom c custom_src) |].
        unfold or_else. destruct (Py.truthy custom_src) eqn:Hs; [| discriminate].
        intros ->. discriminate.
      * intros [= H <-]. split; [by apply Hnative | discriminate].
    + intros [= H <-]. split; [by apply Hnative | discriminate].
  - intros label. destruct custom as [c|]; cbn [given].
    + destruct (Py.truthy c); [discriminate | by intros [= _ <-]].
    + by intros [= _ <-].
Qed.

End ScanFacts.

Section DirsFacts.

Import Fonts Dirs.
Local Open Scope string_scope.

Lemma dedup_sound pairs : forall seen,
  let out := dedup pairs seen in
  NoDup (List.map fst out)
  /\ (forall d src, (d, src) ∈ out -> d <> "" /\ (d ∉ seen) /\ (d, src) ∈ pairs)
  /\ (forall d src, (d, src) ∈ pairs -> d <> "" -> d ∉ seen ->
                    exists src', (d, src') ∈ out).
Proof.
  induction pairs as [|[d src] rest IH]; intros seen; cbn [dedup].
  - split; [constructor |]. split; intros ? ? H; by apply elem_of_nil in H.
  - destruct (Py.truthy d) eqn:Hd; cbn [andb].
    + destruct (decide (d ∈ seen)) as [Hin | Hnot].
      * rewrite bool_decide_eq_true_2 by done. cbn [negb].
        destruct (IH seen) as (Hnd & Hout & Hall). cbv zeta in *.
        split; [exact Hnd |]. split.
        -- intros d' s' H. destruct (Hout d' s' H) as (? & ? & ?).
           repeat split; try done. by right.
        -- intros d' s' H Hne Hns. apply elem_of_cons in H as [[= -> ->] | H];
             [done | by apply (Hall d' s')].
      * rewrite bool_decide_eq_false_2 by done. cbn [negb].
        destruct (IH ({[ d ]} ∪ seen)) as (Hnd & Hout & Hall). cbv zeta in *.
        split; [| split].
        -- cbn [List.map fst]. constructor; [| exact Hnd].
           intros Hin. apply list_elem_of_In, in_map_iff in Hin
             as ([d' s'] & Heq & Hin).
           simpl in Heq. subst d'. apply list_elem_of_In in Hin.
           destruct (Hout d s' Hin) as (_ & Hns & _).
           apply Hns. apply elem_of_union. left. by apply elem_of_singleton.
        -- intros d' s' H. apply elem_of_cons in H as [[= -> ->] | H].
           ++ split; [by destruct d | split; [done | by left]].
           ++ destruct (Hout d' s' H) as (? & Hns & ?). split; [done |].
              split; [| by right]. intros Hs. apply Hns. apply elem_of_union.
              by right.
        -- intros d' s' H Hne Hns. destruct (decide (d' = d)) as [-> | Hdd].
           ++ exists src. by left.
           ++ apply elem_of_cons in H as [[= -> ->] | H]; [done |].
              destruct (Hall d' s' H Hne) as [s'' Hs''].
              { intros Hs. apply elem_of_union in Hs as [Hs | Hs];
                  [by apply elem_of_singleton in Hs | done]. }
              exists s''. by right.
    + destruct (IH seen) as (Hnd & Hout & Hall). cbv zeta in *.
      split; [exact Hnd |]. split.
      * intros d' s' H. destruct (Hout d' s' H) as (? & ? & ?).
        repeat split; try done. by right.
      * intros d' s' H Hne Hns. apply elem_of_cons in H as [[= -> ->] | H];
          [by destruct d | by apply (Hall d' s')].
Qed.

(** X16. The font directories come without an empty path and without a
    repeated path, each from the uploaded, configured or bundled
    directories; every one of those that is not empty is among them, and an
    uploaded directory always carries the label ["uploaded"]. *)
Theorem custom_fonts_dirs_distinct extra_font_dirs PDF_EDITOR_FONTS_DIR bundled :
  let out :=
    _custom_fonts_dirs_with_source extra_font_dirs PDF_EDITOR_FONTS_DIR bundled in
  NoDup (_custom_fonts_dirs extra_font_dirs PDF_EDITOR_FONTS_DIR bundled)
  /\ (forall d src, (d, src) ∈ out ->
        d <> ""
        /\ (d, src) ∈ labelled extra_font_dirs PDF_EDITOR_FONTS_DIR bundled)
  /\ (forall d src,
        (d, src) ∈ labelled extra_font_dirs PDF_EDITOR_FONTS_DIR bundled ->
        d <> "" -> exists src', (d, src') ∈ out)
  /\ (forall d src, d ∈ extra_font_dirs -> (d, src) ∈ out -> src = "uploaded").
Proof.
  unfold _custom_fonts_dirs, _custom_fonts_dirs_with_source. cbv zeta.
  destruct (dedup_sound (labelled extra_font_dirs PDF_EDITOR_FONTS_DIR bundled) ∅)
    as (Hnd & Hout & Hall). cbv zeta in *.
  split; [exact Hnd |]. split; [| split].
  - intros d src H. destruct (Hout d src H) as (? & _ & ?). by split.
  - intros d src H Hne. apply (Hall d src H Hne), not_elem_of_empty.
  - intros d src Hd Hin. destruct (Hout d src Hin) as (Hne & _ & _).
    set (uploaded := List.map (fun d => (d, "uploaded"))
                       (List.filter Py.truthy extra_font_dirs)).
    assert (Hsplit : exists tail,
               labelled extra_font_dirs PDF_EDITOR_FONTS_DIR bundled
               = (uploaded ++ tail)%list).
    { unfold labelled. cbv zeta. fold uploaded.
      destruct (Py.truthy _), (given bundled).
      - eexists. rewrite <- app_assoc. reflexivity.
      - eexists. reflexivity.
      - eexists. reflexivity.
      - exists []. by rewrite app_nil_r. }
    destruct Hsplit as [tail Hsplit]. rewrite Hsplit in Hin. clear Hsplit.
    assert (Hup : (d, "uploaded") ∈ uploaded).
    { apply list_elem_of_In, in_map_iff. exists d. split; [reflexivity |].
      apply filter_In. split; [by apply list_elem_of_In | by destruct d]. }
    assert (Hlab : forall d' s', (d', s') ∈ uploaded -> s' = "uploaded").
    { intros d' s' H. apply list_elem_of_In, in_map_iff in H as (? & [= _ <-] & _).
      reflexivity. }
    clearbody uploaded. clear Hout Hall Hnd.
    revert Hin. generalize (∅ : gset string).
    induction uploaded as [|[d0 s0] uploaded IH]; intros seen;
      [by apply elem_of_nil in Hup |].
    cbn [app dedup]. assert (Hs0 : s0 = "uploaded") by (apply (Hlab d0); by left).
    subst s0.
    destruct (decide (d0 = d)) as [-> | Hdd].
    + destruct (Py.truthy d && negb (bool_decide (d ∈ seen))) eqn:Hc.
      * intros Hin. apply elem_of_cons in Hin as [[= ->] | Hin]; [reflexivity |].
        destruct (dedup_sound (uploaded ++ tail) ({[ d ]} ∪ seen))
          as (_ & Hout' & _). cbv zeta in Hout'.
        destruct (Hout' d src Hin) as (_ & Hns & _). exfalso. apply Hns.
        apply elem_of_union. left. by apply elem_of_singleton.
      * intros Hin.
        destruct (dedup_sound (uploaded ++ tail) seen) as (_ & Hout' & _).
        cbv zeta in Hout'. destruct (Hout' d src Hin) as (_ & Hns & _).
        exfalso. destruct d; [done |]. cbn [Py.truthy andb] in Hc.
        apply negb_false_iff, bool_decide_eq_true in Hc. done.
    + apply elem_of_cons in Hup as [[= ->] | Hup]; [done |].
      destruct (Py.truthy d0 && negb (bool_decide (d0 ∈ seen))).
      * intros Hin. apply elem_of_cons in Hin as [[= -> _] | Hin]; [done |].
        apply (IH Hup (fun d' s' H => Hlab d' s' ltac:(by right)) _ Hin).
      * apply (IH Hup (fun d' s' H => Hlab d' s' ltac:(by right))).
Qed.

(** X17. [_replacement_introduces_new_chars] answers false exactly when
    every character of the replacement occurs in the original; in
    particular a text never introduces characters into itself, and the
    empty replacement introduces none. *)
Theorem replacement_introduces_new_chars_iff original_text replacement_text :
  (_replacement_introduces_new_chars original_text replacement_text = false
   <-> forall ch, ch ∈ Py.chars replacement_text -> ch ∈ Py.chars original_text)
  /\ _replacement_introduces_new_chars original_text original_text = false
  /\ _replacement_introduces_new_chars original_text "" = false.
Proof.
  assert (Hiff : forall o r,
             _replacement_introduces_new_chars o r = false
             <-> forall ch, ch ∈ Py.chars r -> ch ∈ Py.chars o).
  { intros o r. unfold _replacement_introduces_new_chars. cbv zeta.
    induction (Py.chars r) as [|c rest IH]; cbn [existsb].
    - split; [intros _ ch H; by apply elem_of_nil in H | reflexivity].
    - rewrite orb_false_iff, IH, negb_false_iff, bool_decide_eq_true,
        elem_of_list_to_set. split.
      + intros [Hc Hrest] ch Hin.
        apply elem_of_cons in Hin as [-> | Hin]; [exact Hc | by apply Hrest].
      + intros H. split; [apply H; by left | intros ch Hin; apply H; by right]. }
  split; [apply Hiff |]. split; [by apply Hiff | reflexivity].
Qed.

End DirsFacts.

Section ScanBest.

Import Fonts Resolver ResolverSpec.
Local Open Scope string_scope.

Variable env : Env.
Variables (family_key : string) (bold italic : bool).

Local Abbreviation score fname := (_score_font_filename fname family_key bold italic).

Lemma scan_names_grows d src names : forall best,
  (score_of best <= score_of (scan_names env family_key bold italic d src names best))%Z.
Proof.
  unfold scan_names. induction names as [|fname rest IH]; intros best;
    cbn [fold_left]; [lia |].
  etransitivity; [| apply IH]. destruct best as [[best_score best_path] best_src].
  destruct (negb _); [cbn; lia |]. cbv zeta.
  destruct (score fname <=? best_score)%Z eqn:Hs; [cbn; lia |].
  apply Z.leb_gt in Hs. destruct (isfile env _); cbn; lia.
Qed.

Lemma scan_names_covers d src names fname : forall best,
  fname ∈ names -> font_extension fname = true ->
  isfile env (join env d fname) = true ->
  (score fname <= score_of (scan_names env family_key bold italic d src names best))%Z.
Proof.
  intros best Hin Hext Hfile. revert best.
  induction names as [|f rest IH]; intros best; [by apply elem_of_nil in Hin |].
  apply elem_of_cons in Hin as [<- | Hin]; [| apply (IH Hin)].
  etransitivity; [| apply (scan_names_grows d src rest)].
  destruct best as [[best_score best_path] best_src].
  unfold font_extension in Hext. rewrite Hext. cbn [negb]. cbv zeta.
  destruct (score fname <=? best_score)%Z eqn:Hs.
  - apply Z.leb_le in Hs. exact Hs.
  - rewrite Hfile. cbn. lia.
Qed.

Lemma scan_names_found d src names : forall best,
  found_best best -> found_best (scan_names env family_key bold italic d src names best).
Proof.
  unfold scan_names. induction names as [|fname rest IH]; intros best Hbest;
    cbn [fold_left]; [exact Hbest |].
  apply IH. destruct best as [[best_score best_path] best_src].
  destruct (negb _); [exact Hbest |]. cbv zeta.
  destruct (score fname <=? best_score)%Z eqn:Hs; [exact Hbest |].
  apply Z.leb_gt in Hs. destruct (isfile env _); [| exact Hbest].
  destruct Hbest as [Hpos _]. unfold found_best, score_of, path_of in *.
  cbn [fst snd] in *. split; [lia | by eexists].
Qed.

Lemma scan_dirs_grows dirs : forall best,
  (score_of best <= score_of (scan_dirs env family_key bold italic dirs best))%Z.
Proof.
  unfold scan_dirs. induction dirs as [|[d src] rest IH]; intros best;
    cbn [fold_left]; [lia |].
  etransitivity; [| apply IH]. destruct (listdir env d); [| lia].
  apply scan_names_grows.
Qed.

Lemma scan_dirs_covers dirs d src names fname : forall best,
  (d, src) ∈ dirs -> listdir env d = Returned names ->
  fname ∈ names -> font_extension fname = true ->
  isfile env (join env d fname) = true ->
  (score fname <= score_of (scan_dirs env family_key bold italic dirs best))%Z.
Proof.
  intros best Hd Hlist Hin Hext Hfile. revert best.
  induction dirs as [|[d0 s0] rest IH]; intros best; [by apply elem_of_nil in Hd |].
  apply elem_of_cons in Hd as [[= <- <-] | Hd]; [| apply (IH Hd)].
  unfold scan_dirs. cbn [fold_left]. rewrite Hlist.
  etransitivity; [| apply (scan_dirs_grows rest)].
  by apply scan_names_covers.
Qed.

Lemma scan_dirs_found dirs : forall best,
  found_best best -> found_best (scan_dirs env family_key bold italic dirs best).
Proof.
  unfold scan_dirs. induction dirs as [|[d src] rest IH]; intros best Hbest;
    cbn [fold_left]; [exact Hbest |].
  apply IH. destruct (listdir env d); [| exact Hbest].
  by apply scan_names_found.
Qed.

End ScanBest.

Section ScanComplete.

Import Fonts Resolver ResolverSpec.
Local Open Scope string_scope.

Variable env : Env.

(** X18. For a name that reaches the scan: whenever a custom directory that
    can be listed holds an existing file with a font extension whose score
    is positive, [_try_custom_fontfile_with_source] returns a path, and the
    file returned is a listed font file that scores at least as much. *)
Theorem custom_fontfile_best fontname bold italic d src names fname :
  scanned fontname = true ->
  (d, src) ∈ custom_dirs env -> listdir env d = Returned names ->
  fname ∈ names -> font_extension fname = true ->
  isfile env (join env d fname) = true ->
  (0 < _score_font_filename fname (scan_key fontname) bold italic)%Z ->
  exists p src' score,
    _try_custom_fontfile_with_source env fontname bold italic = (Some p, src')
    /\ listed_font env (custom_dirs env) p src' score (scan_key fontname) bold italic
    /\ (_score_font_filename fname (scan_key fontname) bold italic <= score)%Z.
Proof.
  intros Hscanned Hd Hlist Hin Hext Hfile Hpos.
  unfold scanned, computer_modern_name in Hscanned. cbv zeta in Hscanned.
  apply andb_true_iff in Hscanned as [Hscanned Hlong].
  apply andb_true_iff in Hscanned as [Hnorm Hcm].
  apply negb_true_iff in Hcm.
  unfold _try_custom_fontfile_with_source. cbv zeta.
  rewrite Hnorm, Hcm. cbn [negb].
  assert (Hshort : negb (given (_family_key_from_norm (_normalize_fontname fontname)))
                   && (Py.len (_normalize_fontname fontname) <? 3)%Z = false).
  { apply orb_true_iff in Hlong as [-> | Hlen]; [reflexivity |].
    apply Z.leb_le in Hlen. apply andb_false_iff. right. apply Z.ltb_ge. lia. }
  rewrite Hshort. fold (scan_key fontname).
  pose proof (scan_dirs_sound env (scan_key fontname) bold italic (custom_dirs env)
                (custom_dirs env) (fun _ H => H) (0%Z, None, "")) as Hsound.
  pose proof (scan_dirs_covers env (scan_key fontname) bold italic (custom_dirs env)
                d src names fname (0%Z, None, "") Hd Hlist Hin Hext Hfile) as Hcover.
  pose proof (scan_dirs_found env (scan_key fontname) bold italic (custom_dirs env)
                (0%Z, None, "")) as Hfound.
  destruct (scan_dirs env (scan_key fontname) bold italic (custom_dirs env)
              (0%Z, None, "")) as [[best_score best_path] best_src].
  unfold found_best, score_of, path_of in *. cbn [fst snd] in *.
  destruct Hfound as [_ [p ->]]; [split; [lia | intros; lia] | lia |].
  destruct Hsound as [_ Hsound]; [split; [lia | discriminate] |].
  destruct (Hsound p eq_refl) as (_ & _ & Hlisted).
  by exists p, best_src, best_score.
Qed.

End ScanComplete.

Section ScanExamples.

Import Fonts Resolver ResolverSpec.
Local Open Scope string_scope.

Lemma custom_fontfile_listed_witness :
  isfile Host.env "/app/fonts/Roboto-Regular.ttf" = true
  /\ (computer_modern_name "Roboto" = false ->
      exists score,
        (0 < score)%Z
        /\ listed_font Host.env (custom_dirs Host.env)
             "/app/fonts/Roboto-Regular.ttf" "bundled" score (scan_key "Roboto")
             false false).
Proof.
  apply (custom_fontfile_listed Host.env "Roboto" false false
           "/app/fonts/Roboto-Regular.ttf" "bundled").
  vm_compute. reflexivity.
Defined.

Lemma custom_fontfile_best_witness :
  exists p src' score,
    _try_custom_fontfile_with_source Host.env "Roboto" false false = (Some p, src')
    /\ listed_font Host.env (custom_dirs Host.env) p src' score (scan_key "Roboto")
         false false
    /\ (_score_font_filename "Roboto-Bold.ttf" (scan_key "Roboto") false false
        <= score)%Z.
Proof.
  apply (custom_fontfile_best Host.env "Roboto" false false "/app/fonts" "bundled"
           ["notes.txt"; "Roboto-Bold.ttf"; "Roboto-Regular.ttf"] "Roboto-Bold.ttf").
  - reflexivity.
  - by left.
  - reflexivity.
  - right. by left.
  - reflexivity.
  - reflexivity.
  - vm_compute. reflexivity.
Defined.

(** On the sample host the bundled Roboto face is found for its own name,
    and DejaVu Sans is what the system tables give for Arial. *)
Example system_fontfile_examples :
  _try_system_fontfile_with_source Host.env "ABCDEF+Roboto-Bold" None None
  = (Some "/app/fonts/Roboto-Bold.ttf", "bundled")
  /\ _try_system_fontfile_native Host.env "Arial" None None
     = Some "/usr/share/fonts/truetype/dejavu/DejaVuSans.ttf"
  /\ _map_font_to_base14 "ABCDEF+Arial-BoldItalicMT" = Some "Helvetica-BoldOblique".
Proof. vm_compute. done. Qed.

End ScanExamples.

Section CaseFacts.

Import Fonts Resolver.
Local Open Scope string_scope.

Ltac each_character c := destruct c as [[] [] [] [] [] [] [] []]; reflexivity.

Lemma to_lower_idem c : Py.to_lower (Py.to_lower c) = Py.to_lower c.
Proof. each_character c. Qed.

Lemma isspace_to_lower c : Py.isspace (Py.to_lower c) = Py.isspace c.
Proof. each_character c. Qed.

Lemma lower_idem s : Py.lower (Py.lower s) = Py.lower s.
Proof.
  induction s as [|c s IH]; [reflexivity |]. cbn [Py.lower].
  by rewrite to_lower_idem, IH.
Qed.

Lemma truthy_lower s : Py.truthy (Py.lower s) = Py.truthy s.
Proof. by destruct s. Qed.

Lemma lstrip_lower s : Py.lstrip (Py.lower s) = Py.lower (Py.lstrip s).
Proof.
  induction s as [|c s IH]; [reflexivity |]. cbn [Py.lower Py.lstrip].
  rewrite isspace_to_lower. by destruct (Py.isspace c).
Qed.

Lemma rstrip_lower s : Py.rstrip (Py.lower s) = Py.lower (Py.rstrip s).
Proof.
  induction s as [|c s IH]; [reflexivity |]. cbn [Py.lower Py.rstrip].
  rewrite IH, isspace_to_lower.
  destruct (Py.rstrip s); cbn [Py.lower]; [by destruct (Py.isspace c) | reflexivity].
Qed.

Lemma strip_lower s : Py.strip (Py.lower s) = Py.lower (Py.strip s).
Proof. unfold Py.strip. by rewrite lstrip_lower, rstrip_lower. Qed.

Lemma slash_lower s :
  match Py.lower s with String "/" rest => rest | _ => Py.lower s end
  = Py.lower (match s with String "/" rest => rest | _ => s end).
Proof. destruct s as [|c s]; [reflexivity |]. cbn [Py.lower]. each_character c. Qed.

Lemma split_first_lower s :
  Py.split_first "+" (Py.lower s)
  = option_map (fun '(a, b) => (Py.lower a, Py.lower b)) (Py.split_first "+" s).
Proof.
  induction s as [|c s IH]; [reflexivity |]. cbn [Py.lower Py.split_first].
  rewrite IH. replace (Ascii.eqb (Py.to_lower c) "+") with (Ascii.eqb c "+")
    by each_character c.
  destruct (Ascii.eqb c "+"); [reflexivity |].
  by destruct (Py.split_first "+" s) as [[a b]|].
Qed.

Lemma normalize_fontname_lower s :
  _normalize_fontname (Py.lower s) = _normalize_fontname s.
Proof.
  unfold _normalize_fontname. cbv zeta.
  rewrite strip_lower, slash_lower, split_first_lower.
  destruct (Py.split_first "+" _) as [[a b]|]; cbn [option_map];
    by rewrite strip_lower, lower_idem.
Qed.

(** X19. The resolution of a font never looks at the case of its name: two
    names that differ only in the case of their letters are normalised to
    the same name, are sent to the same font file with the same label, and
    are mapped to the same builtin face. *)
Theorem resolution_ignores_case (env : Env) (a b : string) (bold italic : option bool) :
  Py.lower a = Py.lower b ->
  _normalize_fontname a = _normalize_fontname b
  /\ _try_system_fontfile_with_source env a bold italic
     = _try_system_fontfile_with_source env b bold italic
  /\ _map_font_to_base14 a = _map_font_to_base14 b.
Proof.
  intros Hlower.
  assert (Hnorm : _normalize_fontname a = _normalize_fontname b).
  { by rewrite <- (normalize_fontname_lower a), <- (normalize_fontname_lower b),
      Hlower. }
  split; [exact Hnorm |]. split.
  - unfold _try_system_fontfile_with_source, _try_system_fontfile_native,
      _try_custom_fontfile_with_source. by rewrite Hlower, Hnorm.
  - unfold _map_font_to_base14.
    by rewrite <- (truthy_lower a), <- (truthy_lower b), Hlower.
Qed.

Lemma resolution_ignores_case_witness :
  _normalize_fontname "ABCDEF+Arial" = _normalize_fontname "abcdef+ARIAL"
  /\ _try_system_fontfile_with_source Host.env "ABCDEF+Arial" None None
     = _try_system_fontfile_with_source Host.env "abcdef+ARIAL" None None
  /\ _map_font_to_base14 "ABCDEF+Arial" = _map_font_to_base14 "abcdef+ARIAL".
Proof.
  apply (resolution_ignores_case Host.env "ABCDEF+Arial" "abcdef+ARIAL" None None).
  reflexivity.
Defined.

(** X20. The builtin face that [_map_font_to_base14] answers is one of the
    twelve Times, Helvetica and Courier faces; its weight and slant are at
    least those read off the name, and an empty name is mapped to
    nothing. *)
Theorem map_font_to_base14_face (fontname : string) :
  (forall face,
     _map_font_to_base14 fontname = Some face ->
     face ∈ Dirs.base14_faces
     /\ (fst (_infer_bold_italic (Py.lower fontname)) = true ->
         Py.contains "Bold" face = true)
     /\ (snd (_infer_bold_italic (Py.lower fontname)) = true ->
         Py.contains "Italic" face || Py.contains "Oblique" face = true))
  /\ _map_font_to_base14 "" = None.
Proof.
  split; [| reflexivity]. intros face. unfold _map_font_to_base14.
  destruct (negb (Py.truthy fontname)); [discriminate |]. cbv zeta.
  destruct (_infer_bold_italic (Py.lower fontname)) as [is_bold is_italic].
  cbn [fst snd].
  assert (Hpick : forall bold' italic' family,
             (is_bold = true -> bold' = true) ->
             (is_italic = true -> italic' = true) ->
             family ∈ ["times"; "helv"; "cour"] ->
             Some (pick bold' italic' family) = Some face ->
             face ∈ Dirs.base14_faces
             /\ (is_bold = true -> Py.contains "Bold" face = true)
             /\ (is_italic = true ->
                 Py.contains "Italic" face || Py.contains "Oblique" face = true)).
  { intros bold' italic' family Hb Hi Hfamily [= <-].
    repeat (apply elem_of_cons in Hfamily as [-> | Hfamily]);
      [| | | by apply elem_of_nil in Hfamily];
      destruct bold', italic'; cbn;
      (split; [unfold Dirs.base14_faces; repeat first [by left | right] |]);
      (split; intros H; [specialize (Hb H) | specialize (Hi H)];
       first [discriminate | reflexivity]). }
  repeat match goal with
         | |- context [if ?c then _ else _] => destruct c
         end;
    try discriminate;
    (apply Hpick;
     [first [done | intros ->; reflexivity] .. | repeat first [by left | right]]).
Qed.

End CaseFacts.

Section UploadFacts.

Import Fonts Uploads.
Local Open Scope string_scope.

Lemma append_nil b : "" ++ b = b.
Proof. reflexivity. Qed.

Lemma append_cons c a b : String c a ++ b = String c (a ++ b).
Proof. reflexivity. Qed.

Lemma accepted_limits f name data :
  accepted f = Some (name, data) ->
  name = Py.strip (or_else (filename f) "") /\ read f = Returned data
  /\ font_name name = true
  /\ (0 < Z.of_nat (List.length data) <= max_each)%Z.
Proof.
  unfold accepted. cbv zeta.
  destruct (font_name (Py.strip (or_else (filename f) ""))) eqn:Hext;
    cbn [negb]; [| discriminate].
  destruct (read f) as [[|b data']|]; try discriminate.
  destruct (max_each <? _)%Z eqn:Hsize; [discriminate |].
  apply Z.ltb_ge in Hsize. intros [= <- <-].
  repeat split; try done; cbn [List.length] in *; lia.
Qed.

Lemma omap_accepted_size files :
  (total_size (omap accepted files) <= Z.of_nat (List.length files) * max_each)%Z.
Proof.
  induction files as [|f files IH]; [cbn; lia |].
  change (omap accepted (f :: files))
    with (match accepted f with
          | Some x => x :: omap accepted files
          | None => omap accepted files
          end).
  destruct (accepted f) as [[name data]|] eqn:Hf.
  - apply accepted_limits in Hf as (_ & _ & _ & Hsize).
    unfold total_size in *. cbn [fold_right]. rewrite length_cons.
    unfold max_each in *. lia.
  - rewrite length_cons. unfold max_each in *. lia.
Qed.

Lemma omap_accepted_length files :
  (List.length (omap accepted files) <= List.length files)%nat.
Proof.
  induction files as [|f files IH]; [done |].
  change (omap accepted (f :: files))
    with (match accepted f with
          | Some x => x :: omap accepted files
          | None => omap accepted files
          end).
  destruct (accepted f); rewrite !length_cons; lia.
Qed.

(** X21. The upload filter of [api_find_replace] hands over at most twenty
    fonts, in upload order and taken from the first twenty uploads; each
    has a stripped name ending in [.ttf] or [.otf] (case ignored) and
    between one byte and five mebibytes of data, the bytes that reading the
    upload returned, so that together they hold at most a hundred
    mebibytes. *)
Theorem extra_font_files_limits (extraFonts : list UploadFile) :
  let out := extra_font_files extraFonts in
  (List.length out <= 20)%nat
  /\ (forall name data,
        (name, data) ∈ out ->
        font_name name = true
        /\ (0 < Z.of_nat (List.length data) <= 5 * 1024 * 1024)%Z
        /\ exists i f,
             (i < 20)%nat /\ extraFonts !! i = Some f
             /\ name = Py.strip (or_else (filename f) "")
             /\ read f = Returned data)
  /\ out `sublist_of` omap accepted extraFonts
  /\ (total_size out <= 100 * 1024 * 1024)%Z.
Proof.
  cbv zeta. unfold extra_font_files, max_files. split; [| split; [| split]].
  - etransitivity; [apply omap_accepted_length |]. rewrite length_take. lia.
  - intros name data Hin. apply list_elem_of_omap in Hin as (f & Hf & Hacc).
    apply accepted_limits in Hacc as (Hname & Hread & Hext & Hsize).
    split; [exact Hext |]. split; [exact Hsize |].
    apply list_elem_of_lookup in Hf as [i Hi].
    apply lookup_take_Some in Hi as [Hi Hlt]. by exists i, f.
  - rewrite <- (take_drop 20 extraFonts) at 2. rewrite omap_app.
    by apply sublist_inserts_r.
  - etransitivity; [apply omap_accepted_size |]. rewrite length_take.
    unfold max_each. lia.
Qed.

Lemma sub_unsafe_safe s : forall in_run c,
  c ∈ Py.chars (sub_unsafe in_run s) -> safe c = true.
Proof.
  induction s as [|d s IH]; intros in_run c; cbn [sub_unsafe Py.chars].
  - intros H. by apply elem_of_nil in H.
  - destruct (safe d) eqn:Hd.
    + cbn [Py.chars list_ascii_of_string]. intros H.
      apply elem_of_cons in H as [-> | H]; [exact Hd | by apply (IH false)].
    + destruct in_run; [apply IH |]. cbn [Py.chars list_ascii_of_string].
      intros H. apply elem_of_cons in H as [-> | H]; [reflexivity | by apply (IH true)].
Qed.

Lemma uint_digits u c :
  c ∈ Py.chars (NilEmpty.string_of_uint u) -> Py.isdigit c = true.
Proof.
  induction u; cbn [NilEmpty.string_of_uint Py.chars list_ascii_of_string];
    intros H; try (by apply elem_of_nil in H);
    apply elem_of_cons in H as [-> | H]; first [reflexivity | by apply IHu].
Qed.

Lemma two_digits_digits i c :
  c ∈ Py.chars (two_digits i) -> Py.isdigit c = true.
Proof.
  unfold two_digits. cbv zeta. destruct (_ <? 2)%nat; [| apply uint_digits].
  rewrite append_cons, append_nil. cbn [Py.chars list_ascii_of_string]. intros H.
  apply elem_of_cons in H as [-> | H]; [reflexivity | by apply uint_digits in H].
Qed.

Lemma two_digits_inj i j : two_digits i = two_digits j -> i = j.
Proof.
  assert (Hread : forall n,
             exists u, NilEmpty.uint_of_string (two_digits n) = Some u
                       /\ Nat.of_uint u = n).
  { intros n. unfold two_digits. cbv zeta. destruct (_ <? 2)%nat.
    - exists (Decimal.D0 (Nat.to_uint n)).
      change ("0" ++ NilEmpty.string_of_uint (Nat.to_uint n))
        with (String "0" (NilEmpty.string_of_uint (Nat.to_uint n))).
      cbn [NilEmpty.uint_of_string]. rewrite NilEmpty.usu. split; [reflexivity |]. apply Unsigned.of_to.
    - exists (Nat.to_uint n). split; [apply NilEmpty.usu | apply Unsigned.of_to]. }
  intros H. destruct (Hread i) as (u & Hu & <-). destruct (Hread j) as (v & Hv & <-).
  rewrite H in Hu. congruence.
Qed.

Lemma chars_app a b : Py.chars (a ++ b) = (Py.chars a ++ Py.chars b)%list.
Proof.
  induction a as [|c a IH]; [reflexivity |]. rewrite append_cons.
  cbn [Py.chars list_ascii_of_string app]. f_equal. exact IH.
Qed.

Lemma index_unique a a' b b' :
  (forall c, c ∈ Py.chars a -> Py.isdigit c = true) ->
  (forall c, c ∈ Py.chars a' -> Py.isdigit c = true) ->
  a ++ String "_" b = a' ++ String "_" b' -> a = a'.
Proof.
  revert a'. induction a as [|c a IH]; intros a' Ha Ha' Heq.
  - destruct a' as [|c' a']; [reflexivity |].
    rewrite append_nil, append_cons in Heq. injection Heq as <- _.
    specialize (Ha' "_"%char ltac:(by left)). discriminate.
  - destruct a' as [|c' a'].
    + rewrite append_nil, append_cons in Heq. injection Heq as -> _.
      specialize (Ha "_"%char ltac:(by left)). discriminate.
    + rewrite !append_cons in Heq. injection Heq as <- Heq. f_equal.
      apply IH; [intros d Hd; apply Ha; by right
                | intros d Hd; apply Ha'; by right | exact Heq].
Qed.

Lemma startswith_app p s t :
  Py.startswith p s = true -> Py.startswith p (s ++ t) = true.
Proof.
  revert s. induction p as [|a p IH]; intros s; [reflexivity |].
  destruct s as [|b s]; [discriminate |]. rewrite append_cons.
  cbn [Py.startswith].
  intros H. apply andb_true_iff in H as [-> H]. by apply IH.
Qed.

Lemma str_app l1 l2 : Py.str (l1 ++ l2) = Py.str l1 ++ Py.str l2.
Proof.
  induction l1 as [|c l1 IH]; [reflexivity |].
  cbn [app Py.str string_of_list_ascii]. rewrite append_cons. f_equal. exact IH.
Qed.

Lemma lower_app a b : Py.lower (a ++ b) = Py.lower a ++ Py.lower b.
Proof.
  induction a as [|c a IH]; [reflexivity |].
  rewrite append_cons. cbn [Py.lower]. rewrite append_cons. f_equal. exact IH.
Qed.

Lemma font_name_app a b : font_name b = true -> font_name (a ++ b) = true.
Proof.
  unfold font_name, Py.endswith. rewrite lower_app, chars_app, rev_app_distr, str_app.
  intros H. apply orb_true_iff in H as [H | H]; apply orb_true_iff;
    [left | right]; by apply startswith_app.
Qed.

Section Names.

Variable basename : string -> string.

Lemma out_name_parts i fname data name :
  out_name basename i fname data = Some name ->
  exists base,
    name = two_digits i ++ String "_" base
    /\ font_name base = true
    /\ forall c, c ∈ Py.chars base -> safe c = true.
Proof.
  unfold out_name. destruct data as [|b data]; [discriminate |]. cbv zeta.
  destruct (font_name _) eqn:Hext; cbn [negb]; [| discriminate].
  intros [= <-]. eexists. split; [reflexivity |]. split; [exact Hext |].
  apply sub_unsafe_safe.
Qed.

(** X22. A font that [_find_replace_core] writes into the upload directory
    gets a name made of letters, digits, dots, underscores and hyphens
    only, so without any path separator, that still ends in [.ttf] or
    [.otf]; and the name tells the index of the upload, so that no two
    uploads are written to the same file. *)
Theorem out_name_safe i fname data name :
  out_name basename i fname data = Some name ->
  (forall c, c ∈ Py.chars name -> safe c = true)
  /\ ("/"%char ∉ Py.chars name) /\ ("\"%char ∉ Py.chars name)
  /\ font_name name = true
  /\ (forall j fname' data',
        out_name basename j fname' data' = Some name -> j = i).
Proof.
  intros Hname. destruct (out_name_parts _ _ _ _ Hname) as (base & -> & Hext & Hbase).
  assert (Hsafe : forall c,
             c ∈ Py.chars (two_digits i ++ String "_" base) -> safe c = true).
  { intros c Hc. rewrite chars_app in Hc. apply elem_of_app in Hc as [Hc | Hc].
    - apply two_digits_digits in Hc. unfold safe. rewrite Hc.
      by rewrite orb_true_r.
    - cbn [Py.chars list_ascii_of_string] in Hc.
      apply elem_of_cons in Hc as [-> | Hc]; [reflexivity | by apply Hbase]. }
  split; [exact Hsafe |]. split; [| split; [| split]].
  - intros H. by apply Hsafe in H.
  - intros H. by apply Hsafe in H.
  - apply font_name_app. by apply (font_name_app "_").
  - intros j fname' data' Hj.
    destruct (out_name_parts _ _ _ _ Hj) as (base' & Heq & _ & _).
    apply index_unique in Heq; try apply two_digits_digits.
    by apply two_digits_inj in Heq.
Qed.

Lemma out_names_from i extra_fonts name :
  name ∈ out_names basename i extra_fonts ->
  exists j fname data,
    (i <= j)%nat /\ out_name basename j fname data = Some name.
Proof.
  revert i. induction extra_fonts as [|[fname data] rest IH]; intros i;
    cbn [out_names]; [intros H; by apply elem_of_nil in H |].
  destruct (out_name basename i fname data) as [n|] eqn:Hn.
  - intros H. apply elem_of_cons in H as [-> | H].
    + by exists i, fname, data.
    + destruct (IH _ H) as (j & f & d & Hle & Hj). exists j, f, d. split; [lia | done].
  - intros H. destruct (IH _ H) as (j & f & d & Hle & Hj).
    exists j, f, d. split; [lia | done].
Qed.

(** X23. The names under which the uploads of one request are written are
    pairwise different, whatever the uploads are called. *)
Theorem out_names_distinct i extra_fonts :
  NoDup (out_names basename i extra_fonts)
  /\ (List.length (out_names basename i extra_fonts) <= List.length extra_fonts)%nat.
Proof.
  revert i. induction extra_fonts as [|[fname data] rest IH]; intros i;
    cbn [out_names]; [split; [constructor | done] |].
  destruct (IH (S i)) as [Hnd Hlen].
  destruct (out_name basename i fname data) as [n|] eqn:Hn.
  - split; [| cbn [List.length]; lia]. constructor; [| exact Hnd].
    intros Hin. apply out_names_from in Hin as (j & f & d & Hle & Hj).
    destruct (out_name_parts _ _ _ _ Hn) as (base & Hi & _ & _).
    destruct (out_name_parts _ _ _ _ Hj) as (base' & Heq & _ & _).
    rewrite Hi in Heq. apply index_unique in Heq; try apply two_digits_digits.
    apply two_digits_inj in Heq. lia.
  - split; [exact Hnd | cbn [List.length]; lia].
Qed.

End Names.

Lemma out_name_safe_witness :
  (forall c, c ∈ Py.chars "03_My_Font_1_.TTF" -> safe c = true)
  /\ ("/"%char ∉ Py.chars "03_My_Font_1_.TTF")
  /\ ("\"%char ∉ Py.chars "03_My_Font_1_.TTF")
  /\ font_name "03_My_Font_1_.TTF" = true
  /\ (forall j fname' data',
        out_name posix_basename j fname' data' = Some "03_My_Font_1_.TTF" ->
        j = 3%nat).
Proof.
  apply (out_name_safe posix_basename 3 "../fonts/My Font (1).TTF" [Byte.x00]).
  vm_compute. reflexivity.
Defined.

(** Of three uploads, the text file and the empty font are passed over. *)
Example extra_font_files_example :
  extra_font_files
    [mkUpload (Some " Roboto.TTF ") (Returned [Byte.x00; Byte.x01]);
     mkUpload (Some "notes.txt") (Returned [Byte.x00]);
     mkUpload (Some "empty.otf") (Returned [])]
  = [("Roboto.TTF", [Byte.x00; Byte.x01])].
Proof. vm_compute. reflexivity. Qed.

End UploadFacts.

Section PreviewFacts.

Import Previews.

Lemma delete_all_lookup (keys : list string) : forall (store : gmap string Entry) k,
  fold_left (fun store k => delete k store) keys store !! k
  = if bool_decide (k ∈ keys) then None else store !! k.
Proof.
  induction keys as [|k0 keys IH]; intros store k; cbn [fold_left].
  - by rewrite bool_decide_eq_false_2 by apply not_elem_of_nil.
  - rewrite IH. destruct (decide (k ∈ keys)) as [Hin | Hnot].
    + rewrite !bool_decide_eq_true_2; [done | by right | done].
    + rewrite (bool_decide_eq_false_2 (k ∈ keys)) by done.
      destruct (decide (k = k0)) as [-> | Hne].
      * rewrite bool_decide_eq_true_2 by (by left). apply lookup_delete_eq.
      * rewrite bool_decide_eq_false_2.
        -- by apply lookup_delete_ne.
        -- intros H. apply elem_of_cons in H as [? | ?]; done.
Qed.

Lemma preview_gc_lookup now (store : gmap string Entry) k :
  _preview_gc now store !! k
  = match store !! k with
    | Some e => if is_expired now e then None else Some e
    | None => None
    end.
Proof.
  unfold _preview_gc. cbv zeta. rewrite delete_all_lookup.
  destruct (store !! k) as [e|] eqn:Hk.
  - destruct (is_expired now e) eqn:He.
    + rewrite bool_decide_eq_true_2; [done |].
      apply list_elem_of_In, in_map_iff. exists (k, e). split; [done |].
      apply filter_In. split; [| exact He].
      by apply list_elem_of_In, elem_of_map_to_list.
    + rewrite bool_decide_eq_false_2; [done |].
      intros H. apply list_elem_of_In, in_map_iff in H as ([k' e'] & Hk' & H).
      simpl in Hk'. subst k'. apply filter_In in H as [H He'].
      apply list_elem_of_In, elem_of_map_to_list in H. congruence.
  - rewrite bool_decide_eq_false_2; [done |].
    intros H. apply list_elem_of_In, in_map_iff in H as ([k' e'] & Hk' & H).
    simpl in Hk'. subst k'. apply filter_In in H as [H _].
    apply list_elem_of_In, elem_of_map_to_list in H. congruence.
Qed.

(** X24. [_preview_gc] removes exactly the previews older than ten minutes:
    an entry is in the store afterwards exactly when it was there before,
    unchanged, and its age is at most 600 seconds; collecting again at the
    same time changes nothing. *)
Theorem preview_gc_keeps_fresh now (store : gmap string Entry) :
  (forall (k : string) (e : Entry),
     _preview_gc now store !! k = Some e
     <-> store !! k = Some e /\ (now - created e <= 600)%Q)
  /\ _preview_gc now (_preview_gc now store) = _preview_gc now store.
Proof.
  assert (Hexp : forall e : Entry,
             is_expired now e = false <-> (now - created e <= 600)%Q).
  { intros e. unfold is_expired, _PREVIEW_TTL_SECONDS.
    change (inject_Z (10 * 60)) with 600%Q.
    split; intros H.
    - apply ltb_ge in H. exact H.
    - destruct (Float.ltb _ _) eqn:Hlt; [| reflexivity].
      apply ltb_lt in Hlt. lra. }
  split.
  - intros k e. rewrite preview_gc_lookup. destruct (store !! k) as [e'|].
    + destruct (is_expired now e') eqn:He.
      * split; [discriminate |]. intros [[= ->] H]. apply Hexp in H. congruence.
      * split; [intros [= ->]; split; [done | by apply Hexp] | by intros [? _]].
    + split; [discriminate | by intros [? _]].
  - apply map_eq. intros k. rewrite !preview_gc_lookup.
    destruct (store !! k) as [e|]; [| reflexivity].
    destruct (is_expired now e) eqn:He; [reflexivity | by rewrite He].
Qed.

End PreviewFacts.
